(** * MiSub: the subscription store of [src/composables/useSubscriptions.js]

    A shallow embedding of the composable [useSubscriptions] and the
    properties of its refresh scheduling.

    Modelling choices.
    - Subscription records are JavaScript objects shared by reference (the
      reactive array, timer closures and suspended [async] calls all hold
      references to them), so the records live in a heap addressed by
      locations and the collection [subscriptions.value] is a list of
      locations.
    - An [async] function runs synchronously up to its next [await] of an
      external call; the embedding of such a function returns a [task]: either
      a settled promise or a suspended call with the continuation that runs
      when the external call settles, in whatever store is current then.
    - The external collaborators ([fetchNodeCount], [batchUpdateNodes],
      [fetchSettings]) are the requests a task suspends on; the sinks
      ([showToast], [markDirty], [console.error]) are appended to a log.
    - Numbers are integers ([Z]); identifiers, names and URLs are strings. *)

From stdpp Require Import gmap strings list.
From Stdlib Require Import ZArith Lia.

Local Open Scope Z_scope.

(** ** Data model *)

Definition loc := nat.
Definition handle := nat.

(** [userInfo]: the quota structure; each field may be missing (the source
    reads them as [upload || 0], [download || 0], [total > 0]). *)
Module UserInfo.
Record t := mk { upload : option Z; download : option Z; total : option Z }.
End UserInfo.

(** A subscription record as it lives in [subscriptions.value].
    [updateTimers] is [None] while the property is undefined. *)
Module Sub.
Record t := mk {
  id : string;
  name : option string;
  url : string;
  enabled : bool;
  nodeCount : Z;
  isUpdating : bool;
  userInfo : option UserInfo.t;
  exclude : string;
  updateInterval : option Z;
  updateTimers : option (list handle)
}.

Definition set_nodeCount (v : Z) (r : t) : t :=
  mk (id r) (name r) (url r) (enabled r) v (isUpdating r) (userInfo r)
     (exclude r) (updateInterval r) (updateTimers r).
Definition set_isUpdating (v : bool) (r : t) : t :=
  mk (id r) (name r) (url r) (enabled r) (nodeCount r) v (userInfo r)
     (exclude r) (updateInterval r) (updateTimers r).
Definition set_userInfo (v : option UserInfo.t) (r : t) : t :=
  mk (id r) (name r) (url r) (enabled r) (nodeCount r) (isUpdating r) v
     (exclude r) (updateInterval r) (updateTimers r).
Definition set_updateInterval (v : option Z) (r : t) : t :=
  mk (id r) (name r) (url r) (enabled r) (nodeCount r) (isUpdating r)
     (userInfo r) (exclude r) v (updateTimers r).
Definition set_updateTimers (v : option (list handle)) (r : t) : t :=
  mk (id r) (name r) (url r) (enabled r) (nodeCount r) (isUpdating r)
     (userInfo r) (exclude r) (updateInterval r) v.
End Sub.

(** A seed record supplied by the host through [initialSubsRef]: every
    optional property may be missing. Seeds carry no timer handles. *)
Module Raw.
Record t := mk {
  id : option string;
  name : option string;
  url : string;
  enabled : option bool;
  nodeCount : option Z;
  userInfo : option UserInfo.t;
  exclude : option string;
  updateInterval : option Z
}.
End Raw.

(** The sinks. Each toast template of the source is one constructor. *)
Inductive level := success | error | info.

Inductive message :=
  | MsgAutoUpdateDone (successCount total : nat)
  | MsgItemAutoUpdateDone (name : option string)
  | MsgUpdateOk (name : option string)
  | MsgUpdateFailed (name : option string)
  | MsgBulkUpdating (total : nat)
  | MsgBulkDone (successCount total : nat)
  | MsgBulkFailed (message : option string)
  | MsgDegrading
  | MsgBulkFailedDegrading
  | MsgBulkImportDone.

Inductive event :=
  | Toast (m : message) (lvl : level)
  | MarkDirty
  | ConsoleError (what : string).

(** The callbacks handed to [setInterval]: the global one closes over the
    composable only, a per-item one over its record [sub]. *)
Inductive callback := GlobalTick | ItemTick (sub : loc).

Record timer := { period : Z; fires : callback }.

(** The state of one [useSubscriptions] instance together with the part of
    the runtime it drives: the object heap, the table of live interval
    timers and the number of UUIDs drawn so far. *)
Record store := {
  heap : gmap loc Sub.t;
  next_loc : loc;
  subscriptions : list loc;
  subsCurrentPage : Z;
  updateInterval : Z;
  updateTimer : option handle;
  timers : gmap handle timer;
  next_handle : handle;
  uuids_drawn : nat;
  log : list event
}.

Definition subsItemsPerPage : Z := 6.

Definition empty_store : store :=
  {| heap := ∅; next_loc := 0%nat; subscriptions := []; subsCurrentPage := 1;
     updateInterval := 0; updateTimer := None; timers := ∅;
     next_handle := 1%nat; uuids_drawn := 0%nat; log := [] |}.

(** Field updates of the store. *)
Definition set_heap (h : gmap loc Sub.t) (s : store) : store :=
  {| heap := h; next_loc := next_loc s; subscriptions := subscriptions s;
     subsCurrentPage := subsCurrentPage s; updateInterval := updateInterval s;
     updateTimer := updateTimer s; timers := timers s;
     next_handle := next_handle s; uuids_drawn := uuids_drawn s; log := log s |}.
Definition set_subscriptions (v : list loc) (s : store) : store :=
  {| heap := heap s; next_loc := next_loc s; subscriptions := v;
     subsCurrentPage := subsCurrentPage s; updateInterval := updateInterval s;
     updateTimer := updateTimer s; timers := timers s;
     next_handle := next_handle s; uuids_drawn := uuids_drawn s; log := log s |}.
Definition set_subsCurrentPage (v : Z) (s : store) : store :=
  {| heap := heap s; next_loc := next_loc s; subscriptions := subscriptions s;
     subsCurrentPage := v; updateInterval := updateInterval s;
     updateTimer := updateTimer s; timers := timers s;
     next_handle := next_handle s; uuids_drawn := uuids_drawn s; log := log s |}.
Definition set_updateInterval (v : Z) (s : store) : store :=
  {| heap := heap s; next_loc := next_loc s; subscriptions := subscriptions s;
     subsCurrentPage := subsCurrentPage s; updateInterval := v;
     updateTimer := updateTimer s; timers := timers s;
     next_handle := next_handle s; uuids_drawn := uuids_drawn s; log := log s |}.
Definition set_updateTimer (v : option handle) (s : store) : store :=
  {| heap := heap s; next_loc := next_loc s; subscriptions := subscriptions s;
     subsCurrentPage := subsCurrentPage s; updateInterval := updateInterval s;
     updateTimer := v; timers := timers s;
     next_handle := next_handle s; uuids_drawn := uuids_drawn s; log := log s |}.
Definition emit (e : event) (s : store) : store :=
  {| heap := heap s; next_loc := next_loc s; subscriptions := subscriptions s;
     subsCurrentPage := subsCurrentPage s; updateInterval := updateInterval s;
     updateTimer := updateTimer s; timers := timers s;
     next_handle := next_handle s; uuids_drawn := uuids_drawn s;
     log := log s ++ [e] |}.

Definition showToast (m : message) (lvl : level) : store -> store := emit (Toast m lvl).
Definition markDirty : store -> store := emit MarkDirty.
Definition console_error (what : string) : store -> store := emit (ConsoleError what).

(** Objects. [alloc] is the creation of an object by an object literal (or
    by the caller that hands a record in); [modify] is a property write
    through a reference. *)
Definition alloc (r : Sub.t) (s : store) : loc * store :=
  (next_loc s,
   {| heap := <[next_loc s := r]> (heap s); next_loc := S (next_loc s);
      subscriptions := subscriptions s; subsCurrentPage := subsCurrentPage s;
      updateInterval := updateInterval s; updateTimer := updateTimer s;
      timers := timers s; next_handle := next_handle s;
      uuids_drawn := uuids_drawn s; log := log s |}).

Fixpoint alloc_all (rs : list Sub.t) (s : store) : list loc * store :=
  match rs with
  | [] => ([], s)
  | r :: rest =>
      let '(l, s1) := alloc r s in
      let '(ls, s2) := alloc_all rest s1 in
      (l :: ls, s2)
  end.

Definition modify (l : loc) (f : Sub.t -> Sub.t) (s : store) : store :=
  set_heap (alter f l (heap s)) s.

(** Reading a property through a reference; a dangling reference (there is
    none: objects are never freed) reads as the given default. *)
Definition read {A} (f : Sub.t -> A) (d : A) (s : store) (l : loc) : A :=
  match heap s !! l with Some r => f r | None => d end.

Definition id_of : store -> loc -> string := read Sub.id "".
Definition url_of : store -> loc -> string := read Sub.url "".
Definition name_of : store -> loc -> option string := read Sub.name None.

(** The runtime's [setInterval] and [clearInterval]. *)
Definition setInterval (cb : callback) (ms : Z) (s : store) : handle * store :=
  (next_handle s,
   {| heap := heap s; next_loc := next_loc s; subscriptions := subscriptions s;
      subsCurrentPage := subsCurrentPage s; updateInterval := updateInterval s;
      updateTimer := updateTimer s;
      timers := <[next_handle s := {| period := ms; fires := cb |}]> (timers s);
      next_handle := S (next_handle s);
      uuids_drawn := uuids_drawn s; log := log s |}).

Definition clearInterval (h : handle) (s : store) : store :=
  {| heap := heap s; next_loc := next_loc s; subscriptions := subscriptions s;
     subsCurrentPage := subsCurrentPage s; updateInterval := updateInterval s;
     updateTimer := updateTimer s; timers := delete h (timers s);
     next_handle := next_handle s; uuids_drawn := uuids_drawn s; log := log s |}.

(** [url.startsWith('http')] *)
Definition is_http (u : string) : bool := String.prefix "http" u.

(** [subscriptions.value.find(s => s.id === subId)] *)
Definition find_sub (subId : string) (s : store) : option loc :=
  List.find (fun l => String.eqb (id_of s l) subId) (subscriptions s).

(** [subscriptions.value.findIndex(s => s.id === subId)] *)
Fixpoint findIndex_from (s : store) (subId : string) (ls : list loc) (i : nat) : option nat :=
  match ls with
  | [] => None
  | l :: rest =>
      if String.eqb (id_of s l) subId then Some i
      else findIndex_from s subId rest (S i)
  end.
Definition findIndex (subId : string) (s : store) : option nat :=
  findIndex_from s subId (subscriptions s) 0%nat.

(** ** External calls and tasks *)

(** [fetchNodeCount(url)] resolves to [{count, userInfo}] or rejects. *)
Record fetch_data := { count : option Z; fetched_userInfo : option UserInfo.t }.
Inductive fetch_outcome := FetchResolved (data : fetch_data) | FetchRejected (err : string).

(** [batchUpdateNodes(ids)] resolves to [{success, message, results}] or
    rejects; a per-id result is [{id, success, nodeCount}]. *)
Record batch_entry := { entry_id : string; entry_success : bool; entry_nodeCount : Z }.
Record batch_result := {
  batch_success : bool; batch_message : option string; results : list batch_entry }.
Inductive batch_outcome := BatchResolved (result : batch_result) | BatchRejected (err : string).

(** [fetchSettings()] resolves to [{updateInterval}] or rejects. *)
Record settings := { settings_updateInterval : option Z }.
Inductive settings_outcome := SettingsResolved (st : settings) | SettingsRejected (err : string).

Inductive completion := Normal | Thrown (err : string).

(** A call of an [async] function, run up to its next suspension point.
    Every node carries the store as the synchronous part left it; a
    continuation receives the outcome of the external call and the store
    that is current when the call settles. *)
Inductive task :=
  | Done (c : completion) (s : store)
  | AwaitFetch (s : store) (url : string) (k : fetch_outcome -> store -> task)
  | AwaitBatch (s : store) (ids : list string) (k : batch_outcome -> store -> task)
  | AwaitSettings (s : store) (k : settings_outcome -> store -> task).

Definition task_store (t : task) : store :=
  match t with
  | Done _ s | AwaitFetch s _ _ | AwaitBatch s _ _ | AwaitSettings s _ => s
  end.

(** [await] of an external call: a rejection is thrown at the [await]. *)
Definition await_fetch (u : string) (k : fetch_data -> store -> task) (s : store) : task :=
  AwaitFetch s u (fun o s' =>
    match o with FetchResolved d => k d s' | FetchRejected e => Done (Thrown e) s' end).

Definition await_batch (ids : list string) (k : batch_result -> store -> task) (s : store) : task :=
  AwaitBatch s ids (fun o s' =>
    match o with BatchResolved r => k r s' | BatchRejected e => Done (Thrown e) s' end).

Definition await_settings (k : settings -> store -> task) (s : store) : task :=
  AwaitSettings s (fun o s' =>
    match o with SettingsResolved r => k r s' | SettingsRejected e => Done (Thrown e) s' end).

(** [await t; f]: sequencing on an awaited call of an async function. *)
Fixpoint bind (t : task) (f : store -> task) : task :=
  match t with
  | Done Normal s => f s
  | Done (Thrown e) s => Done (Thrown e) s
  | AwaitFetch s u k => AwaitFetch s u (fun o s' => bind (k o s') f)
  | AwaitBatch s ids k => AwaitBatch s ids (fun o s' => bind (k o s') f)
  | AwaitSettings s k => AwaitSettings s (fun o s' => bind (k o s') f)
  end.

(** [try { t } catch (error) { h error }] *)
Fixpoint try_catch (t : task) (h : string -> store -> task) : task :=
  match t with
  | Done Normal s => Done Normal s
  | Done (Thrown e) s => h e s
  | AwaitFetch s u k => AwaitFetch s u (fun o s' => try_catch (k o s') h)
  | AwaitBatch s ids k => AwaitBatch s ids (fun o s' => try_catch (k o s') h)
  | AwaitSettings s k => AwaitSettings s (fun o s' => try_catch (k o s') h)
  end.

(** [try { t } finally { fin }], for a [finally] block that only writes. *)
Fixpoint try_finally (t : task) (fin : store -> store) : task :=
  match t with
  | Done c s => Done c (fin s)
  | AwaitFetch s u k => AwaitFetch s u (fun o s' => try_finally (k o s') fin)
  | AwaitBatch s ids k => AwaitBatch s ids (fun o s' => try_finally (k o s') fin)
  | AwaitSettings s k => AwaitSettings s (fun o s' => try_finally (k o s') fin)
  end.

(** ** The composable *)

Section Composable.

(** [crypto.randomUUID()]: the n-th identifier the runtime hands out. *)
Variable randomUUID : nat -> string.

Definition draw_uuid (s : store) : string * store :=
  (randomUUID (uuids_drawn s),
   {| heap := heap s; next_loc := next_loc s; subscriptions := subscriptions s;
      subsCurrentPage := subsCurrentPage s; updateInterval := updateInterval s;
      updateTimer := updateTimer s; timers := timers s;
      next_handle := next_handle s; uuids_drawn := S (uuids_drawn s);
      log := log s |}).

(** *** Refreshing one record: [handleUpdateNodeCount] *)

Definition handleUpdateNodeCount (subId : string) (isInitialLoad : bool) (s : store) : task :=
  match find_sub subId s with
  | None => Done Normal s
  | Some subToUpdate =>
      if negb (is_http (url_of s subToUpdate)) then Done Normal s
      else
        let s := if negb isInitialLoad
                 then modify subToUpdate (Sub.set_isUpdating true) s else s in
        try_finally
          (try_catch
             (await_fetch (url_of s subToUpdate) (fun data s =>
                let s := modify subToUpdate
                           (Sub.set_nodeCount (default 0 (count data))) s in
                let s := modify subToUpdate
                           (Sub.set_userInfo (fetched_userInfo data)) s in
                if negb isInitialLoad
                then Done Normal
                       (markDirty (showToast (MsgUpdateOk (name_of s subToUpdate)) success s))
                else Done Normal s) s)
             (fun _ s =>
                let s := if negb isInitialLoad
                         then showToast (MsgUpdateFailed (name_of s subToUpdate)) error s
                         else s in
                Done Normal (console_error "Failed to fetch node count" s)))
          (modify subToUpdate (Sub.set_isUpdating false))
  end.

(** *** Applying the per-id results of a batch call

    The same [result.results.forEach] loop occurs in the global tick, in the
    per-item tick and in the bulk import. *)
Definition applyBatchResult (s : store) (updateResult : batch_entry) : store :=
  if entry_success updateResult then
    match find_sub (entry_id updateResult) s with
    | Some sub => modify sub (Sub.set_nodeCount (entry_nodeCount updateResult)) s
    | None => s
    end
  else s.

Definition applyBatchResults (rs : list batch_entry) (s : store) : store :=
  fold_left applyBatchResult rs s.

Definition successCount (rs : list batch_entry) : nat :=
  length (List.filter entry_success rs).

(** *** The global scheduler: [setupAutoUpdate] and its timer callback *)

Definition globalTick (s : store) : task :=
  let enabledSubs :=
    List.filter (fun l => read Sub.enabled false s l && is_http (url_of s l))
                (subscriptions s) in
  if (0 <? length enabledSubs)%nat then
    try_catch
      (await_batch (map (id_of s) enabledSubs) (fun result s =>
         if batch_success result then
           let s := applyBatchResults (results result) s in
           let s := showToast (MsgAutoUpdateDone (successCount (results result))
                                                 (length enabledSubs)) success s in
           Done Normal (markDirty s)
         else Done Normal (console_error "Auto update failed" s)) s)
      (fun _ s => Done Normal (console_error "Auto update error" s))
  else Done Normal s.

Definition setupAutoUpdate (s : store) : store :=
  let s := match updateTimer s with
           | Some h => set_updateTimer None (clearInterval h s)
           | None => s
           end in
  if 0 <? updateInterval s then
    let '(h, s) := setInterval GlobalTick (updateInterval s * 60 * 1000) s in
    set_updateTimer (Some h) s
  else s.

(** *** The per-item scheduler *)

Definition itemTick (sub : loc) (s : store) : task :=
  try_catch
    (await_batch [id_of s sub] (fun result s =>
       if batch_success result then
         let s := applyBatchResults (results result) s in
         let s := showToast (MsgItemAutoUpdateDone (name_of s sub)) success s in
         Done Normal (markDirty s)
       else Done Normal (console_error "Individual auto update failed" s)) s)
    (fun _ s => Done Normal (console_error "Individual auto update error" s)).

Definition clearTimersOf (s : store) (sub : loc) : store :=
  match read Sub.updateTimers None s sub with
  | Some (h :: hs) =>
      modify sub (Sub.set_updateTimers (Some []))
        (fold_left (fun s timerId => clearInterval timerId s) (h :: hs) s)
  | _ => s
  end.

Definition clearIndividualUpdateTimers (s : store) : store :=
  fold_left clearTimersOf (subscriptions s) s.

(** [sub.enabled && sub.url.startsWith('http') && sub.updateInterval &&
    sub.updateInterval > 0] *)
Definition wants_timer (r : Sub.t) : bool :=
  Sub.enabled r && is_http (Sub.url r) &&
  match Sub.updateInterval r with
  | Some n => negb (n =? 0) && (0 <? n)
  | None => false
  end.

Definition armTimerOf (s : store) (sub : loc) : store :=
  match heap s !! sub with
  | Some r =>
      if wants_timer r then
        let '(timerId, s) :=
          setInterval (ItemTick sub) (default 0 (Sub.updateInterval r) * 60 * 1000) s in
        let s := match read Sub.updateTimers None s sub with
                 | None => modify sub (Sub.set_updateTimers (Some [])) s
                 | Some _ => s
                 end in
        modify sub (fun r => Sub.set_updateTimers
                               (Some (default [] (Sub.updateTimers r) ++ [timerId])) r) s
      else s
  | None => s
  end.

Definition setupIndividualUpdateTimers (s : store) : store :=
  let s := clearIndividualUpdateTimers s in
  fold_left armTimerOf (subscriptions s) s.

(** The callback of a timer, as [setInterval] received it. *)
Definition run_callback (cb : callback) : store -> task :=
  match cb with
  | GlobalTick => globalTick
  | ItemTick sub => itemTick sub
  end.

(** *** The store: [initializeSubscriptions] and the derived views *)

(** One element of [(subsData || []).map(sub => ({...sub, ...}))]. *)
Definition normalize (sub : Raw.t) (s : store) : Sub.t * store :=
  let '(i, s) := match Raw.id sub with
                 | Some i => if String.eqb i "" then draw_uuid s else (i, s)
                 | None => draw_uuid s
                 end in
  (Sub.mk i (Raw.name sub) (Raw.url sub)
          (default true (Raw.enabled sub))
          (default 0 (Raw.nodeCount sub))
          false
          (Raw.userInfo sub)
          (default "" (Raw.exclude sub))
          (match Raw.updateInterval sub with
           | Some n => if n =? 0 then None else Some n
           | None => None
           end)
          None,
   s).

Fixpoint normalize_all (subsData : list Raw.t) (s : store) : list loc * store :=
  match subsData with
  | [] => ([], s)
  | sub :: rest =>
      let '(r, s) := normalize sub s in
      let '(l, s) := alloc r s in
      let '(ls, s) := normalize_all rest s in
      (l :: ls, s)
  end.

Definition initializeSubscriptions (subsData : option (list Raw.t)) (s : store) : store :=
  let '(ls, s) := normalize_all (default [] subsData) s in
  set_subscriptions ls s.

Definition enabledSubscriptions (s : store) : list loc :=
  List.filter (read Sub.enabled false s) (subscriptions s).

(** The callback of the [reduce] in [totalRemainingTraffic]. *)
Definition remaining_step (s : store) (acc : Z) (sub : loc) : Z :=
  match heap s !! sub with
  | Some r =>
      match Sub.userInfo r with
      | Some ui =>
          if Sub.enabled r && (0 <? default 0 (UserInfo.total ui)) then
            let used := default 0 (UserInfo.upload ui) + default 0 (UserInfo.download ui) in
            let remaining := default 0 (UserInfo.total ui) - used in
            acc + Z.max 0 remaining
          else acc
      | None => acc
      end
  | None => acc
  end.

Definition totalRemainingTraffic (s : store) : Z :=
  fold_left (remaining_step s) (subscriptions s) 0.

(** [Math.ceil(a / b)] on integers, for [b > 0]. *)
Definition ceil_div (a b : Z) : Z := - ((- a) / b).

Definition subsTotalPages (s : store) : Z :=
  ceil_div (Z.of_nat (length (subscriptions s))) subsItemsPerPage.

(** [Array.prototype.slice(start, end)]: a negative index counts from the
    end, and both are clamped to the array. *)
Definition js_slice {A} (l : list A) (start finish : Z) : list A :=
  let len := Z.of_nat (length l) in
  let from := if start <? 0 then Z.max (len + start) 0 else Z.min start len in
  let to := if finish <? 0 then Z.max (len + finish) 0 else Z.min finish len in
  take (Z.to_nat (to - from)) (drop (Z.to_nat from) l).

Definition paginatedSubscriptions (s : store) : list loc :=
  let start := (subsCurrentPage s - 1) * subsItemsPerPage in
  let finish := start + subsItemsPerPage in
  js_slice (subscriptions s) start finish.

Definition changeSubsPage (page : Z) (s : store) : store :=
  if (page <? 1) || (subsTotalPages s <? page) then s
  else set_subsCurrentPage page s.

(** *** Mutations of the collection

    A record handed in by the caller is an object of the caller; it is
    allocated first and shared by reference from then on. A synchronous
    function that calls [handleUpdateNodeCount] without awaiting it returns
    the call it left behind. *)

Definition addSubscription (sub : Sub.t) (s : store) : store * list task :=
  let '(l, s) := alloc sub s in
  let s := set_subscriptions (l :: subscriptions s) s in
  let s := set_subsCurrentPage 1 s in
  let t := handleUpdateNodeCount (id_of s l) false s in
  (markDirty (task_store t), [t]).

Definition updateSubscription (updatedSub : Sub.t) (s : store) : store * list task :=
  let '(u, s) := alloc updatedSub s in
  match findIndex (id_of s u) s with
  | Some index =>
      let stored := default u (subscriptions s !! index) in
      let '(s, spawned) :=
        if negb (String.eqb (url_of s stored) (url_of s u)) then
          let s := modify u (Sub.set_nodeCount 0) s in
          let t := handleUpdateNodeCount (id_of s u) false s in
          (task_store t, [t])
        else (s, []) in
      let s := set_subscriptions (<[index := u]> (subscriptions s)) s in
      (markDirty s, spawned)
  | None => (s, [])
  end.

Definition deleteSubscription (subId : string) (s : store) : store :=
  let s := set_subscriptions
             (List.filter (fun l => negb (String.eqb (id_of s l) subId)) (subscriptions s)) s in
  let s := if (length (paginatedSubscriptions s) =? 0)%nat && (1 <? subsCurrentPage s)
           then set_subsCurrentPage (subsCurrentPage s - 1) s else s in
  markDirty s.

Definition deleteAllSubscriptions (s : store) : store :=
  markDirty (set_subsCurrentPage 1 (set_subscriptions [] s)).

(** [for (const sub of subsToUpdate) { await handleUpdateNodeCount(sub.id); }] *)
Fixpoint refresh_each (subsToUpdate : list loc) (s : store) : task :=
  match subsToUpdate with
  | [] => Done Normal s
  | sub :: rest =>
      bind (handleUpdateNodeCount (id_of s sub) false s) (refresh_each rest)
  end.

Definition addSubscriptionsFromBulk (subs : list Sub.t) (s : store) : task :=
  let '(ls, s) := alloc_all subs s in
  let s := set_subscriptions (ls ++ subscriptions s) s in
  let s := markDirty s in
  let subsToUpdate :=
    List.filter (fun l => negb (String.eqb (url_of s l) "") && is_http (url_of s l)) ls in
  if (0 <? length subsToUpdate)%nat then
    let s := showToast (MsgBulkUpdating (length subsToUpdate)) success s in
    try_catch
      (await_batch (map (id_of s) subsToUpdate) (fun result s =>
         if batch_success result then
           let s := applyBatchResults (results result) s in
           let s := showToast (MsgBulkDone (successCount (results result))
                                           (length subsToUpdate)) success s in
           Done Normal (markDirty s)
         else
           let s := showToast (MsgBulkFailed (batch_message result)) error s in
           let s := showToast MsgDegrading info s in
           refresh_each subsToUpdate s) s)
      (fun _ s =>
         let s := console_error "Batch update failed" s in
         let s := showToast MsgBulkFailedDegrading error s in
         refresh_each subsToUpdate s)
  else Done Normal (showToast MsgBulkImportDone success s).

(** *** Interval changes, mounting and unmounting *)

Definition handleUpdateIntervalChange (newInterval : Z) (s : store) : store :=
  setupAutoUpdate (set_updateInterval newInterval s).

Definition handleSubscriptionUpdateIntervalChange
    (subId : string) (newInterval : option Z) (s : store) : store :=
  match find_sub subId s with
  | Some sub =>
      setupIndividualUpdateTimers (modify sub (Sub.set_updateInterval newInterval) s)
  | None => s
  end.

Definition initializeUpdateInterval (s : store) : task :=
  try_catch
    (await_settings (fun st s =>
       let s := set_updateInterval (default 0 (settings_updateInterval st)) s in
       Done Normal (setupAutoUpdate s)) s)
    (fun _ s => Done Normal (console_error "Failed to fetch settings" s)).

Definition onMounted (s : store) : store * list task :=
  let t := initializeUpdateInterval s in
  (setupIndividualUpdateTimers (task_store t), [t]).

Definition onUnmounted (s : store) : store :=
  let s := match updateTimer s with
           | Some h => set_updateTimer None (clearInterval h s)
           | None => s
           end in
  clearIndividualUpdateTimers s.

(** ** The event loop

    Between two suspension points the code runs atomically. A state of the
    whole system is the current store and the calls that were left suspended;
    an [action] is one atomic step: the host calls an exported function, a
    live timer fires, or an external call settles and its suspended caller
    resumes in the current store. *)

Record system := { current : store; pending : list task }.

Inductive action :=
  | Initialize (subsData : option (list Raw.t))
  | Add (sub : Sub.t)
  | AddBulk (subs : list Sub.t)
  | Update (updatedSub : Sub.t)
  | Delete (subId : string)
  | DeleteAll
  | Refresh (subId : string) (isInitialLoad : bool)
  | ChangePage (page : Z)
  | SetInterval (newInterval : Z)
  | SetItemInterval (subId : string) (newInterval : option Z)
  | Mount
  | Unmount
  | Tick (h : handle)
  | SettleFetch (i : nat) (o : fetch_outcome)
  | SettleBatch (i : nat) (o : batch_outcome)
  | SettleSettings (i : nat) (o : settings_outcome).

Definition sync (sys : system) (s : store) : system :=
  {| current := s; pending := pending sys |}.

Definition spawn (sys : system) (r : store * list task) : system :=
  {| current := fst r; pending := pending sys ++ snd r |}.

Definition start (sys : system) (t : task) : system :=
  {| current := task_store t; pending := pending sys ++ [t] |}.

Definition resume (sys : system) (i : nat) (t : task) : system :=
  {| current := task_store t; pending := <[i := t]> (pending sys) |}.

Definition step (sys : system) (a : action) : system :=
  let s := current sys in
  match a with
  | Initialize subsData => sync sys (initializeSubscriptions subsData s)
  | Add sub => spawn sys (addSubscription sub s)
  | AddBulk subs => start sys (addSubscriptionsFromBulk subs s)
  | Update updatedSub => spawn sys (updateSubscription updatedSub s)
  | Delete subId => sync sys (deleteSubscription subId s)
  | DeleteAll => sync sys (deleteAllSubscriptions s)
  | Refresh subId isInitialLoad => start sys (handleUpdateNodeCount subId isInitialLoad s)
  | ChangePage page => sync sys (changeSubsPage page s)
  | SetInterval newInterval => sync sys (handleUpdateIntervalChange newInterval s)
  | SetItemInterval subId newInterval =>
      sync sys (handleSubscriptionUpdateIntervalChange subId newInterval s)
  | Mount => spawn sys (onMounted s)
  | Unmount => sync sys (onUnmounted s)
  | Tick h =>
      match timers s !! h with
      | Some tm => start sys (run_callback (fires tm) s)
      | None => sys
      end
  | SettleFetch i o =>
      match pending sys !! i with
      | Some (AwaitFetch _ _ k) => resume sys i (k o s)
      | _ => sys
      end
  | SettleBatch i o =>
      match pending sys !! i with
      | Some (AwaitBatch _ _ k) => resume sys i (k o s)
      | _ => sys
      end
  | SettleSettings i o =>
      match pending sys !! i with
      | Some (AwaitSettings _ k) => resume sys i (k o s)
      | _ => sys
      end
  end.

Definition run (acts : list action) (sys : system) : system := fold_left step acts sys.

Definition boot : system := {| current := empty_store; pending := [] |}.

(** ** Observations used by the statements *)

(** The records of the collection, in order. *)
Definition records (s : store) : list Sub.t :=
  omap (fun l => heap s !! l) (subscriptions s).

Definition ids (s : store) : list string := map (id_of s) (subscriptions s).

Definition sum_Z (l : list Z) : Z := foldr Z.add 0 l.

(** [aggregateRemainingQuota] in the words of the specification: the sum,
    over the enabled records whose [userInfo] is present with [total > 0],
    of [max(0, total - (upload + download))]. *)
Definition counts_for_quota (r : Sub.t) : bool :=
  Sub.enabled r &&
  match Sub.userInfo r with
  | Some ui => match UserInfo.total ui with Some t => 0 <? t | None => false end
  | None => false
  end.

Definition quota_left (r : Sub.t) : Z :=
  match Sub.userInfo r with
  | Some ui =>
      Z.max 0 (default 0 (UserInfo.total ui)
               - (default 0 (UserInfo.upload ui) + default 0 (UserInfo.download ui)))
  | None => 0
  end.

Definition aggregateRemainingQuota (rs : list Sub.t) : Z :=
  sum_Z (map quota_left (List.filter counts_for_quota rs)).

(** ** Notions used by the statements *)

(** A task never settles as a rejected promise, whatever the outcomes of
    the external calls it waits for and whatever happens in between. *)
Fixpoint never_throws (t : task) : Prop :=
  match t with
  | Done c _ => c = Normal
  | AwaitFetch _ _ k => forall o s', never_throws (k o s')
  | AwaitBatch _ _ k => forall o s', never_throws (k o s')
  | AwaitSettings _ k => forall o s', never_throws (k o s')
  end.

Definition fetch_failed (o : fetch_outcome) : Prop :=
  match o with FetchRejected _ => True | FetchResolved _ => False end.

(** The [nodeCount] of the last successful entry for id [i], if any. *)
Fixpoint last_success (rs : list batch_entry) (i : string) : option Z :=
  match rs with
  | [] => None
  | e :: rest =>
      match last_success rest i with
      | Some v => Some v
      | None =>
          if entry_success e && String.eqb (entry_id e) i
          then Some (entry_nodeCount e) else None
      end
  end.

(** What a list of results writes to the object at [l]: a new [nodeCount]
    when [l] is the record that lookup by its id finds and a successful
    entry carries that id; nothing otherwise. *)
Definition written_by (rs : list batch_entry) (s : store) (l : loc) : option Z :=
  match find_sub (id_of s l) s with
  | Some l' => if decide (l' = l) then last_success rs (id_of s l) else None
  | None => None
  end.

Definition overwrite (v : option Z) (r : Sub.t) : Sub.t :=
  match v with Some n => Sub.set_nodeCount n r | None => r end.

(** A continuation of [batchUpdateNodes] that, on overall success, applies
    the per-id results to the store it resumes in and finishes there. *)
Definition applies_results (k : batch_outcome -> store -> task) : Prop :=
  forall result s', batch_success result = true ->
    exists s'', k (BatchResolved result) s' = Done Normal s''
                /\ heap s'' = heap (applyBatchResults (results result) s')
                /\ subscriptions s'' = subscriptions s'.

Definition successful_id (rs : list batch_entry) (i : string) : Prop :=
  exists e, In e rs /\ entry_success e = true /\ entry_id e = i.

(** The seed has no usable identifier ([sub.id] is falsy). *)
Definition missing_id (raw : Raw.t) : bool :=
  match Raw.id raw with Some i => String.eqb i "" | None => true end.

(** The normalised record in the words of the specification: the seed with
    every missing optional property set to its documented default, and
    [fresh] for its identifier when it has none. An interval of 0 counts as
    missing, and [isUpdating] is [false] whatever the seed says. *)
Definition with_defaults (raw : Raw.t) (fresh : string) : Sub.t :=
  {| Sub.id := if missing_id raw then fresh else default "" (Raw.id raw);
     Sub.name := Raw.name raw;
     Sub.url := Raw.url raw;
     Sub.enabled := match Raw.enabled raw with Some b => b | None => true end;
     Sub.nodeCount := match Raw.nodeCount raw with Some n => n | None => 0 end;
     Sub.isUpdating := false;
     Sub.userInfo := Raw.userInfo raw;
     Sub.exclude := match Raw.exclude raw with Some e => e | None => "" end;
     Sub.updateInterval :=
       match Raw.updateInterval raw with
       | Some n => if n =? 0 then None else Some n
       | None => None
       end;
     Sub.updateTimers := None |}.

(** One record per seed, the [n]-th, [n+1]-th, ... UUIDs going in order to
    the seeds without an identifier. *)
Fixpoint defaults_from (n : nat) (raws : list Raw.t) : list Sub.t :=
  match raws with
  | [] => []
  | raw :: rest =>
      with_defaults raw (randomUUID n)
      :: defaults_from (if missing_id raw then S n else n) rest
  end.

(** The batch call raised, or returned [success: false]. *)
Definition batch_failed (o : batch_outcome) : Prop :=
  match o with
  | BatchRejected _ => True
  | BatchResolved r => batch_success r = false
  end.

(** The URL [handleUpdateNodeCount i] fetches in [s], if it fetches. *)
Definition refresh_target (s : store) (i : string) : option string :=
  match find_sub i s with
  | Some l => if is_http (url_of s l) then Some (url_of s l) else None
  | None => None
  end.

(** The fetches of refreshing each of [ids] in [s]. *)
Definition fetches (s : store) (ids : list string) : list string :=
  omap (refresh_target s) ids.

(** Running a task with nothing in between: each [fetchNodeCount] it
    suspends on settles with the next outcome of [os], in the store the task
    left. The result is the URLs fetched, in order, and the task that
    remains. *)
Fixpoint drive (t : task) (os : list fetch_outcome) : list string * task :=
  match t, os with
  | AwaitFetch s u k, o :: rest =>
      let '(us, t') := drive (k o s) rest in (u :: us, t')
  | _, _ => ([], t)
  end.

(** The steps of a refresh write neither the collection nor the identifier
    or URL of any object, and create no object. *)
Record keeps (s s' : store) : Prop := {
  keeps_subscriptions : subscriptions s' = subscriptions s;
  keeps_id : forall l, id_of s' l = id_of s l;
  keeps_url : forall l, url_of s' l = url_of s l;
  keeps_next_loc : next_loc s' = next_loc s
}.

(** A task that, once its batch call has failed, refreshes the submitted
    ids one at a time: resumed in a store where the objects have the
    identifiers they had, the fetches that follow are exactly those of
    [handleUpdateNodeCount] for each id, in order, each issued when the one
    before has settled, and then the task is done. *)
Definition degrades_on_failure (t : task) : Prop :=
  match t with
  | AwaitBatch s0 ids k =>
      forall o s' os,
        batch_failed o ->
        (forall l, id_of s' l = id_of s0 l) ->
        (length (fetches s' ids) <= length os)%nat ->
        exists s'', drive (k o s') os = (fetches s' ids, Done Normal s'')
  | _ => True
  end.

(** A task that, once its batch call has failed, only logs. *)
Definition logs_on_failure (t : task) : Prop :=
  match t with
  | AwaitBatch _ _ k =>
      forall o s', batch_failed o ->
        exists what, k o s' = Done Normal (console_error what s')
  | _ => True
  end.

(** The handles a record tracks, and those tracked by a list of records. *)
Definition tracked_of (s : store) (l : loc) : list handle :=
  default [] (read Sub.updateTimers None s l).

Definition tracked_in (s : store) (ls : list loc) : list handle :=
  flat_map (tracked_of s) ls.

(** Every live per-item timer has its handle on the list of a record of
    the collection. *)
Definition item_timers_tracked (s : store) : Prop :=
  forall h tm l, timers s !! h = Some tm -> fires tm = ItemTick l ->
    h ∈ tracked_in s (subscriptions s).

(** What [clearIndividualUpdateTimers] writes to a record. *)
Definition cleared (r : Sub.t) : Sub.t :=
  match Sub.updateTimers r with
  | Some (_ :: _) => Sub.set_updateTimers (Some []) r
  | _ => r
  end.

(** The timer [setupIndividualUpdateTimers] creates for the record at [l]. *)
Definition item_timer (l : loc) (r : Sub.t) : timer :=
  {| period := default 0 (Sub.updateInterval r) * 60 * 1000; fires := ItemTick l |}.

(** The record at [l] once the timer [h] has been pushed on its list. *)
Definition armed (h : handle) (r : Sub.t) : Sub.t :=
  Sub.set_updateTimers (Some (default [] (Sub.updateTimers r) ++ [h])) r.

(** The task is suspended on [fetchNodeCount] of [u], as a call of the
    single-item refresher for a record with that URL is. *)
Definition issues_fetch (t : task) (u : string) : Prop :=
  exists s k, t = AwaitFetch s u k.

Definition unique_ids (s : store) : Prop :=
  NoDup (ids s) /\ Forall (fun i => i <> "") (ids s).

(** Every record of the collection is an allocated object. *)
Definition allocated (s : store) : Prop :=
  Forall (fun l => (l < next_loc s)%nat) (subscriptions s).

(** A suspended call whose every later step keeps the collection and the
    identifiers, in whatever store it resumes. *)
Fixpoint stable (t : task) : Prop :=
  match t with
  | Done _ _ => True
  | AwaitFetch _ _ k => forall o s', keeps s' (task_store (k o s')) /\ stable (k o s')
  | AwaitBatch _ _ k => forall o s', keeps s' (task_store (k o s')) /\ stable (k o s')
  | AwaitSettings _ k => forall o s', keeps s' (task_store (k o s')) /\ stable (k o s')
  end.

Definition mild (s : store) (t : task) : Prop := keeps s (task_store t) /\ stable t.

Definition sys_inv (sys : system) : Prop :=
  (unique_ids (current sys) /\ allocated (current sys)) /\ Forall stable (pending sys).

(** The identifiers the seeds bring along. *)
Definition given_ids (raws : list Raw.t) : list string :=
  omap (fun raw => if missing_id raw then None else Raw.id raw) raws.

(** What the host has to respect for identifiers to stay unique: seeds
    bring distinct identifiers, none of them a UUID of the runtime; a record
    that is added brings a non-empty identifier not in the collection; the
    records of a bulk import bring such identifiers, all distinct. *)
Definition admissible (s : store) (a : action) : Prop :=
  match a with
  | Initialize subsData =>
      NoDup (given_ids (default [] subsData))
      /\ (forall i n, i ∈ given_ids (default [] subsData) -> i <> randomUUID n)
  | Add sub => Sub.id sub <> "" /\ Sub.id sub ∉ ids s
  | AddBulk subs =>
      NoDup (map Sub.id subs)
      /\ Forall (fun r => Sub.id r <> "" /\ Sub.id r ∉ ids s) subs
  | _ => True
  end.

Fixpoint admissible_run (acts : list action) (sys : system) : Prop :=
  match acts with
  | [] => True
  | a :: rest => admissible (current sys) a /\ admissible_run rest (step sys a)
  end.

(** ** Further notions *)

(** The page numbers [1 .. subsTotalPages]. *)
Definition page_numbers (s : store) : list Z :=
  map Z.of_nat (seq 1 (Z.to_nat (subsTotalPages s))).

(** What [paginatedSubscriptions] shows with the current page set to [p]. *)
Definition page_of (s : store) (p : Z) : list loc :=
  paginatedSubscriptions (set_subsCurrentPage p s).

(** The records of a bulk import that are refreshed:
    [subs.filter(sub => sub.url && sub.url.startsWith('http'))]. *)
Definition http_records (subs : list Sub.t) : list Sub.t :=
  List.filter (fun r => negb (String.eqb (Sub.url r) "") && is_http (Sub.url r)) subs.

(** A record with the three properties a refresh writes blanked out. *)
Definition blank_metrics (r : Sub.t) : Sub.t :=
  Sub.set_nodeCount 0 (Sub.set_userInfo None (Sub.set_isUpdating false r)).

(** Every live timer with the global callback is the one [updateTimer]
    holds. *)
Definition global_timers_tracked (s : store) : Prop :=
  forall h tm, timers s !! h = Some tm -> fires tm = GlobalTick ->
    updateTimer s = Some h.

(** ... and it ticks every [updateInterval] minutes, a positive number. *)
Definition global_timer_ok (s : store) : Prop :=
  forall h tm, timers s !! h = Some tm -> fires tm = GlobalTick ->
    updateTimer s = Some h /\ 0 < updateInterval s
    /\ period tm = updateInterval s * 60 * 1000.

(** The records the global tick submits. *)
Definition chosen_by_global_tick (s : store) : list loc :=
  List.filter (fun l => read Sub.enabled false s l && is_http (url_of s l))
              (subscriptions s).

(** A step that leaves the collection, the page and the global scheduler
    alone and creates no object and no global timer: the refreshes, the
    application of batch results and the re-arming of per-item timers are
    such steps. *)
Record benign (s s' : store) : Prop := {
  benign_subscriptions : subscriptions s' = subscriptions s;
  benign_next_loc : next_loc s' = next_loc s;
  benign_page : subsCurrentPage s' = subsCurrentPage s;
  benign_interval : updateInterval s' = updateInterval s;
  benign_updateTimer : updateTimer s' = updateTimer s;
  benign_globals : forall h tm, timers s' !! h = Some tm -> fires tm = GlobalTick ->
                                timers s !! h = Some tm
}.

(** A suspended call all of whose later steps are related by [R] to the
    store they resume in. *)
Fixpoint follows (R : store -> store -> Prop) (t : task) : Prop :=
  match t with
  | Done _ _ => True
  | AwaitFetch _ _ k => forall o s', R s' (task_store (k o s')) /\ follows R (k o s')
  | AwaitBatch _ _ k => forall o s', R s' (task_store (k o s')) /\ follows R (k o s')
  | AwaitSettings _ k => forall o s', R s' (task_store (k o s')) /\ follows R (k o s')
  end.

(** A suspended call all of whose later steps keep [P], in whatever store
    satisfying [P] they resume. *)
Fixpoint upholds (P : store -> Prop) (t : task) : Prop :=
  match t with
  | Done _ _ => True
  | AwaitFetch _ _ k => forall o s', P s' -> P (task_store (k o s')) /\ upholds P (k o s')
  | AwaitBatch _ _ k => forall o s', P s' -> P (task_store (k o s')) /\ upholds P (k o s')
  | AwaitSettings _ k => forall o s', P s' -> P (task_store (k o s')) /\ upholds P (k o s')
  end.

(** What holds of the store in every state the system reaches. *)
Definition good (s : store) : Prop :=
  NoDup (subscriptions s) /\ allocated s /\ 1 <= subsCurrentPage s /\ global_timer_ok s.

Definition sys_good (sys : system) : Prop :=
  good (current sys) /\ Forall (upholds good) (pending sys).

(** The store right after the synchronous part of the bulk import
    ([unshift] and [markDirty]). *)
Definition bulk_unshift (subs : list Sub.t) (s : store) : store :=
  let '(ls, s) := alloc_all subs s in
  markDirty (set_subscriptions (ls ++ subscriptions s) s).

(** ** Concrete states and inputs *)

Definition demo_sub (i u : string) : Sub.t :=
  Sub.mk i None u true 0 false None "" None None.

(** One enabled record ["id1"] with an [http] URL. *)
Definition one_record : store :=
  set_subscriptions [0%nat]
    (snd (alloc (demo_sub "id1" "http://one.example/sub") empty_store)).

(** The same record with [updateInterval = 5]. *)
Definition timed_record : store :=
  modify 0%nat (Sub.set_updateInterval (Some 5)) one_record.

(** Two records, ["id1"] in front of ["id2"]. *)
Definition two_records : store :=
  set_subscriptions [0%nat; 1%nat]
    (snd (alloc (demo_sub "id2" "http://two.example/sub")
       (snd (alloc (demo_sub "id1" "http://one.example/sub") empty_store)))).

(** A stored record and its edited copy, with another URL. *)
Definition old_store : store :=
  set_subscriptions [0%nat]
    (snd (alloc (Sub.set_nodeCount 5 (demo_sub "id1" "http://old.example/sub"))
                empty_store)).

Definition edited : Sub.t :=
  Sub.set_nodeCount 9 (demo_sub "id1" "http://new.example/sub").

(** A seed with its own identifier and a five-minute interval. *)
Definition timed_seed : Raw.t :=
  Raw.mk (Some "id1") None "http://one.example/sub" None None None None (Some 5).

(** A seed without identifier. *)
Definition bare_seed : Raw.t :=
  Raw.mk None None "http://bare.example/sub" None None None None None.

(** A runtime whose n-th UUID is ["u"] after n times ["x"]. *)
Fixpoint demo_uuid (n : nat) : string :=
  match n with
  | O => "u"
  | S m => String.append "x" (demo_uuid m)
  end.

(** The record ["id1"] is gone from the collection of [s] while timer 1,
    armed for the object at location 0, is live, stays live through
    [onUnmounted], and submits the record's id when it fires. *)
Definition timer_outlives_record (s : store) : Prop :=
  subscriptions s = []
  /\ timers s !! 1%nat = Some {| period := 300000; fires := ItemTick 0%nat |}
  /\ timers (onUnmounted s) !! 1%nat
     = Some {| period := 300000; fires := ItemTick 0%nat |}
  /\ exists k, run_callback (ItemTick 0%nat) s = AwaitBatch s ["id1"] k.

(** The claim of C1 about the callback: every live per-item timer, when it
    fires, fetches the URL of its record. *)
Definition ticks_refresh_single (s : store) : Prop :=
  forall h tm l, timers s !! h = Some tm -> fires tm = ItemTick l ->
    issues_fetch (run_callback (fires tm) s) (url_of s l).

(** * Properties *)

(** ** Derived views *)

Lemma ceil_div_bounds (a b : Z) :
  0 < b -> b * (ceil_div a b - 1) < a <= b * ceil_div a b.
Proof.
  intros Hb. unfold ceil_div.
  pose proof (Z.div_mod (- a) b ltac:(lia)) as Hdm.
  pose proof (Z.mod_pos_bound (- a) b Hb) as Hm.
  nia.
Qed.

Lemma js_slice_past_end {A} (l : list A) (start finish : Z) :
  Z.of_nat (length l) <= start -> js_slice l start finish = [].
Proof.
  intros Hstart. unfold js_slice.
  assert (Hneg : (start <? 0) = false) by (apply Z.ltb_ge; lia).
  rewrite Hneg, (Z.min_r start) by lia.
  rewrite Nat2Z.id, drop_all. by rewrite take_nil.
Qed.

Lemma aggregate_cons (r : Sub.t) (rs : list Sub.t) :
  aggregateRemainingQuota (r :: rs)
  = (if counts_for_quota r then quota_left r else 0) + aggregateRemainingQuota rs.
Proof.
  unfold aggregateRemainingQuota. simpl.
  destruct (counts_for_quota r); simpl; lia.
Qed.

Lemma remaining_step_record (s : store) (acc : Z) (l : loc) (r : Sub.t) :
  heap s !! l = Some r ->
  remaining_step s acc l = acc + (if counts_for_quota r then quota_left r else 0).
Proof.
  intros Hl. unfold remaining_step, counts_for_quota, quota_left. rewrite Hl.
  destruct (Sub.userInfo r) as [ui|].
  - destruct (Sub.enabled r); simpl; [|lia].
    destruct (UserInfo.total ui) as [t|]; simpl; [|lia].
    destruct (0 <? t); lia.
  - rewrite andb_false_r. lia.
Qed.

Lemma remaining_fold (s : store) (ls : list loc) (acc : Z) :
  fold_left (remaining_step s) ls acc
  = acc + aggregateRemainingQuota (omap (fun l => heap s !! l) ls).
Proof.
  revert acc. induction ls as [|l ls IH]; intros acc; simpl.
  - unfold aggregateRemainingQuota. simpl. lia.
  - rewrite IH. destruct (heap s !! l) as [r|] eqn:Hl.
    + rewrite (remaining_step_record _ _ _ _ Hl), aggregate_cons.
      symmetry. apply Z.add_assoc.
    + unfold remaining_step. rewrite Hl. done.
Qed.

Lemma quota_left_nonneg (r : Sub.t) : 0 <= quota_left r.
Proof. unfold quota_left. destruct (Sub.userInfo r); lia. Qed.

(** C7. The derived views are functions of the store alone.
    [subsTotalPages] is the ceiling of count / 6 (the integer [n] with
    [6 (n - 1) < count <= 6 n]); the page slice is empty on every page
    beyond the last; [totalRemainingTraffic] is the sum, over exactly the
    enabled records whose [userInfo] is present with [total > 0], of
    [max(0, total - (upload + download))]: a record that is disabled or
    whose total is missing or not positive is left out of the sum, and no
    summand is negative. *)
Theorem derived_views (s : store) :
  (6 * (subsTotalPages s - 1) < Z.of_nat (length (subscriptions s))
     <= 6 * subsTotalPages s)
  /\ (subsTotalPages s < subsCurrentPage s -> paginatedSubscriptions s = [])
  /\ totalRemainingTraffic s = aggregateRemainingQuota (records s)
  /\ (forall r, counts_for_quota r = true <->
        Sub.enabled r = true /\
        exists ui t, Sub.userInfo r = Some ui /\ UserInfo.total ui = Some t /\ 0 < t)
  /\ (forall r, 0 <= quota_left r).
Proof.
  assert (Hc : 6 * (subsTotalPages s - 1) < Z.of_nat (length (subscriptions s))
                 <= 6 * subsTotalPages s)
    by (apply (ceil_div_bounds _ 6); lia).
  split; [exact Hc|]. split; [|split; [|split]].
  - intros Hp. unfold paginatedSubscriptions, subsItemsPerPage.
    apply js_slice_past_end. lia.
  - unfold totalRemainingTraffic, records. by rewrite remaining_fold.
  - intros r. unfold counts_for_quota. split.
    + intros H. apply andb_true_iff in H as [He H]. split; [done|].
      destruct (Sub.userInfo r) as [ui|]; [|done].
      destruct (UserInfo.total ui) as [t|] eqn:Ht; [|done].
      exists ui, t. repeat split; [done|]. by apply Z.ltb_lt.
    + intros [He (ui & t & Hui & Ht & Hpos)]. rewrite He, Hui, Ht. simpl.
      by apply Z.ltb_lt.
  - apply quota_left_nonneg.
Qed.

(** ** Writes through a reference *)

Lemma heap_modify (l : loc) (f : Sub.t -> Sub.t) (s : store) :
  heap (modify l f s) = alter f l (heap s).
Proof. reflexivity. Qed.

Lemma read_modify_same {A} (g : Sub.t -> A) (d : A) (l l' : loc)
    (f : Sub.t -> Sub.t) (s : store) :
  (forall r, g (f r) = g r) -> read g d (modify l f s) l' = read g d s l'.
Proof.
  intros Hg. unfold read. rewrite heap_modify.
  destruct (decide (l = l')) as [->|Hne].
  - rewrite lookup_alter_eq. destruct (heap s !! l'); simpl; [apply Hg|done].
  - by rewrite lookup_alter_ne.
Qed.

Lemma find_sub_ext (subId : string) (s s' : store) :
  subscriptions s' = subscriptions s ->
  (forall l, id_of s' l = id_of s l) ->
  find_sub subId s' = find_sub subId s.
Proof.
  intros Hsubs Hid. unfold find_sub. rewrite Hsubs. clear Hsubs.
  induction (subscriptions s) as [|l ls IH]; simpl; [done|].
  by rewrite Hid, IH.
Qed.

Lemma find_sub_In (subId : string) (s : store) (l : loc) :
  find_sub subId s = Some l -> In l (subscriptions s) /\ id_of s l = subId.
Proof.
  intros H. apply find_some in H as [Hin Heq]. split; [done|].
  by apply String.eqb_eq.
Qed.

Lemma is_http_allocated (s : store) (l : loc) :
  is_http (url_of s l) = true -> is_Some (heap s !! l).
Proof.
  unfold url_of, read. destruct (heap s !! l); [eauto|]. discriminate.
Qed.

(** ** The single-item refresher *)

(** C4. [handleUpdateNodeCount subId isInitialLoad] never settles as a
    rejection; it changes nothing and calls nothing when no record has the
    id or the record's URL does not start with [http]; otherwise it
    suspends on [fetchNodeCount] of the record's URL, having set
    [isUpdating = true] first unless [isInitialLoad]; and however the fetch
    settles, in whatever store, the call then finishes normally with the
    record's [isUpdating = false], and after a failed fetch the log has
    grown by no [MarkDirty]. *)
Theorem refresh_is_scoped (subId : string) (isInitialLoad : bool) (s : store) :
  never_throws (handleUpdateNodeCount subId isInitialLoad s)
  /\ (find_sub subId s = None ->
        handleUpdateNodeCount subId isInitialLoad s = Done Normal s)
  /\ (forall l, find_sub subId s = Some l -> is_http (url_of s l) = false ->
        handleUpdateNodeCount subId isInitialLoad s = Done Normal s)
  /\ (forall l, find_sub subId s = Some l -> is_http (url_of s l) = true ->
        exists k,
          handleUpdateNodeCount subId isInitialLoad s
          = AwaitFetch (if isInitialLoad then s
                        else modify l (Sub.set_isUpdating true) s)
                       (url_of s l) k
          /\ (isInitialLoad = false ->
                read Sub.isUpdating false
                     (task_store (handleUpdateNodeCount subId isInitialLoad s)) l = true)
          /\ forall o s', exists s'',
               k o s' = Done Normal s''
               /\ (forall r, heap s' !! l = Some r ->
                     exists r', heap s'' !! l = Some r' /\ Sub.isUpdating r' = false)
               /\ (fetch_failed o ->
                     exists extra, log s'' = log s' ++ extra /\ ~ In MarkDirty extra)).
Proof.
  unfold handleUpdateNodeCount.
  destruct (find_sub subId s) as [l|] eqn:Hfind; [|by repeat split].
  destruct (is_http (url_of s l)) eqn:Hhttp; simpl.
  - split; [|split; [done|split]].
    + intros [d|e] s'; destruct isInitialLoad; reflexivity.
    + intros l' [= <-]. congruence.
    + intros l' [= <-] _.
      assert (Hurl : url_of (if negb isInitialLoad
                             then modify l (Sub.set_isUpdating true) s else s) l
                     = url_of s l).
      { destruct isInitialLoad; simpl; [done|]. by apply read_modify_same. }
      rewrite Hurl. eexists. split; [by destruct isInitialLoad|]. split.
      { intros ->. simpl. destruct (is_http_allocated _ _ Hhttp) as [r Hr].
        unfold read. rewrite heap_modify, lookup_alter_eq, Hr. done. }
      intros o s'. destruct o as [d|e]; destruct isInitialLoad; simpl;
        (eexists; split; [reflexivity|]); (split; [|try contradiction]).
      all: try (intros r Hr; rewrite ?heap_modify, ?lookup_alter_eq; simpl;
                rewrite ?heap_modify, ?lookup_alter_eq; simpl;
                rewrite ?heap_modify, ?lookup_alter_eq, Hr; simpl; eauto).
      * intros _. eexists. split; [reflexivity|]. simpl. intros [H|[]]. discriminate.
      * intros _. eexists. split; [simpl; by rewrite <- app_assoc|].
        simpl. intros [H|[H|[]]]; discriminate.
  - split; [done|]. split; [done|]. split; [done|].
    intros l' [= <-]. congruence.
Qed.

(** ** Applying batch results *)

Lemma applyBatchResult_frame (s : store) (e : batch_entry) :
  subscriptions (applyBatchResult s e) = subscriptions s
  /\ (forall l, id_of (applyBatchResult s e) l = id_of s l)
  /\ timers (applyBatchResult s e) = timers s
  /\ log (applyBatchResult s e) = log s.
Proof.
  unfold applyBatchResult. destruct (entry_success e); [|done].
  destruct (find_sub (entry_id e) s); [|done].
  repeat split. intros l'. by apply read_modify_same.
Qed.

Lemma applyBatchResults_frame (rs : list batch_entry) (s : store) :
  subscriptions (applyBatchResults rs s) = subscriptions s
  /\ (forall l, id_of (applyBatchResults rs s) l = id_of s l)
  /\ timers (applyBatchResults rs s) = timers s
  /\ log (applyBatchResults rs s) = log s.
Proof.
  unfold applyBatchResults. revert s.
  induction rs as [|e rs IH]; intros s; simpl; [done|].
  destruct (IH (applyBatchResult s e)) as (H1 & H2 & H3 & H4).
  destruct (applyBatchResult_frame s e) as (F1 & F2 & F3 & F4).
  split; [congruence|]. split; [|split; congruence].
  intros l. by rewrite H2, F2.
Qed.

Lemma written_by_ext (rs : list batch_entry) (s s' : store) (l : loc) :
  subscriptions s' = subscriptions s ->
  (forall l, id_of s' l = id_of s l) ->
  written_by rs s' l = written_by rs s l.
Proof.
  intros Hs Hid. unfold written_by. by rewrite Hid, (find_sub_ext _ s s').
Qed.

Lemma applyBatchResults_heap (rs : list batch_entry) (s : store) (l : loc) :
  heap (applyBatchResults rs s) !! l = overwrite (written_by rs s l) <$> heap s !! l.
Proof.
  unfold applyBatchResults. revert s.
  induction rs as [|e rs IH]; intros s; simpl.
  - unfold written_by. simpl.
    destruct (find_sub (id_of s l) s) as [l'|]; [destruct (decide (l' = l))|];
      by destruct (heap s !! l).
  - rewrite IH. destruct (applyBatchResult_frame s e) as (F1 & F2 & _).
    rewrite (written_by_ext rs s _ l F1 F2).
    unfold applyBatchResult, written_by. simpl.
    destruct (entry_success e) eqn:Hok; simpl.
    + destruct (find_sub (entry_id e) s) as [l0|] eqn:Hfind.
      * apply find_sub_In in Hfind as Hl0. destruct Hl0 as [_ Hid0].
        rewrite heap_modify. destruct (decide (l0 = l)) as [->|Hne].
        -- rewrite lookup_alter_eq, Hid0, Hfind, String.eqb_refl.
           destruct (decide (l = l)); [|done].
           destruct (heap s !! l) as [r|]; simpl; [|done].
           by destruct (last_success rs (entry_id e)).
        -- rewrite lookup_alter_ne by done.
           destruct (find_sub (id_of s l) s) as [l'|] eqn:Hfl; [|done].
           destruct (decide (l' = l)) as [->|]; [|done].
           destruct (String.eqb_spec (entry_id e) (id_of s l)) as [Heq|];
             [|by destruct (last_success rs (id_of s l))].
           rewrite Heq, Hfl in Hfind. congruence.
      * destruct (find_sub (id_of s l) s) as [l'|] eqn:Hfl; [|done].
        destruct (decide (l' = l)) as [->|]; [|done].
        destruct (String.eqb_spec (entry_id e) (id_of s l)) as [Heq|];
             [|by destruct (last_success rs (id_of s l))].
        rewrite Heq, Hfl in Hfind. congruence.
    + destruct (find_sub (id_of s l) s) as [l'|]; [|done].
      destruct (decide (l' = l)); [|done].
      by destruct (last_success rs (id_of s l)).
Qed.

Lemma globalTick_applies (s s0 : store) (ids0 : list string)
    (k : batch_outcome -> store -> task) :
  globalTick s = AwaitBatch s0 ids0 k -> applies_results k.
Proof.
  unfold globalTick. destruct (0 <? length _)%nat; [|discriminate].
  simpl. intros [= <- <- <-] result s' Hok. simpl. rewrite Hok.
  eexists. split; [reflexivity|]. split; [reflexivity|].
  apply applyBatchResults_frame.
Qed.

Lemma itemTick_applies (sub : loc) (s s0 : store) (ids0 : list string)
    (k : batch_outcome -> store -> task) :
  itemTick sub s = AwaitBatch s0 ids0 k -> applies_results k.
Proof.
  unfold itemTick. simpl. intros [= <- <- <-] result s' Hok. simpl. rewrite Hok.
  eexists. split; [reflexivity|]. split; [reflexivity|].
  apply applyBatchResults_frame.
Qed.

Lemma bulk_applies (subs : list Sub.t) (s s0 : store) (ids0 : list string)
    (k : batch_outcome -> store -> task) :
  addSubscriptionsFromBulk subs s = AwaitBatch s0 ids0 k -> applies_results k.
Proof.
  unfold addSubscriptionsFromBulk. destruct (alloc_all subs s) as [ls s1].
  destruct (0 <? length _)%nat; [|discriminate].
  simpl. intros [= <- <- <-] result s' Hok. simpl. rewrite Hok.
  eexists. split; [reflexivity|]. split; [reflexivity|].
  apply applyBatchResults_frame.
Qed.

Lemma last_success_Some (rs : list batch_entry) (i : string) :
  successful_id rs i -> is_Some (last_success rs i).
Proof.
  intros (e & Hin & Hok & Hid). induction rs as [|e' rs IH]; [destruct Hin|].
  simpl. destruct Hin as [->|Hin].
  - destruct (last_success rs i); [eauto|].
    rewrite Hok, Hid, String.eqb_refl. eauto.
  - destruct (IH Hin) as [v ->]. eauto.
Qed.

Lemma last_success_None (rs : list batch_entry) (i : string) :
  (forall e, In e rs -> entry_success e = true -> entry_id e <> i) ->
  last_success rs i = None.
Proof.
  induction rs as [|e rs IH]; intros H; simpl; [done|].
  rewrite IH by (intros e' Hin; apply H; by right).
  destruct (entry_success e) eqn:Hok; [|done].
  destruct (String.eqb_spec (entry_id e) i) as [Heq|]; [|done].
  exfalso. by apply (H e (or_introl eq_refl) Hok).
Qed.

(** ** Results for ids that are no longer in the collection *)

Lemma applyBatchResult_missing (s : store) (e : batch_entry) :
  find_sub (entry_id e) s = None -> applyBatchResult s e = s.
Proof.
  intros H. unfold applyBatchResult. rewrite H. by destruct (entry_success e).
Qed.

Lemma find_sub_applyBatchResults (subId : string) (rs : list batch_entry) (s : store) :
  find_sub subId (applyBatchResults rs s) = find_sub subId s.
Proof.
  destruct (applyBatchResults_frame rs s) as (H1 & H2 & _).
  by apply find_sub_ext.
Qed.

Lemma find_filtered_out (s : store) (subId : string) (ls : list loc) :
  List.find (fun l => String.eqb (id_of s l) subId)
            (List.filter (fun l => negb (String.eqb (id_of s l) subId)) ls) = None.
Proof.
  induction ls as [|l ls IH]; simpl; [done|].
  destruct (String.eqb (id_of s l) subId) eqn:E; simpl; [done|].
  by rewrite E.
Qed.

(** C10. Batch results are applied, in every caller, to the store that is
    current when the call settles. An entry whose id matches no record of
    the collection at that time is skipped: applying it leaves the store as
    it is, dropping it from the results changes nothing, and no list of
    results changes which records are in the collection. After
    [deleteSubscription subId] no record has id [subId], so results that
    arrive for it later write nothing. *)
Theorem late_results_are_skipped :
  (forall s s0 ids0 k, globalTick s = AwaitBatch s0 ids0 k -> applies_results k)
  /\ (forall subs s s0 ids0 k,
        addSubscriptionsFromBulk subs s = AwaitBatch s0 ids0 k -> applies_results k)
  /\ (forall e s, find_sub (entry_id e) s = None -> applyBatchResult s e = s)
  /\ (forall rs1 e rs2 s,
        find_sub (entry_id e) s = None ->
        applyBatchResults (rs1 ++ e :: rs2) s = applyBatchResults (rs1 ++ rs2) s)
  /\ (forall rs s,
        (forall e, In e rs -> find_sub (entry_id e) s = None) ->
        applyBatchResults rs s = s)
  /\ (forall rs s, subscriptions (applyBatchResults rs s) = subscriptions s)
  /\ (forall subId s, find_sub subId (deleteSubscription subId s) = None).
Proof.
  split; [exact globalTick_applies|]. split; [exact bulk_applies|].
  split; [intros e s; apply applyBatchResult_missing|].
  split; [|split; [|split]].
  - intros rs1 e rs2 s Hnone. unfold applyBatchResults.
    rewrite !fold_left_app. simpl. f_equal.
    apply applyBatchResult_missing.
    fold (applyBatchResults rs1 s). by rewrite find_sub_applyBatchResults.
  - intros rs. induction rs as [|e rs IH]; intros s Hnone; [done|].
    unfold applyBatchResults. simpl.
    rewrite applyBatchResult_missing by (apply Hnone; by left).
    apply IH. intros e' Hin. apply Hnone. by right.
  - intros rs s. apply applyBatchResults_frame.
  - intros subId s. unfold deleteSubscription.
    set (s1 := set_subscriptions _ s).
    assert (H1 : find_sub subId s1 = None) by apply (find_filtered_out s).
    destruct (_ && _); exact H1.
Qed.

(** ** Initialisation *)

Lemma normalize_spec (raw : Raw.t) (s : store) :
  fst (normalize raw s) = with_defaults raw (randomUUID (uuids_drawn s))
  /\ heap (snd (normalize raw s)) = heap s
  /\ next_loc (snd (normalize raw s)) = next_loc s
  /\ uuids_drawn (snd (normalize raw s))
     = (if missing_id raw then S (uuids_drawn s) else uuids_drawn s)
  /\ subscriptions (snd (normalize raw s)) = subscriptions s
  /\ timers (snd (normalize raw s)) = timers s
  /\ log (snd (normalize raw s)) = log s.
Proof.
  unfold normalize, with_defaults, missing_id.
  destruct raw as [i nm u en nc ui ex iv]; simpl.
  destruct i as [i|]; [destruct (String.eqb i "") eqn:E|]; simpl;
    repeat split; destruct en, nc, ex; reflexivity.
Qed.

Lemma normalize_all_cons (raw : Raw.t) (rest : list Raw.t) (s : store) :
  normalize_all (raw :: rest) s
  = let n := normalize raw s in
    let a := alloc (fst n) (snd n) in
    let m := normalize_all rest (snd a) in
    (fst a :: fst m, snd m).
Proof.
  simpl. destruct (normalize raw s) as [r s1]. simpl.
  by destruct (normalize_all rest _).
Qed.

Lemma normalize_all_spec (raws : list Raw.t) (s : store) :
  let ls := fst (normalize_all raws s) in
  let s' := snd (normalize_all raws s) in
  (forall l, (l < next_loc s)%nat -> heap s' !! l = heap s !! l)
  /\ (next_loc s <= next_loc s')%nat
  /\ Forall (fun l => (next_loc s <= l)%nat) ls
  /\ omap (fun l => heap s' !! l) ls = defaults_from (uuids_drawn s) raws
  /\ length ls = length raws
  /\ timers s' = timers s
  /\ log s' = log s.
Proof.
  revert s. induction raws as [|raw rest IH]; intros s.
  - simpl. repeat split; auto.
  - rewrite normalize_all_cons. cbv zeta.
    destruct (normalize_spec raw s) as (N1 & N2 & N3 & N4 & _ & N6 & N7).
    destruct (normalize raw s) as [r s1]. cbn [fst snd] in *.
    destruct (IH (snd (alloc r s1))) as (I1 & I2 & I3 & I4 & I5 & I6 & I7).
    destruct (normalize_all rest (snd (alloc r s1))) as [ls s3].
    unfold alloc in *. cbn [fst snd heap next_loc uuids_drawn timers log] in *.
    rewrite N3 in *. rewrite N4 in I4.
    split; [|split; [|split; [|split; [|split; [|split]]]]].
    + intros l Hl. rewrite I1 by lia. rewrite lookup_insert_ne by lia. by rewrite N2.
    + lia.
    + constructor; [lia|]. eapply Forall_impl; [exact I3|]. simpl. intros; lia.
    + cbn [omap list_omap]. rewrite I1 by lia. rewrite lookup_insert_eq.
      cbn [defaults_from]. rewrite <- I4, N1. done.
    + simpl. by rewrite I5.
    + congruence.
    + congruence.
Qed.

(** C5. [initializeSubscriptions subsData] makes the collection one new
    object per seed, in order, each the seed with its missing optional
    properties defaulted ([enabled = true], [nodeCount = 0],
    [isUpdating = false], [userInfo = null], [exclude = ''],
    [updateInterval = null]) and, when the seed has no identifier, the next
    UUID the runtime hands out; every object is newly allocated. It
    starts no call: taken as a step of the system it leaves the suspended
    calls as they were, and it touches neither the timers nor the log. *)
Theorem initialize_normalizes (subsData : option (list Raw.t)) (s : store) :
  let s' := initializeSubscriptions subsData s in
  records s' = defaults_from (uuids_drawn s) (default [] subsData)
  /\ length (subscriptions s') = length (default [] subsData)
  /\ Forall (fun l => (next_loc s <= l)%nat) (subscriptions s')
  /\ (forall raw fresh,
        let r := with_defaults raw fresh in
        (Raw.enabled raw = None -> Sub.enabled r = true)
        /\ (Raw.nodeCount raw = None -> Sub.nodeCount r = 0)
        /\ Sub.isUpdating r = false
        /\ (Raw.userInfo raw = None -> Sub.userInfo r = None)
        /\ (Raw.exclude raw = None -> Sub.exclude r = "")
        /\ (Raw.updateInterval raw = None -> Sub.updateInterval r = None)
        /\ (Raw.id raw = None -> Sub.id r = fresh)
        /\ (forall i, Raw.id raw = Some i -> i <> "" -> Sub.id r = i))
  /\ timers s' = timers s
  /\ log s' = log s
  /\ (forall sys, pending (step sys (Initialize subsData)) = pending sys).
Proof.
  unfold initializeSubscriptions.
  destruct (normalize_all_spec (default [] subsData) s)
    as (H1 & H2 & H3 & H4 & H5 & H6 & H7).
  destruct (normalize_all (default [] subsData) s) as [ls s1]. simpl in *.
  split; [exact H4|]. split; [exact H5|].
  split; [exact H3|].
  split; [|by repeat split].
  intros raw fresh. unfold with_defaults, missing_id. simpl.
  repeat split; try (intros ->; reflexivity).
  intros i -> Hi. simpl. by destruct (String.eqb_spec i "").
Qed.

(** ** Degradation after a failed batch call *)

Lemma keeps_refl (s : store) : keeps s s.
Proof. by constructor. Qed.

Lemma keeps_trans (s1 s2 s3 : store) : keeps s1 s2 -> keeps s2 s3 -> keeps s1 s3.
Proof.
  intros [A1 A2 A3 A4] [B1 B2 B3 B4]. constructor; [congruence| | |congruence].
  - intros l. by rewrite B2.
  - intros l. by rewrite B3.
Qed.

Lemma keeps_emit (e : event) (s : store) : keeps s (emit e s).
Proof. by constructor. Qed.

Lemma keeps_modify (l : loc) (f : Sub.t -> Sub.t) (s : store) :
  (forall r, Sub.id (f r) = Sub.id r) -> (forall r, Sub.url (f r) = Sub.url r) ->
  keeps s (modify l f s).
Proof.
  intros Hid Hurl. constructor; [done| | |done]; intros l'; by apply read_modify_same.
Qed.

Lemma refresh_target_keeps (s s' : store) (i : string) :
  keeps s s' -> refresh_target s' i = refresh_target s i.
Proof.
  intros [K1 K2 K3 _]. unfold refresh_target.
  rewrite (find_sub_ext i s s' K1 K2).
  destruct (find_sub i s); [|done]. by rewrite K3.
Qed.

Create HintDb keeps.
#[local] Hint Resolve keeps_refl keeps_emit keeps_modify : keeps.

Lemma fetches_cons (s : store) (i : string) (ids : list string) :
  fetches s (i :: ids)
  = match refresh_target s i with
    | Some u => u :: fetches s ids
    | None => fetches s ids
    end.
Proof. reflexivity. Qed.

Lemma fetches_keeps (s s' : store) (ls : list loc) :
  keeps s s' -> fetches s' (map (id_of s') ls) = fetches s (map (id_of s) ls).
Proof.
  intros K. induction ls as [|l ls IH]; [done|]. cbn [map].
  rewrite !fetches_cons, IH, (keeps_id _ _ K), (refresh_target_keeps _ _ _ K).
  done.
Qed.

(** What a call of [handleUpdateNodeCount] looks like from outside. *)
Lemma refresh_shape (subId : string) (isInitialLoad : bool) (s : store) :
  match refresh_target s subId with
  | None => handleUpdateNodeCount subId isInitialLoad s = Done Normal s
  | Some u =>
      exists s1 k,
        handleUpdateNodeCount subId isInitialLoad s = AwaitFetch s1 u k
        /\ keeps s s1
        /\ forall o s', exists s'', k o s' = Done Normal s'' /\ keeps s' s''
  end.
Proof.
  unfold refresh_target, handleUpdateNodeCount.
  destruct (find_sub subId s) as [l|]; [|done].
  destruct (is_http (url_of s l)) eqn:Hhttp; simpl; [|done].
  assert (Hurl : url_of (if negb isInitialLoad
                         then modify l (Sub.set_isUpdating true) s else s) l
                 = url_of s l).
  { destruct isInitialLoad; simpl; [done|]. by apply read_modify_same. }
  rewrite Hurl. eexists _, _. split; [reflexivity|]. split.
  { destruct isInitialLoad; simpl; auto with keeps. }
  intros o s'. destruct o as [d|e]; destruct isInitialLoad; simpl;
    (eexists; split; [reflexivity|]).
  all: repeat (first [ apply keeps_refl
                     | eapply keeps_trans; [|apply keeps_modify; done]
                     | eapply keeps_trans; [|apply keeps_emit] ]).
Qed.

Lemma never_throws_bind (t : task) (f : store -> task) :
  never_throws t -> (forall s, never_throws (f s)) -> never_throws (bind t f).
Proof.
  intros Ht Hf. induction t as [c s|s u k IH|s ids0 k IH|s k IH]; simpl in *.
  - subst c. apply Hf.
  - intros o s'. apply IH, Ht.
  - intros o s'. apply IH, Ht.
  - intros o s'. apply IH, Ht.
Qed.

Lemma never_throws_refresh (subId : string) (isInitialLoad : bool) (s : store) :
  never_throws (handleUpdateNodeCount subId isInitialLoad s).
Proof.
  pose proof (refresh_shape subId isInitialLoad s) as H.
  destruct (refresh_target s subId).
  - destruct H as (s1 & k & -> & _ & Hk). simpl. intros o s'.
    destruct (Hk o s') as (s'' & -> & _). done.
  - by rewrite H.
Qed.

Lemma never_throws_refresh_each (ls : list loc) (s : store) :
  never_throws (refresh_each ls s).
Proof.
  revert s. induction ls as [|l ls IH]; intros s; simpl; [done|].
  apply never_throws_bind; [apply never_throws_refresh|apply IH].
Qed.

Lemma drive_try_catch (t : task) (h : string -> store -> task) (os : list fetch_outcome) :
  never_throws t ->
  drive (try_catch t h) os = (fst (drive t os), try_catch (snd (drive t os)) h).
Proof.
  revert os. induction t as [c s|s u k IH|s ids0 k IH|s k IH]; intros os Ht; simpl in *.
  - subst c. by destruct os.
  - destruct os as [|o rest]; [done|].
    rewrite (IH o s rest (Ht o s)). by destruct (drive (k o s) rest).
  - by destruct os.
  - by destruct os.
Qed.

Lemma drive_refresh_each (ls : list loc) (s : store) (os : list fetch_outcome) :
  (length (fetches s (map (id_of s) ls)) <= length os)%nat ->
  exists s'', drive (refresh_each ls s) os
              = (fetches s (map (id_of s) ls), Done Normal s'')
              /\ keeps s s''.
Proof.
  revert s os. induction ls as [|l ls IH]; intros s os Hlen.
  - exists s. split; [by destruct os|apply keeps_refl].
  - cbn [refresh_each map] in *. rewrite fetches_cons in *.
    pose proof (refresh_shape (id_of s l) false s) as Hshape.
    destruct (refresh_target s (id_of s l)) as [u|] eqn:Ht.
    + destruct Hshape as (s1 & k & -> & K1 & Hk).
      destruct os as [|o rest]; [simpl in Hlen; lia|].
      cbn [bind drive]. destruct (Hk o s1) as (s2 & -> & K2). cbn [bind].
      assert (K : keeps s s2) by (eapply keeps_trans; eauto).
      rewrite <- (fetches_keeps s s2 ls K) in *.
      destruct (IH s2 rest) as (s3 & -> & K3); [simpl in Hlen; lia|].
      exists s3. split; [done|]. eapply keeps_trans; eauto.
    + rewrite Hshape. cbn [bind]. by apply IH.
Qed.

Lemma globalTick_logs (s : store) : logs_on_failure (globalTick s).
Proof.
  unfold globalTick. destruct (0 <? length _)%nat; [|done].
  cbn [await_batch try_catch logs_on_failure].
  intros [r|e] s' Hfail; cbn [batch_failed] in Hfail.
  - rewrite Hfail. by eexists.
  - by eexists.
Qed.

Lemma itemTick_logs (sub : loc) (s : store) : logs_on_failure (itemTick sub s).
Proof.
  unfold itemTick. cbn [await_batch try_catch logs_on_failure].
  intros [r|e] s' Hfail; cbn [batch_failed] in Hfail.
  - rewrite Hfail. by eexists.
  - by eexists.
Qed.

(** C2, as the code has it. Only the bulk import degrades: when its batch
    call raises or returns [success: false], [addSubscriptionsFromBulk]
    goes on to refresh the submitted ids one at a time, in order, each
    [handleUpdateNodeCount] awaited before the next starts, and then is
    done. The global tick and the per-item tick do not: after a failed
    batch call they write one line to the console and finish. *)
Theorem degradation_only_in_bulk :
  (forall subs s, degrades_on_failure (addSubscriptionsFromBulk subs s))
  /\ (forall s, logs_on_failure (globalTick s))
  /\ (forall sub s, logs_on_failure (itemTick sub s)).
Proof.
  split; [|split].
  - intros subs s. unfold addSubscriptionsFromBulk.
    destruct (alloc_all subs s) as [ls s1].
    set (subsToUpdate := List.filter _ ls).
    destruct (0 <? length subsToUpdate)%nat; [|done].
    cbn [await_batch try_catch degrades_on_failure].
    intros o s' os Hfail Hid Hlen.
    assert (Hids : map (id_of (showToast (MsgBulkUpdating (length subsToUpdate))
                                         success (markDirty (set_subscriptions
                                           (ls ++ subscriptions s1) s1))))
                       subsToUpdate
                   = map (id_of s') subsToUpdate).
    { apply map_ext. intros l. symmetry. apply Hid. }
    rewrite Hids in *. clear Hids.
    destruct o as [r|e]; cbn [batch_failed] in Hfail.
    + rewrite Hfail.
      set (s2 := showToast MsgDegrading info (showToast _ error s')).
      assert (K : keeps s' s2) by (eapply keeps_trans; apply keeps_emit).
      rewrite drive_try_catch by apply never_throws_refresh_each.
      rewrite <- (fetches_keeps s' s2 subsToUpdate K) in *.
      destruct (drive_refresh_each subsToUpdate s2 os Hlen) as (s3 & -> & _).
      by exists s3.
    + cbn [try_catch].
      set (s2 := showToast MsgBulkFailedDegrading error (console_error _ s')).
      assert (K : keeps s' s2) by (eapply keeps_trans; apply keeps_emit).
      rewrite <- (fetches_keeps s' s2 subsToUpdate K) in *.
      destruct (drive_refresh_each subsToUpdate s2 os Hlen) as (s3 & -> & _).
      by exists s3.
  - apply globalTick_logs.
  - apply itemTick_logs.
Qed.

(** ** The per-item scheduler *)

Lemma not_in_nil_decide {A B} `{EqDecision A} (x : A) (a b : B) :
  (if decide (x ∈ @nil A) then a else b) = b.
Proof. destruct (decide (x ∈ [])) as [H|]; [|done]. by apply elem_of_nil in H. Qed.

Lemma clear_handles_spec (hs : list handle) (s : store) :
  let s' := fold_left (fun s timerId => clearInterval timerId s) hs s in
  heap s' = heap s /\ subscriptions s' = subscriptions s
  /\ next_handle s' = next_handle s
  /\ forall h, timers s' !! h = if decide (h ∈ hs) then None else timers s !! h.
Proof.
  revert s. induction hs as [|h0 hs IH]; intros s; simpl.
  - split_and!; try done; intros h; by rewrite not_in_nil_decide.
  - destruct (IH (clearInterval h0 s)) as (H1 & H2 & H3 & H4).
    split_and!; [done..|]. intros h. rewrite H4. simpl.
    destruct (decide (h ∈ hs)) as [Hin|Hnin].
    + rewrite decide_True; [done|]. by right.
    + destruct (decide (h = h0)) as [->|Hne].
      * rewrite lookup_delete_eq, decide_True; [done|]. by left.
      * rewrite lookup_delete_ne by done. rewrite decide_False; [done|].
        intros Hc. apply elem_of_cons in Hc as [?|?]; done.
Qed.

Lemma clearTimersOf_spec (s : store) (l : loc) :
  let s' := clearTimersOf s l in
  subscriptions s' = subscriptions s
  /\ next_handle s' = next_handle s
  /\ (forall l', heap s' !! l'
                 = if decide (l' = l) then cleared <$> heap s !! l' else heap s !! l')
  /\ (forall h, timers s' !! h
                = if decide (h ∈ tracked_of s l) then None else timers s !! h).
Proof.
  assert (Hsame : forall r, heap s !! l = Some r -> cleared r = r ->
            forall l', heap s !! l'
              = if decide (l' = l) then cleared <$> heap s !! l' else heap s !! l').
  { intros r Hr Hc l'. destruct (decide (l' = l)) as [->|]; [|done].
    rewrite Hr. simpl. by rewrite Hc. }
  unfold clearTimersOf, tracked_of, read.
  destruct (heap s !! l) as [r|] eqn:Hr.
  - destruct (Sub.updateTimers r) as [[|h hs]|] eqn:Ht; simpl.
    + split_and!; [done|done| |].
      * apply (Hsame r eq_refl). unfold cleared. by rewrite Ht.
      * intros h. by rewrite ?not_in_nil_decide.
    + destruct (clear_handles_spec (h :: hs) s) as (H1 & H2 & H3 & H4).
      simpl in *. split_and!; [done|done| |done].
      intros l'. rewrite H1. destruct (decide (l' = l)) as [->|Hne].
      * rewrite lookup_alter_eq, Hr. simpl. unfold cleared. by rewrite Ht.
      * by rewrite lookup_alter_ne.
    + split_and!; [done|done| |].
      * apply (Hsame r eq_refl). unfold cleared. by rewrite Ht.
      * intros h. by rewrite ?not_in_nil_decide.
  - simpl. split_and!; [done|done| |].
    + intros l'. destruct (decide (l' = l)) as [->|]; [|done]. by rewrite Hr.
    + intros h. by rewrite ?not_in_nil_decide.
Qed.

Lemma tracked_of_ext (s s' : store) (l : loc) :
  heap s' !! l = heap s !! l -> tracked_of s' l = tracked_of s l.
Proof. intros H. unfold tracked_of, read. by rewrite H. Qed.

Lemma clear_fold_spec (ls : list loc) (s : store) :
  NoDup ls ->
  let s' := fold_left clearTimersOf ls s in
  subscriptions s' = subscriptions s
  /\ next_handle s' = next_handle s
  /\ (forall l, heap s' !! l
                = if decide (l ∈ ls) then cleared <$> heap s !! l else heap s !! l)
  /\ (forall h, timers s' !! h
                = if decide (h ∈ tracked_in s ls) then None else timers s !! h).
Proof.
  revert s. induction ls as [|l0 ls IH]; intros s Hnd; simpl.
  - split_and!; [done|done| |].
    + intros l. by rewrite ?not_in_nil_decide.
    + intros h. by rewrite ?not_in_nil_decide.
  - apply NoDup_cons in Hnd as [Hnotin Hnd].
    destruct (clearTimersOf_spec s l0) as (C1 & C2 & C3 & C4).
    destruct (IH (clearTimersOf s l0) Hnd) as (I1 & I2 & I3 & I4).
    split; [congruence|]. split; [congruence|]. split.
    + intros l. rewrite I3, C3.
      destruct (decide (l ∈ ls)) as [H1|H1], (decide (l = l0)) as [H2|H2],
        (decide (l ∈ l0 :: ls)) as [H3|H3]; try (subst; done).
      all: exfalso; rewrite elem_of_cons in H3; subst;
        first [by destruct H3 | apply H3; by left | apply H3; by right].
    + intros h. rewrite I4, C4.
      assert (Hsame : tracked_in (clearTimersOf s l0) ls = tracked_in s ls).
      { unfold tracked_in. clear -Hnotin C3.
        induction ls as [|l ls IHl]; [done|]. simpl.
        apply not_elem_of_cons in Hnotin as [Hne Hnotin].
        rewrite IHl by done.
        f_equal. apply tracked_of_ext. rewrite C3.
        rewrite decide_False; [done|]. congruence. }
      rewrite Hsame.
      destruct (decide (h ∈ tracked_in s ls)) as [H1|H1],
        (decide (h ∈ tracked_of s l0)) as [H2|H2],
        (decide (h ∈ tracked_of s l0 ++ tracked_in s ls)) as [H3|H3]; try done.
      all: exfalso; rewrite elem_of_app in H3;
        first [by destruct H3 | apply H3; by left | apply H3; by right].
Qed.

Lemma armTimerOf_spec (s : store) (l : loc) :
  let s' := armTimerOf s l in
  subscriptions s' = subscriptions s
  /\ match heap s !! l with
     | Some r =>
         if wants_timer r then
           next_handle s' = S (next_handle s)
           /\ (forall l', heap s' !! l'
                          = if decide (l' = l) then Some (armed (next_handle s) r)
                            else heap s !! l')
           /\ timers s' = <[next_handle s := item_timer l r]> (timers s)
         else s' = s
     | None => s' = s
     end.
Proof.
  unfold armTimerOf. destruct (heap s !! l) as [r|] eqn:Hr; [|done].
  destruct (wants_timer r); [|done].
  unfold setInterval, read. cbn [heap]. rewrite Hr.
  destruct (Sub.updateTimers r) as [ts|] eqn:Ht.
  - split_and!; [done|done| |done].
    intros l'. rewrite heap_modify. cbn [heap].
    destruct (decide (l' = l)) as [->|Hne].
    + by rewrite lookup_alter_eq, Hr.
    + by rewrite lookup_alter_ne.
  - split_and!; [done|done| |done].
    intros l'. rewrite !heap_modify. cbn [heap].
    destruct (decide (l' = l)) as [->|Hne].
    + rewrite !lookup_alter_eq, Hr. simpl. unfold armed. by rewrite Ht.
    + by rewrite !lookup_alter_ne.
Qed.

Lemma arm_fold_spec (ls : list loc) (s : store) :
  NoDup ls ->
  let s' := fold_left armTimerOf ls s in
  subscriptions s' = subscriptions s
  /\ (next_handle s <= next_handle s')%nat
  /\ (forall l, l ∉ ls -> heap s' !! l = heap s !! l)
  /\ (forall l r, l ∈ ls -> heap s !! l = Some r ->
        if wants_timer r then
          exists h, (next_handle s <= h < next_handle s')%nat
                    /\ heap s' !! l = Some (armed h r)
                    /\ timers s' !! h = Some (item_timer l r)
        else heap s' !! l = Some r)
  /\ (forall h, (h < next_handle s)%nat -> timers s' !! h = timers s !! h)
  /\ (forall h tm, timers s' !! h = Some tm ->
        timers s !! h = Some tm
        \/ exists l r, l ∈ ls /\ heap s !! l = Some r /\ wants_timer r = true
                       /\ tm = item_timer l r /\ heap s' !! l = Some (armed h r)).
Proof.
  revert s. induction ls as [|l0 ls IH]; intros s Hnd; cbn [fold_left].
  - split_and!; [done|done|done| |done|by left].
    intros l r Hin. by apply elem_of_nil in Hin.
  - apply NoDup_cons in Hnd as [Hnotin Hnd].
    destruct (armTimerOf_spec s l0) as (A1 & A2).
    destruct (IH (armTimerOf s l0) Hnd) as (I1 & I2 & I3 & I4 & I5 & I6).
    set (s1 := armTimerOf s l0) in *. set (s' := fold_left armTimerOf ls s1) in *.
    cbv zeta.
    destruct (heap s !! l0) as [r0|] eqn:Hr0; [destruct (wants_timer r0) eqn:Hw|].
    + destruct A2 as (N & H & T).
      assert (Hother : forall l, l <> l0 -> heap s1 !! l = heap s !! l).
      { intros l Hne. rewrite H. by rewrite decide_False. }
      assert (Hl0 : heap s' !! l0 = Some (armed (next_handle s) r0)).
      { rewrite I3 by done. rewrite H. by rewrite decide_True. }
      assert (Ht0 : timers s' !! next_handle s = Some (item_timer l0 r0)).
      { rewrite I5 by lia. rewrite T. apply lookup_insert_eq. }
      split_and!.
      * congruence.
      * lia.
      * intros l Hl. apply not_elem_of_cons in Hl as [Hne Hl].
        rewrite I3 by done. by apply Hother.
      * intros l r Hin Hr. apply elem_of_cons in Hin as [->|Hin].
        -- rewrite Hr0 in Hr. injection Hr as <-. rewrite Hw.
           exists (next_handle s). split; [lia|]. done.
        -- assert (Hne : l <> l0) by (intros ->; done).
           specialize (I4 l r Hin). rewrite (Hother l Hne) in I4.
           specialize (I4 Hr). destruct (wants_timer r); [|done].
           destruct I4 as (h & Hh & Hheap & Htm). exists h. split; [lia|done].
      * intros h Hh. rewrite I5 by lia. rewrite T. by rewrite lookup_insert_ne by lia.
      * intros h tm Htm. destruct (I6 h tm Htm) as [Hold|(l & r & Hin & Hr & Hwr & -> & Hh)].
        -- rewrite T in Hold. destruct (decide (h = next_handle s)) as [->|Hne].
           ++ rewrite lookup_insert_eq in Hold. injection Hold as <-.
              right. exists l0, r0. split_and!; try done. apply list_elem_of_here.
           ++ left. by rewrite lookup_insert_ne in Hold.
        -- right. assert (Hne : l <> l0) by (intros ->; done).
           exists l, r. split_and!; try done.
           ++ by apply list_elem_of_further.
           ++ by rewrite <- (Hother l Hne).
    + rewrite A2 in *. fold s' in I1, I2, I3, I4, I5, I6 |- *.
      split_and!; [done|done| | |done|].
      * intros l Hl. apply not_elem_of_cons in Hl as [Hne Hl]. by apply I3.
      * intros l r Hin Hr. apply elem_of_cons in Hin as [->|Hin].
        -- rewrite Hr0 in Hr. injection Hr as <-. rewrite Hw.
           rewrite I3 by done. done.
        -- by apply I4.
      * intros h tm Htm. destruct (I6 h tm Htm) as [Hold|(l & r & Hin & Hrest)].
        -- by left.
        -- right. exists l, r. split; [by apply list_elem_of_further|done].
    + rewrite A2 in *. fold s' in I1, I2, I3, I4, I5, I6 |- *.
      split_and!; [done|done| | |done|].
      * intros l Hl. apply not_elem_of_cons in Hl as [Hne Hl]. by apply I3.
      * intros l r Hin Hr. apply elem_of_cons in Hin as [->|Hin].
        -- congruence.
        -- by apply I4.
      * intros h tm Htm. destruct (I6 h tm Htm) as [Hold|(l & r & Hin & Hrest)].
        -- by left.
        -- right. exists l, r. split; [by apply list_elem_of_further|done].
Qed.

Lemma itemTick_shape (sub : loc) (s : store) :
  exists k, run_callback (ItemTick sub) s = AwaitBatch s [id_of s sub] k.
Proof. eexists. reflexivity. Qed.

Lemma cleared_facts (r : Sub.t) (l : loc) (h : handle) :
  wants_timer (cleared r) = wants_timer r
  /\ item_timer l (cleared r) = item_timer l r
  /\ armed h (cleared r) = Sub.set_updateTimers (Some [h]) r.
Proof.
  unfold cleared, armed. destruct r as [i nm u en nc up ui ex iv [[|t ts]|]]; done.
Qed.

Lemma setupIndividualUpdateTimers_spec (s : store) :
  NoDup (subscriptions s) ->
  let s' := setupIndividualUpdateTimers s in
  subscriptions s' = subscriptions s
  /\ (forall l r, l ∈ subscriptions s -> heap s !! l = Some r ->
        if wants_timer r then
          exists h, heap s' !! l = Some (Sub.set_updateTimers (Some [h]) r)
                    /\ timers s' !! h = Some (item_timer l r)
        else heap s' !! l = Some (cleared r) /\ tracked_of s' l = [])
  /\ (forall h tm, timers s' !! h = Some tm ->
        (timers s !! h = Some tm /\ h ∉ tracked_in s (subscriptions s))
        \/ exists l r, l ∈ subscriptions s /\ heap s !! l = Some r
                       /\ wants_timer r = true
                       /\ tm = item_timer l r /\ tracked_of s' l = [h]).
Proof.
  intros Hnd. unfold setupIndividualUpdateTimers, clearIndividualUpdateTimers.
  destruct (clear_fold_spec (subscriptions s) s Hnd) as (C1 & C2 & C3 & C4).
  set (s1 := fold_left clearTimersOf (subscriptions s) s) in *.
  assert (Hnd1 : NoDup (subscriptions s1)) by (by rewrite C1).
  destruct (arm_fold_spec (subscriptions s1) s1 Hnd1) as (A1 & A2 & A3 & A4 & A5 & A6).
  set (s' := fold_left armTimerOf (subscriptions s1) s1) in *. cbv zeta.
  rewrite C1 in *.
  assert (Hs1 : forall l r, l ∈ subscriptions s -> heap s !! l = Some r ->
                            heap s1 !! l = Some (cleared r)).
  { intros l r Hin Hr. rewrite C3, Hr. by rewrite decide_True. }
  split_and!.
  - congruence.
  - intros l r Hin Hr. specialize (A4 l (cleared r) Hin (Hs1 l r Hin Hr)).
    destruct (cleared_facts r l 0%nat) as (F1 & _).
    rewrite F1 in A4. destruct (wants_timer r).
    + destruct A4 as (h & _ & Hheap & Htm). exists h.
      destruct (cleared_facts r l h) as (_ & F2 & F3). by rewrite <- F3, <- F2.
    + split; [done|]. unfold tracked_of, read. rewrite A4. unfold cleared.
      destruct (Sub.updateTimers r) as [[|t ts]|] eqn:E; simpl; by rewrite ?E.
  - intros h tm Htm. destruct (A6 h tm Htm) as [Hold|(l & r1 & Hin & Hr1 & Hw & -> & Hh)].
    + left. rewrite C4 in Hold.
      destruct (decide (h ∈ tracked_in s (subscriptions s))); [done|]. done.
    + right. rewrite C3 in Hr1. rewrite decide_True in Hr1 by done.
      destruct (heap s !! l) as [r|] eqn:Hr; [|done]. simpl in Hr1.
      injection Hr1 as <-. destruct (cleared_facts r l h) as (F1 & F2 & F3).
      exists l, r. split_and!; try done; [congruence|].
      unfold tracked_of, read. by rewrite Hh, F3.
Qed.

Lemma tracked_in_elem (s : store) (ls : list loc) (l : loc) (h : handle) :
  l ∈ ls -> h ∈ tracked_of s l -> h ∈ tracked_in s ls.
Proof.
  intros Hl Hh. unfold tracked_in. rewrite list_elem_of_In. apply in_flat_map.
  exists l. by rewrite <- !list_elem_of_In.
Qed.

(** C1, as the code has it. [setupIndividualUpdateTimers], on a collection
    without repeated references in which every live per-item timer is
    tracked by a record of the collection: afterwards every record that is
    enabled, has a URL starting with [http] and an [updateInterval > 0] has
    exactly one live per-item timer, with period
    [updateInterval * 60 * 1000], whose handle is the only one the record
    tracks; no other per-item timer is live, neither for another record of
    the collection nor for an object outside it; a live global timer was
    live before; and every live per-item timer is again tracked. The
    callback does not call the single-item refresher: it submits the
    record's id alone to [batchUpdateNodes], applies the results when the
    call succeeds and writes to the console when it fails, and is done
    either way. *)
Theorem per_item_timers (s : store) :
  NoDup (subscriptions s) ->
  item_timers_tracked s ->
  let s' := setupIndividualUpdateTimers s in
  subscriptions s' = subscriptions s
  /\ (forall l r, l ∈ subscriptions s -> heap s !! l = Some r ->
        if wants_timer r then
          exists h, heap s' !! l = Some (Sub.set_updateTimers (Some [h]) r)
                    /\ timers s' !! h = Some (item_timer l r)
                    /\ (forall h' tm, timers s' !! h' = Some tm ->
                          fires tm = ItemTick l -> h' = h)
        else heap s' !! l = Some (cleared r) /\ tracked_of s' l = []
             /\ (forall h tm, timers s' !! h = Some tm -> fires tm <> ItemTick l))
  /\ (forall h tm l, timers s' !! h = Some tm -> fires tm = ItemTick l ->
        exists r, l ∈ subscriptions s /\ heap s !! l = Some r
                  /\ wants_timer r = true
                  /\ tm = item_timer l r /\ tracked_of s' l = [h])
  /\ (forall h tm, timers s' !! h = Some tm -> fires tm = GlobalTick ->
        timers s !! h = Some tm /\ h ∉ tracked_in s (subscriptions s))
  /\ item_timers_tracked s'
  /\ (forall r, wants_timer r = true <->
        Sub.enabled r = true /\ is_http (Sub.url r) = true
        /\ exists n, Sub.updateInterval r = Some n /\ 0 < n)
  /\ (forall l r n, Sub.updateInterval r = Some n ->
        item_timer l r = {| period := n * 60 * 1000; fires := ItemTick l |})
  /\ (forall l s2, exists k,
        run_callback (ItemTick l) s2 = AwaitBatch s2 [id_of s2 l] k
        /\ applies_results k
        /\ logs_on_failure (run_callback (ItemTick l) s2)).
Proof.
  intros Hnd Htr.
  destruct (setupIndividualUpdateTimers_spec s Hnd) as (S1 & S2 & S3).
  set (s' := setupIndividualUpdateTimers s) in *. cbv zeta.
  assert (Hitem : forall h tm l, timers s' !! h = Some tm -> fires tm = ItemTick l ->
            exists r, l ∈ subscriptions s /\ heap s !! l = Some r
                      /\ wants_timer r = true
                      /\ tm = item_timer l r /\ tracked_of s' l = [h]).
  { intros h tm l Htm Hf.
    destruct (S3 h tm Htm) as [[Hold Hun]|(l' & r & Hin & Hr & Hw & Heq & Ht)].
    - exfalso. apply Hun. by apply (Htr h tm l).
    - assert (Hl : l' = l) by (rewrite Heq in Hf; by injection Hf).
      subst l'. by exists r. }
  split; [exact S1|]. split; [|split; [exact Hitem|split; [|split; [|split; [|split]]]]].
  - intros l r Hin Hr. specialize (S2 l r Hin Hr).
    destruct (wants_timer r) eqn:Hw.
    + destruct S2 as (h & Hheap & Htm). exists h. split; [done|]. split; [done|].
      intros h' tm Htm' Hf.
      destruct (Hitem h' tm l Htm' Hf) as (r' & _ & _ & _ & _ & Ht).
      unfold tracked_of, read in Ht. rewrite Hheap in Ht.
      cbn [Sub.updateTimers Sub.set_updateTimers default] in Ht. by injection Ht.
    + destruct S2 as [Hheap Ht]. split; [done|]. split; [done|].
      intros h tm Htm Hf.
      destruct (Hitem h tm l Htm Hf) as (r' & _ & Hr' & Hw' & _).
      rewrite Hr in Hr'. injection Hr' as <-. congruence.
  - intros h tm Htm Hf.
    destruct (S3 h tm Htm) as [Hold|(l' & r & _ & _ & _ & Heq & _)]; [done|].
    rewrite Heq in Hf. discriminate Hf.
  - intros h tm l Htm Hf.
    destruct (Hitem h tm l Htm Hf) as (r & Hin & _ & _ & _ & Ht).
    apply (tracked_in_elem s' _ l); [by rewrite S1|]. rewrite Ht. apply list_elem_of_here.
  - intros r. unfold wants_timer. split.
    + intros H. apply andb_true_iff in H as [H Hi]. apply andb_true_iff in H as [He Hu].
      split_and!; [done|done|]. destruct (Sub.updateInterval r) as [n|]; [|done].
      exists n. apply andb_true_iff in Hi as [_ Hpos]. split; [done|]. by apply Z.ltb_lt.
    + intros (He & Hu & n & Hn & Hpos). rewrite He, Hu, Hn. simpl.
      apply andb_true_iff. split; [|by apply Z.ltb_lt].
      apply negb_true_iff, Z.eqb_neq. lia.
  - intros l r n Hn. unfold item_timer. by rewrite Hn.
  - intros l s2. eexists. split; [reflexivity|]. split.
    + eapply (itemTick_applies l s2). reflexivity.
    + apply itemTick_logs.
Qed.

(** ** Identifiers *)

Lemma ids_keeps (s s' : store) : keeps s s' -> ids s' = ids s.
Proof.
  intros [K1 K2 _ _]. unfold ids. rewrite K1. apply map_ext. intros l. apply K2.
Qed.

Lemma inv_keeps (s s' : store) :
  keeps s s' -> unique_ids s /\ allocated s -> unique_ids s' /\ allocated s'.
Proof.
  intros K [Hu Ha]. unfold unique_ids, allocated in *.
  rewrite (ids_keeps s s' K).
  by rewrite (keeps_subscriptions _ _ K), (keeps_next_loc _ _ K).
Qed.

Lemma mild_done (c : completion) (s s' : store) : keeps s s' -> mild s (Done c s').
Proof. by split. Qed.

Lemma mild_weaken (s0 s : store) (t : task) : keeps s0 s -> mild s t -> mild s0 t.
Proof. intros K [K' St]. split; [eapply keeps_trans; eauto|done]. Qed.

Lemma mild_bind (s : store) (t : task) (f : store -> task) :
  mild s t -> (forall s1, mild s1 (f s1)) -> mild s (bind t f).
Proof.
  intros [K St] Hf. revert s K St.
  induction t as [c s1|s1 u k IH|s1 ids0 k IH|s1 k IH]; intros s K St; simpl in *.
  - destruct c; [|by split]. eapply mild_weaken; eauto.
  - split; [done|]. intros o s'. destruct (St o s') as [K' St']. by apply IH.
  - split; [done|]. intros o s'. destruct (St o s') as [K' St']. by apply IH.
  - split; [done|]. intros o s'. destruct (St o s') as [K' St']. by apply IH.
Qed.

Lemma mild_try_catch (s : store) (t : task) (h : string -> store -> task) :
  mild s t -> (forall e s1, mild s1 (h e s1)) -> mild s (try_catch t h).
Proof.
  intros [K St] Hh. revert s K St.
  induction t as [c s1|s1 u k IH|s1 ids0 k IH|s1 k IH]; intros s K St; simpl in *.
  - destruct c; [by split|]. eapply mild_weaken; eauto.
  - split; [done|]. intros o s'. destruct (St o s') as [K' St']. by apply IH.
  - split; [done|]. intros o s'. destruct (St o s') as [K' St']. by apply IH.
  - split; [done|]. intros o s'. destruct (St o s') as [K' St']. by apply IH.
Qed.

Lemma mild_await_batch (ids0 : list string) (k : batch_result -> store -> task) (s : store) :
  (forall r s', mild s' (k r s')) -> mild s (await_batch ids0 k s).
Proof.
  intros Hk. split; [apply keeps_refl|]. simpl. intros [r|e] s'; [apply Hk|].
  split; [apply keeps_refl|done].
Qed.

Lemma mild_await_settings (k : settings -> store -> task) (s : store) :
  (forall r s', mild s' (k r s')) -> mild s (await_settings k s).
Proof.
  intros Hk. split; [apply keeps_refl|]. simpl. intros [r|e] s'; [apply Hk|].
  split; [apply keeps_refl|done].
Qed.

Lemma mild_refresh (subId : string) (isInitialLoad : bool) (s : store) :
  mild s (handleUpdateNodeCount subId isInitialLoad s).
Proof.
  pose proof (refresh_shape subId isInitialLoad s) as H.
  destruct (refresh_target s subId).
  - destruct H as (s1 & k & -> & K & Hk). split; [done|]. simpl.
    intros o s'. destruct (Hk o s') as (s'' & -> & K'). by split.
  - rewrite H. apply mild_done, keeps_refl.
Qed.

Lemma mild_refresh_each (ls : list loc) (s : store) : mild s (refresh_each ls s).
Proof.
  revert s. induction ls as [|l ls IH]; intros s; simpl.
  - apply mild_done, keeps_refl.
  - apply mild_bind; [apply mild_refresh|apply IH].
Qed.

Lemma keeps_applyBatchResults (rs : list batch_entry) (s : store) :
  keeps s (applyBatchResults rs s).
Proof.
  unfold applyBatchResults. revert s. induction rs as [|e rs IH]; intros s; simpl.
  - apply keeps_refl.
  - eapply keeps_trans; [|apply IH]. unfold applyBatchResult.
    destruct (entry_success e); [|apply keeps_refl].
    destruct (find_sub (entry_id e) s); [|apply keeps_refl].
    by apply keeps_modify.
Qed.

Lemma keeps_setupAutoUpdate (s : store) : keeps s (setupAutoUpdate s).
Proof.
  unfold setupAutoUpdate.
  destruct (updateTimer s); simpl; destruct (0 <? _); by constructor.
Qed.

Lemma keeps_clear_fold (ls : list loc) (s : store) :
  keeps s (fold_left clearTimersOf ls s).
Proof.
  revert s. induction ls as [|l ls IH]; intros s; simpl; [apply keeps_refl|].
  eapply keeps_trans; [|apply IH]. unfold clearTimersOf, read.
  destruct (heap s !! l) as [r|]; [|apply keeps_refl].
  destruct (Sub.updateTimers r) as [[|h hs]|]; try apply keeps_refl.
  eapply keeps_trans; [|by apply keeps_modify].
  generalize (h :: hs). intros hs'. clear. revert s.
  induction hs' as [|h hs IH]; intros s; simpl; [apply keeps_refl|].
  eapply keeps_trans; [|apply IH]. by constructor.
Qed.

Lemma keeps_arm_fold (ls : list loc) (s : store) :
  keeps s (fold_left armTimerOf ls s).
Proof.
  revert s. induction ls as [|l ls IH]; intros s; simpl; [apply keeps_refl|].
  eapply keeps_trans; [|apply IH]. unfold armTimerOf.
  destruct (heap s !! l) as [r|]; [|apply keeps_refl].
  destruct (wants_timer r); [|apply keeps_refl]. cbn [setInterval].
  eapply keeps_trans; [|by apply keeps_modify].
  match goal with |- keeps _ (match ?x with _ => _ end) => destruct x end.
  - by constructor.
  - eapply keeps_trans; [|by apply keeps_modify]. by constructor.
Qed.

Lemma keeps_setupIndividualUpdateTimers (s : store) :
  keeps s (setupIndividualUpdateTimers s).
Proof.
  unfold setupIndividualUpdateTimers, clearIndividualUpdateTimers.
  eapply keeps_trans; [apply keeps_clear_fold|apply keeps_arm_fold].
Qed.

Lemma mild_globalTick (s : store) : mild s (globalTick s).
Proof.
  unfold globalTick. destruct (0 <? length _)%nat; [|apply mild_done, keeps_refl].
  apply mild_try_catch.
  - apply mild_await_batch. intros r s'. destruct (batch_success r).
    + apply mild_done. eapply keeps_trans; [apply keeps_applyBatchResults|].
      eapply keeps_trans; apply keeps_emit.
    + apply mild_done, keeps_emit.
  - intros e s1. apply mild_done, keeps_emit.
Qed.

Lemma mild_itemTick (sub : loc) (s : store) : mild s (itemTick sub s).
Proof.
  unfold itemTick. apply mild_try_catch.
  - apply mild_await_batch. intros r s'. destruct (batch_success r).
    + apply mild_done. eapply keeps_trans; [apply keeps_applyBatchResults|].
      eapply keeps_trans; apply keeps_emit.
    + apply mild_done, keeps_emit.
  - intros e s1. apply mild_done, keeps_emit.
Qed.

Lemma mild_initializeUpdateInterval (s : store) : mild s (initializeUpdateInterval s).
Proof.
  unfold initializeUpdateInterval. apply mild_try_catch.
  - apply mild_await_settings. intros r s'. apply mild_done.
    eapply keeps_trans; [|apply keeps_setupAutoUpdate]. by constructor.
  - intros e s1. apply mild_done, keeps_emit.
Qed.

Lemma id_of_alloc (r : Sub.t) (s : store) (l : loc) :
  id_of (snd (alloc r s)) l = if decide (l = next_loc s) then Sub.id r else id_of s l.
Proof.
  unfold id_of, read, alloc. cbn [snd heap].
  destruct (decide (l = next_loc s)) as [->|Hne].
  - by rewrite lookup_insert_eq.
  - by rewrite lookup_insert_ne.
Qed.

Lemma ids_alloc_old (r : Sub.t) (s : store) (ls : list loc) :
  Forall (fun l => (l < next_loc s)%nat) ls ->
  map (id_of (snd (alloc r s))) ls = map (id_of s) ls.
Proof.
  intros Hall. induction Hall as [|l ls Hl Hall IH]; [done|]. cbn [map].
  rewrite IH, id_of_alloc. rewrite decide_False by lia. done.
Qed.

Lemma alloc_all_spec (rs : list Sub.t) (s : store) :
  let ls := fst (alloc_all rs s) in
  let s' := snd (alloc_all rs s) in
  subscriptions s' = subscriptions s
  /\ next_loc s' = (next_loc s + length rs)%nat
  /\ Forall (fun l => (next_loc s <= l < next_loc s')%nat) ls
  /\ map (id_of s') ls = map Sub.id rs
  /\ (forall l, (l < next_loc s)%nat -> id_of s' l = id_of s l).
Proof.
  revert s. induction rs as [|r rs IH]; intros s; cbn [alloc_all].
  - cbn [fst snd length]. split_and!; try done; lia.
  - destruct (alloc r s) as [l s1] eqn:Ea.
    assert (Hl : l = next_loc s) by (by injection Ea as <- _).
    assert (Hs1 : s1 = snd (alloc r s)) by (by rewrite Ea).
    assert (Hn1 : next_loc s1 = S (next_loc s)) by (by rewrite Hs1).
    destruct (IH s1) as (I1 & I2 & I3 & I4 & I5).
    destruct (alloc_all rs s1) as [ls s2]. cbn [fst snd length map] in *.
    split_and!.
    + rewrite I1, Hs1. done.
    + lia.
    + constructor; [lia|]. eapply Forall_impl; [exact I3|]. simpl. intros; lia.
    + rewrite I4. f_equal. rewrite I5 by lia. rewrite Hs1, id_of_alloc.
      by rewrite decide_True.
    + intros l' Hl'. rewrite I5 by lia. rewrite Hs1, id_of_alloc.
      rewrite decide_False by lia. done.
Qed.

Lemma ids_of_old (s s' : store) (ls : list loc) :
  (forall l, (l < next_loc s)%nat -> id_of s' l = id_of s l) ->
  Forall (fun l => (l < next_loc s)%nat) ls ->
  map (id_of s') ls = map (id_of s) ls.
Proof.
  intros Hold Hall. induction Hall as [|l ls Hl Hall IH]; [done|]. cbn [map].
  by rewrite IH, Hold.
Qed.

Lemma addSubscription_inv (sub : Sub.t) (s : store) :
  unique_ids s /\ allocated s ->
  Sub.id sub <> "" -> Sub.id sub ∉ ids s ->
  (unique_ids (fst (addSubscription sub s)) /\ allocated (fst (addSubscription sub s)))
  /\ Forall stable (snd (addSubscription sub s)).
Proof.
  intros [[Hnd Hne] Ha] Hid Hfresh. unfold addSubscription.
  destruct (alloc sub s) as [l s1] eqn:Ea.
  assert (Hl : l = next_loc s) by (by injection Ea as <- _).
  assert (Hs1 : s1 = snd (alloc sub s)) by (by rewrite Ea).
  set (s2 := set_subsCurrentPage 1 (set_subscriptions (l :: subscriptions s1) s1)).
  destruct (mild_refresh (id_of s2 l) false s2) as [K St].
  cbn [fst snd]. split; [|by constructor].
  apply (inv_keeps s2); [eapply keeps_trans; [exact K|apply keeps_emit]|].
  assert (Hids : ids s2 = Sub.id sub :: ids s).
  { unfold ids, s2. cbn [subscriptions set_subsCurrentPage set_subscriptions map].
    change (id_of _ l) with (id_of s1 l).
    change (map (id_of _) (subscriptions s1)) with (map (id_of s1) (subscriptions s1)).
    rewrite Hs1 at 1 2. rewrite id_of_alloc, decide_True by done.
    rewrite Hs1. by rewrite ids_alloc_old. }
  unfold unique_ids, allocated. rewrite Hids. split; [split|].
  - by apply NoDup_cons.
  - by constructor.
  - unfold s2. cbn [subscriptions next_loc set_subsCurrentPage set_subscriptions].
    rewrite Hs1. cbn [alloc snd next_loc subscriptions].
    constructor; [lia|]. eapply Forall_impl; [exact Ha|]. simpl. intros; lia.
Qed.

Lemma bulk_inv (subs : list Sub.t) (s : store) :
  unique_ids s /\ allocated s ->
  NoDup (map Sub.id subs) ->
  Forall (fun r => Sub.id r <> "" /\ Sub.id r ∉ ids s) subs ->
  (unique_ids (task_store (addSubscriptionsFromBulk subs s))
   /\ allocated (task_store (addSubscriptionsFromBulk subs s)))
  /\ stable (addSubscriptionsFromBulk subs s).
Proof.
  intros [[Hnd Hne] Ha] Hnew Hfresh. unfold addSubscriptionsFromBulk.
  destruct (alloc_all_spec subs s) as (A1 & A2 & A3 & A4 & A5).
  destruct (alloc_all subs s) as [ls s1]. cbn [fst snd] in *.
  set (s2 := markDirty (set_subscriptions (ls ++ subscriptions s1) s1)).
  assert (Hinv : unique_ids s2 /\ allocated s2).
  { assert (Hids : ids s2 = map Sub.id subs ++ ids s).
    { unfold ids, s2. cbn [subscriptions markDirty emit set_subscriptions].
      rewrite map_app.
      change (map (id_of _) ls) with (map (id_of s1) ls).
      change (map (id_of _) (subscriptions s1)) with (map (id_of s1) (subscriptions s1)).
      rewrite A4, A1. f_equal. by apply ids_of_old. }
    unfold unique_ids, allocated. rewrite Hids. split; [split|].
    - apply NoDup_app. split; [done|]. split; [|done].
      intros i Hi Hc. apply list_elem_of_fmap in Hi as (r & -> & Hr).
      rewrite Forall_forall in Hfresh. by destruct (Hfresh r Hr).
    - apply Forall_app. split; [|done]. apply Forall_fmap.
      eapply Forall_impl; [exact Hfresh|]. by intros r [? _].
    - unfold s2. cbn [subscriptions next_loc markDirty emit set_subscriptions].
      apply Forall_app. split.
      + eapply Forall_impl; [exact A3|]. simpl. intros; lia.
      + rewrite A1. eapply Forall_impl; [exact Ha|]. simpl. intros; lia. }
  set (subsToUpdate := List.filter _ ls).
  destruct (0 <? length subsToUpdate)%nat.
  - set (s3 := showToast _ success s2).
    assert (M : mild s3 (try_catch
      (await_batch (map (id_of s3) subsToUpdate)
         (fun result s =>
            if batch_success result
            then Done Normal (markDirty (showToast
                   (MsgBulkDone (successCount (results result)) (length subsToUpdate))
                   success (applyBatchResults (results result) s)))
            else refresh_each subsToUpdate
                   (showToast MsgDegrading info
                      (showToast (MsgBulkFailed (batch_message result)) error s))) s3)
      (fun _ s => refresh_each subsToUpdate
                    (showToast MsgBulkFailedDegrading error
                       (console_error "Batch update failed" s))))).
    { apply mild_try_catch.
      - apply mild_await_batch. intros r s'. destruct (batch_success r).
        + apply mild_done. eapply keeps_trans; [apply keeps_applyBatchResults|].
          eapply keeps_trans; apply keeps_emit.
        + eapply mild_weaken; [|apply mild_refresh_each].
          eapply keeps_trans; apply keeps_emit.
      - intros e s1'. eapply mild_weaken; [|apply mild_refresh_each].
        eapply keeps_trans; apply keeps_emit. }
    destruct M as [K St]. split; [|exact St].
    apply (inv_keeps s2); [|done]. eapply keeps_trans; [apply keeps_emit|exact K].
  - cbn [task_store]. split; [|done]. apply (inv_keeps s2); [apply keeps_emit|done].
Qed.

Lemma findIndex_from_spec (s : store) (subId : string) (ls : list loc) (k n : nat) :
  findIndex_from s subId ls k = Some n ->
  (k <= n)%nat /\ exists l, ls !! (n - k)%nat = Some l /\ id_of s l = subId.
Proof.
  revert k. induction ls as [|l ls IH]; intros k; simpl; [done|].
  destruct (String.eqb_spec (id_of s l) subId) as [Heq|Hne].
  - intros [= <-]. split; [lia|]. exists l. by rewrite Nat.sub_diag.
  - intros H. destruct (IH _ H) as (Hle & l' & Hl' & Hid). split; [lia|].
    exists l'. split; [|done]. replace (n - k)%nat with (S (n - S k)) by lia. done.
Qed.

Lemma findIndex_spec (s : store) (subId : string) (n : nat) :
  findIndex subId s = Some n ->
  exists l, subscriptions s !! n = Some l /\ id_of s l = subId.
Proof.
  intros H. apply findIndex_from_spec in H as (_ & l & Hl & Hid).
  rewrite Nat.sub_0_r in Hl. eauto.
Qed.

Lemma updateSubscription_inv (updatedSub : Sub.t) (s : store) :
  unique_ids s /\ allocated s ->
  (unique_ids (fst (updateSubscription updatedSub s))
   /\ allocated (fst (updateSubscription updatedSub s)))
  /\ Forall stable (snd (updateSubscription updatedSub s)).
Proof.
  intros [Hu Ha]. unfold updateSubscription.
  destruct (alloc updatedSub s) as [u s1] eqn:Ea.
  assert (Hl : u = next_loc s) by (by injection Ea as <- _).
  assert (Hs1 : s1 = snd (alloc updatedSub s)) by (by rewrite Ea).
  assert (Hsubs1 : subscriptions s1 = subscriptions s) by (by rewrite Hs1).
  assert (Hn1 : next_loc s1 = S (next_loc s)) by (by rewrite Hs1).
  assert (Hids1 : ids s1 = ids s).
  { unfold ids. rewrite Hsubs1, Hs1. by apply ids_alloc_old. }
  assert (Hinv1 : unique_ids s1 /\ allocated s1).
  { unfold unique_ids, allocated. rewrite Hids1, Hsubs1, Hn1. split; [done|].
    eapply Forall_impl; [exact Ha|]. simpl. intros; lia. }
  destruct (findIndex (id_of s1 u) s1) as [index|] eqn:Hfind; [|by split].
  apply findIndex_spec in Hfind as (l & Hl1 & Hid).
  set (stored := default u (subscriptions s1 !! index)).
  assert (Hgen : forall s2 spawned, keeps s1 s2 -> Forall stable spawned ->
    (unique_ids (markDirty (set_subscriptions (<[index := u]> (subscriptions s2)) s2))
     /\ allocated (markDirty (set_subscriptions (<[index := u]> (subscriptions s2)) s2)))
    /\ Forall stable spawned).
  { intros s2 spawned K Hst. split; [|done].
    destruct (inv_keeps s1 s2 K Hinv1) as [[Hnd2 Hne2] Ha2].
    assert (Hids : ids (markDirty (set_subscriptions (<[index := u]> (subscriptions s2)) s2))
                   = ids s2).
    { unfold ids. cbn [subscriptions markDirty emit set_subscriptions].
      change (map (id_of _) ?x) with (map (id_of s2) x).
      rewrite list_fmap_insert. apply list_insert_id.
      rewrite list_lookup_fmap, (keeps_subscriptions _ _ K), Hl1. simpl.
      by rewrite !(keeps_id _ _ K), Hid. }
    unfold unique_ids, allocated. rewrite Hids. split; [done|].
    cbn [subscriptions next_loc markDirty emit set_subscriptions].
    apply Forall_insert; [done|]. rewrite (keeps_next_loc _ _ K). lia. }
  destruct (negb (String.eqb (url_of s1 stored) (url_of s1 u))).
  - set (s1' := modify u (Sub.set_nodeCount 0) s1).
    destruct (mild_refresh (id_of s1' u) false s1') as [K St].
    apply Hgen; [|by constructor].
    eapply keeps_trans; [|exact K]. by apply keeps_modify.
  - apply Hgen; [apply keeps_refl|constructor].
Qed.

Lemma filter_map_NoDup {A B} (f : A -> B) (p : A -> bool) (l : list A) :
  NoDup (map f l) -> NoDup (map f (List.filter p l)).
Proof.
  induction l as [|a l IH]; simpl; [done|].
  intros [Hnotin Hnd]%NoDup_cons. destruct (p a); simpl; [|by apply IH].
  apply NoDup_cons. split; [|by apply IH].
  intros Hc. apply Hnotin. apply list_elem_of_fmap in Hc as (x & -> & Hx).
  apply list_elem_of_fmap. exists x. split; [done|].
  apply list_elem_of_In. apply list_elem_of_In in Hx. by apply filter_In in Hx as [? _].
Qed.

Lemma filter_Forall {A} (P : A -> Prop) (p : A -> bool) (l : list A) :
  Forall P l -> Forall P (List.filter p l).
Proof.
  induction 1 as [|a l Ha Hl IH]; simpl; [done|].
  destruct (p a); [by constructor|done].
Qed.

Lemma filter_map_Forall {A B} (P : B -> Prop) (f : A -> B) (p : A -> bool) (l : list A) :
  Forall P (map f l) -> Forall P (map f (List.filter p l)).
Proof.
  induction l as [|a l IH]; simpl; [done|].
  intros [Ha Hl]%Forall_cons. destruct (p a); simpl; [|by apply IH].
  constructor; [done|by apply IH].
Qed.

Lemma deleteSubscription_inv (subId : string) (s : store) :
  unique_ids s /\ allocated s ->
  unique_ids (deleteSubscription subId s) /\ allocated (deleteSubscription subId s).
Proof.
  intros [[Hnd Hne] Ha]. unfold deleteSubscription.
  set (s1 := set_subscriptions _ s).
  assert (H1 : unique_ids s1 /\ allocated s1).
  { unfold unique_ids, allocated, ids, s1.
    cbn [subscriptions next_loc set_subscriptions].
    change (map (id_of _) ?x) with (map (id_of s) x).
    split; [split|].
    - by apply filter_map_NoDup.
    - by apply filter_map_Forall.
    - by apply filter_Forall. }
  apply (inv_keeps s1); [|done].
  eapply keeps_trans; [|apply keeps_emit].
  destruct (_ && _); by constructor.
Qed.

Lemma normalize_all_ids (raws : list Raw.t) (s : store) :
  let ls := fst (normalize_all raws s) in
  let s' := snd (normalize_all raws s) in
  (next_loc s <= next_loc s')%nat
  /\ Forall (fun l => (next_loc s <= l < next_loc s')%nat) ls
  /\ (forall l, (l < next_loc s)%nat -> id_of s' l = id_of s l)
  /\ map (id_of s') ls = map Sub.id (defaults_from (uuids_drawn s) raws).
Proof.
  revert s. induction raws as [|raw rest IH]; intros s.
  - simpl. split_and!; try done.
  - rewrite normalize_all_cons. cbv zeta.
    destruct (normalize_spec raw s) as (N1 & N2 & N3 & N4 & _).
    destruct (normalize raw s) as [r s1]. cbn [fst snd] in *.
    set (sa := snd (alloc r s1)).
    assert (Hna : next_loc sa = S (next_loc s)) by (unfold sa; cbn; by rewrite N3).
    assert (Hua : uuids_drawn sa
                  = if missing_id raw then S (uuids_drawn s) else uuids_drawn s)
      by (unfold sa; cbn; exact N4).
    assert (Hfst : fst (alloc r s1) = next_loc s) by (cbn; exact N3).
    assert (Hid1 : forall l, id_of sa l
                             = if decide (l = next_loc s) then Sub.id r else id_of s l).
    { intros l. unfold sa. rewrite id_of_alloc, N3. unfold id_of, read. by rewrite N2. }
    destruct (IH sa) as (I1 & I2 & I3 & I4). rewrite Hna in I1, I2, I3. rewrite Hua in I4.
    destruct (normalize_all rest sa) as [ls s3]. cbn [fst snd] in *. rewrite Hfst.
    split_and!.
    + lia.
    + constructor; [lia|]. eapply Forall_impl; [exact I2|]. simpl. intros; lia.
    + intros l Hl. rewrite I3 by lia. rewrite Hid1. by rewrite decide_False by lia.
    + cbn [map defaults_from]. rewrite I4. f_equal. rewrite I3 by lia.
      rewrite Hid1, decide_True by done. by rewrite N1.
Qed.

Section Identifiers.

(** The UUIDs the runtime hands out are non-empty and never repeat. *)
Hypothesis uuid_nonempty : forall n, randomUUID n <> "".
Hypothesis uuid_inj : forall m n, randomUUID m = randomUUID n -> m = n.

Lemma defaults_ids (raws : list Raw.t) (n : nat) :
  NoDup (given_ids raws) ->
  (forall i m, i ∈ given_ids raws -> i <> randomUUID m) ->
  NoDup (map Sub.id (defaults_from n raws))
  /\ Forall (fun i => i <> "") (map Sub.id (defaults_from n raws))
  /\ (forall i, i ∈ map Sub.id (defaults_from n raws) ->
        i ∈ given_ids raws \/ exists m, (n <= m)%nat /\ i = randomUUID m).
Proof.
  revert n. induction raws as [|raw rest IH]; intros n Hnd Hfor.
  - simpl. split_and!; [constructor|constructor|].
    intros i Hi. by apply elem_of_nil in Hi.
  - cbn [defaults_from map]. unfold given_ids in Hnd, Hfor |- *.
    cbn [omap list_omap] in Hnd, Hfor |- *. fold (given_ids rest) in *.
    unfold with_defaults at 1 2 3. cbn [Sub.id].
    destruct (missing_id raw) eqn:Hmiss.
    + destruct (IH (S n) Hnd Hfor) as (I1 & I2 & I3). split_and!.
      * apply NoDup_cons. split; [|done]. intros Hc.
        destruct (I3 _ Hc) as [Hg|(m & Hm & Heq)].
        -- by apply (Hfor _ n Hg).
        -- apply uuid_inj in Heq. lia.
      * constructor; [apply uuid_nonempty|done].
      * intros i Hi. apply elem_of_cons in Hi as [->|Hi].
        -- right. exists n. split; [lia|done].
        -- destruct (I3 _ Hi) as [Hg|(m & Hm & Heq)]; [by left|].
           right. exists m. split; [lia|done].
    + unfold missing_id in Hmiss. destruct (Raw.id raw) as [i0|] eqn:Hid; [|done].
      cbn [default] in *. apply NoDup_cons in Hnd as [Hnotin Hnd].
      assert (Hfor' : forall i m, i ∈ given_ids rest -> i <> randomUUID m).
      { intros i m Hi. apply Hfor. by apply list_elem_of_further. }
      destruct (IH n Hnd Hfor') as (I1 & I2 & I3). split_and!.
      * apply NoDup_cons. split; [|done]. intros Hc.
        destruct (I3 _ Hc) as [Hg|(m & Hm & Heq)]; [done|].
        apply (Hfor i0 m); [apply list_elem_of_here|done].
      * constructor; [|done]. by destruct (String.eqb_spec i0 "").
      * intros i Hi. apply elem_of_cons in Hi as [->|Hi].
        -- left. apply list_elem_of_here.
        -- destruct (I3 _ Hi) as [Hg|Hu]; [|by right].
           left. by apply list_elem_of_further.
Qed.

Lemma initializeSubscriptions_inv (subsData : option (list Raw.t)) (s : store) :
  NoDup (given_ids (default [] subsData)) ->
  (forall i m, i ∈ given_ids (default [] subsData) -> i <> randomUUID m) ->
  unique_ids (initializeSubscriptions subsData s)
  /\ allocated (initializeSubscriptions subsData s).
Proof.
  intros Hnd Hfor. unfold initializeSubscriptions.
  destruct (normalize_all_ids (default [] subsData) s) as (N1 & N2 & N3 & N4).
  destruct (normalize_all (default [] subsData) s) as [ls s1]. cbn [fst snd] in *.
  destruct (defaults_ids (default [] subsData) (uuids_drawn s) Hnd Hfor) as (D1 & D2 & _).
  unfold unique_ids, allocated, ids. cbn [subscriptions next_loc set_subscriptions].
  change (map (id_of _) ls) with (map (id_of s1) ls). rewrite N4.
  split; [done|]. eapply Forall_impl; [exact N2|]. simpl. intros; lia.
Qed.

Lemma step_inv (sys : system) (a : action) :
  sys_inv sys -> admissible (current sys) a -> sys_inv (step sys a).
Proof.
  intros [Hinv Hpend] Hadm. unfold sys_inv.
  assert (Hsync : forall s', keeps (current sys) s' -> sys_inv (sync sys s')).
  { intros s' K. split; [by apply (inv_keeps (current sys))|done]. }
  assert (Hstart : forall t, mild (current sys) t -> sys_inv (start sys t)).
  { intros t [K St]. split; [by apply (inv_keeps (current sys))|].
    apply Forall_app. split; [done|by constructor]. }
  assert (Hresume : forall i t t', pending sys !! i = Some t ->
            keeps (current sys) (task_store t') -> stable t' -> sys_inv (resume sys i t')).
  { intros i t t' Hi K St. split; [by apply (inv_keeps (current sys))|].
    by apply Forall_insert. }
  destruct a; cbn [step admissible] in *.
  - destruct Hadm as [Hnd Hfor]. split; [|done].
    by apply initializeSubscriptions_inv.
  - destruct Hadm as [Hid Hfresh].
    destruct (addSubscription_inv sub (current sys) Hinv Hid Hfresh) as [H1 H2].
    split; [done|]. apply Forall_app. by split.
  - destruct Hadm as [Hnd Hfresh].
    destruct (bulk_inv subs (current sys) Hinv Hnd Hfresh) as [H1 H2].
    split; [done|]. apply Forall_app. split; [done|by constructor].
  - destruct (updateSubscription_inv updatedSub (current sys) Hinv) as [H1 H2].
    split; [done|]. apply Forall_app. by split.
  - split; [|done]. by apply deleteSubscription_inv.
  - split; [|done]. split; [split|]; constructor.
  - apply Hstart, mild_refresh.
  - apply Hsync. unfold changeSubsPage. destruct (_ || _); by constructor.
  - apply Hsync. unfold handleUpdateIntervalChange.
    eapply keeps_trans; [|apply keeps_setupAutoUpdate]. by constructor.
  - apply Hsync. unfold handleSubscriptionUpdateIntervalChange.
    destruct (find_sub subId (current sys)); [|apply keeps_refl].
    eapply keeps_trans; [|apply keeps_setupIndividualUpdateTimers].
    by apply keeps_modify.
  - destruct (mild_initializeUpdateInterval (current sys)) as [K St].
    split; [|apply Forall_app; split; [done|by constructor]].
    apply (inv_keeps (current sys)); [|done]. cbn [onMounted fst].
    eapply keeps_trans; [exact K|apply keeps_setupIndividualUpdateTimers].
  - apply Hsync. unfold onUnmounted, clearIndividualUpdateTimers.
    eapply keeps_trans; [|apply keeps_clear_fold].
    destruct (updateTimer (current sys)); by constructor.
  - destruct (timers (current sys) !! h) as [tm|]; [|by split].
    apply Hstart. destruct (fires tm); [apply mild_globalTick|apply mild_itemTick].
  - destruct (pending sys !! i) as [[c s0|s0 u k|s0 ids0 k|s0 k]|] eqn:Hi; try by split.
    rewrite Forall_lookup in Hpend. pose proof (Hpend i _ Hi) as St. simpl in St.
    destruct (St o (current sys)) as [K St']. eapply Hresume; eauto.
    all: by apply Forall_lookup.
  - destruct (pending sys !! i) as [[c s0|s0 u k|s0 ids0 k|s0 k]|] eqn:Hi; try by split.
    rewrite Forall_lookup in Hpend. pose proof (Hpend i _ Hi) as St. simpl in St.
    destruct (St o (current sys)) as [K St']. eapply Hresume; eauto.
    all: by apply Forall_lookup.
  - destruct (pending sys !! i) as [[c s0|s0 u k|s0 ids0 k|s0 k]|] eqn:Hi; try by split.
    rewrite Forall_lookup in Hpend. pose proof (Hpend i _ Hi) as St. simpl in St.
    destruct (St o (current sys)) as [K St']. eapply Hresume; eauto.
    all: by apply Forall_lookup.
Qed.

(** C9, as the code has it. Nothing in the code checks identifiers, so
    uniqueness rests on what comes in. From the initial state, after any
    sequence of steps (host calls, timer ticks, settled external calls) in
    which every initialisation brings seeds with distinct identifiers that
    are not UUIDs of the runtime, and every record added, singly or in bulk,
    brings a non-empty identifier that is new to the collection, no two
    records of the collection share an identifier and none is empty;
    provided the runtime's UUIDs are non-empty and never repeat. *)
Theorem identifiers_stay_unique (acts : list action) :
  admissible_run acts boot -> unique_ids (current (run acts boot)).
Proof.
  assert (Hgen : forall sys, sys_inv sys -> admissible_run acts sys ->
                             sys_inv (run acts sys)).
  { induction acts as [|a acts IH]; intros sys Hinv Hadm; [done|].
    destruct Hadm as [Ha Hrest]. cbn [run fold_left]. apply IH; [|done].
    by apply step_inv. }
  intros Hadm. apply Hgen; [|done].
  split; [|constructor]. split; [split|]; constructor.
Qed.

End Identifiers.

(** ** Pages *)

Lemma js_slice_page {A} (l : list A) (start : Z) :
  0 <= start ->
  js_slice l start (start + 6) = take 6 (drop (Z.to_nat start) l).
Proof.
  intros Hs. unfold js_slice.
  assert (H1 : (start <? 0) = false) by (apply Z.ltb_ge; lia).
  assert (H2 : (start + 6 <? 0) = false) by (apply Z.ltb_ge; lia).
  rewrite H1, H2.
  destruct (Z_le_gt_dec (Z.of_nat (length l)) start) as [Hge|Hlt].
  - rewrite (Z.min_r start), (Z.min_r (start + 6)) by lia.
    rewrite Z.sub_diag. rewrite (drop_ge l (Z.to_nat start)) by lia.
    by rewrite take_nil.
  - rewrite (Z.min_l start) by lia.
    destruct (Z_le_gt_dec (start + 6) (Z.of_nat (length l))) as [Hin|Hout].
    + rewrite (Z.min_l (start + 6)) by lia. do 2 f_equal. lia.
    + rewrite (Z.min_r (start + 6)) by lia.
      rewrite !take_ge; [done| |]; rewrite length_drop; lia.
Qed.

Lemma page_of_take (s : store) (p : Z) :
  1 <= p ->
  page_of s p = take 6 (drop (Z.to_nat (6 * (p - 1))) (subscriptions s)).
Proof.
  intros Hp. unfold page_of, paginatedSubscriptions, subsItemsPerPage.
  cbn [subsCurrentPage subscriptions set_subsCurrentPage].
  rewrite js_slice_page by lia. do 3 f_equal. lia.
Qed.

Lemma subsTotalPages_bounds (s : store) :
  6 * (subsTotalPages s - 1) < Z.of_nat (length (subscriptions s))
  <= 6 * subsTotalPages s.
Proof. apply (ceil_div_bounds _ 6). lia. Qed.

(** X1. [changeSubsPage] ignores a page outside [1 .. subsTotalPages]; for a
    page inside it makes that page current, and the slice then shown is the
    run of at most six records starting at record [6 (page - 1)], which is
    never empty. *)
Theorem changeSubsPage_lands_on_a_page (page : Z) (s : store) :
  (page < 1 \/ subsTotalPages s < page -> changeSubsPage page s = s)
  /\ (1 <= page <= subsTotalPages s ->
        let s' := changeSubsPage page s in
        s' = set_subsCurrentPage page s
        /\ paginatedSubscriptions s'
           = take 6 (drop (Z.to_nat (6 * (page - 1))) (subscriptions s))
        /\ (1 <= length (paginatedSubscriptions s') <= 6)%nat).
Proof.
  unfold changeSubsPage. split.
  - intros Hout.
    assert (H : (page <? 1) || (subsTotalPages s <? page) = true).
    { apply orb_true_iff. destruct Hout; [left|right]; by apply Z.ltb_lt. }
    by rewrite H.
  - intros [Hlo Hhi].
    assert (H : (page <? 1) || (subsTotalPages s <? page) = false).
    { apply orb_false_iff. split; apply Z.ltb_ge; lia. }
    rewrite H. cbv zeta. split; [done|].
    fold (page_of s page). rewrite page_of_take by done. split; [done|].
    pose proof (subsTotalPages_bounds s) as Hb.
    rewrite length_take, length_drop. lia.
Qed.

Lemma pages_take {A} (l : list A) (n : nat) :
  concat (map (fun i => take 6 (drop (6 * i) l)) (seq 0 n)) = take (6 * n) l.
Proof.
  induction n as [|n IH]; [by rewrite Nat.mul_0_r|].
  rewrite seq_S, map_app, concat_app, IH. cbn [map concat Nat.add].
  rewrite app_nil_r, take_take_drop. f_equal. lia.
Qed.

(** X2. The pages partition the collection: the slices shown on pages
    [1 .. subsTotalPages], one after the other, are the collection itself,
    in order, every record on exactly one page. *)
Theorem pages_partition_the_collection (s : store) :
  concat (map (page_of s) (page_numbers s)) = subscriptions s.
Proof.
  pose proof (subsTotalPages_bounds s) as Hb.
  unfold page_numbers. rewrite map_map.
  assert (Hshift : map (fun i : nat => page_of s (Z.of_nat i))
                       (seq 1 (Z.to_nat (subsTotalPages s)))
                   = map (fun i => take 6 (drop (6 * i) (subscriptions s)))
                         (seq 0 (Z.to_nat (subsTotalPages s)))).
  { rewrite <- seq_shift, map_map. apply map_ext. intros i.
    rewrite page_of_take by lia. do 2 f_equal. lia. }
  rewrite Hshift, pages_take. apply take_ge. lia.
Qed.

(** ** Deleting a record *)

Lemma filter_out_one {A} (f : A -> string) (i : string) (l : list A) :
  NoDup (map f l) ->
  (length l <= S (length (List.filter (fun x => negb (String.eqb (f x) i)) l)))%nat.
Proof.
  induction l as [|a l IH]; simpl; [lia|].
  intros [Hnotin Hnd]%NoDup_cons.
  destruct (String.eqb_spec (f a) i) as [Heq|Hne]; simpl.
  - assert (Hall : List.filter (fun x => negb (String.eqb (f x) i)) l = l).
    { clear IH Hnd. induction l as [|b l IHl]; simpl; [done|].
      apply not_elem_of_cons in Hnotin as [Hb Hl].
      destruct (String.eqb_spec (f b) i) as [Hbi|]; [congruence|]. simpl.
      by rewrite IHl. }
    rewrite Hall. lia.
  - specialize (IH Hnd). lia.
Qed.

(** X3. [deleteSubscription subId] keeps exactly the records whose id is not
    [subId], in their order, writes to no record and marks dirty once. When
    identifiers are unique and the current page was a page of the
    collection (or page 1 of an empty one), it still is afterwards: the page
    steps back by one only when it has become empty, and stays otherwise. *)
Theorem deleteSubscription_keeps_the_page_valid (subId : string) (s : store) :
  NoDup (ids s) ->
  1 <= subsCurrentPage s <= Z.max 1 (subsTotalPages s) ->
  let s' := deleteSubscription subId s in
  subscriptions s'
  = List.filter (fun l => negb (String.eqb (id_of s l) subId)) (subscriptions s)
  /\ heap s' = heap s
  /\ log s' = log s ++ [MarkDirty]
  /\ 1 <= subsCurrentPage s' <= Z.max 1 (subsTotalPages s')
  /\ (subsCurrentPage s' = subsCurrentPage s
      \/ subsCurrentPage s' = subsCurrentPage s - 1
         /\ page_of s' (subsCurrentPage s) = []).
Proof.
  intros Hnd Hpage. unfold deleteSubscription.
  set (kept := List.filter _ (subscriptions s)).
  set (s1 := set_subscriptions kept s).
  pose proof (filter_out_one (id_of s) subId (subscriptions s) Hnd) as Hlen.
  fold kept in Hlen.
  pose proof (subsTotalPages_bounds s) as Hb.
  pose proof (subsTotalPages_bounds s1) as Hb1.
  change (subscriptions s1) with kept in Hb1.
  assert (Hslice : paginatedSubscriptions s1 = page_of s1 (subsCurrentPage s)).
  { reflexivity. }
  destruct ((length (paginatedSubscriptions s1) =? 0)%nat && (1 <? subsCurrentPage s1))
    eqn:Hcond; cbv zeta.
  - apply andb_true_iff in Hcond as [Hempty Hgt].
    apply Nat.eqb_eq in Hempty. apply Z.ltb_lt in Hgt.
    change (subsCurrentPage s1) with (subsCurrentPage s) in Hgt.
    split_and!; try done.
    + cbn [subsCurrentPage markDirty emit set_subsCurrentPage].
      change (subsCurrentPage s1) with (subsCurrentPage s). lia.
    + cbn [subsCurrentPage markDirty emit set_subsCurrentPage].
      change (subsCurrentPage s1) with (subsCurrentPage s).
      change (subsTotalPages (markDirty (set_subsCurrentPage _ s1)))
        with (subsTotalPages s1). lia.
    + right. split; [done|]. rewrite Hslice in Hempty.
      change (page_of (markDirty (set_subsCurrentPage _ s1)) (subsCurrentPage s))
        with (page_of s1 (subsCurrentPage s)).
      by apply nil_length_inv.
  - split_and!; try done; [| |by left].
    + cbn [subsCurrentPage markDirty emit]. change (subsCurrentPage s1) with (subsCurrentPage s).
      lia.
    + cbn [subsCurrentPage markDirty emit]. change (subsCurrentPage s1) with (subsCurrentPage s).
      change (subsTotalPages (markDirty s1)) with (subsTotalPages s1).
      apply andb_false_iff in Hcond as [Hne|Hle].
      * apply Nat.eqb_neq in Hne. rewrite Hslice, page_of_take in Hne by lia.
        change (subscriptions s1) with kept in Hne.
        rewrite length_take, length_drop in Hne. lia.
      * apply Z.ltb_ge in Hle. change (subsCurrentPage s1) with (subsCurrentPage s) in Hle.
        lia.
Qed.

(** ** Adding records *)

(** X4. [addSubscription sub] puts the new record in front of the others,
    shows page 1, marks dirty and touches no other object. The refresh it
    leaves behind is of the new record itself, also when another record
    has the same id: with a URL starting with [http] the record is marked
    as updating and its URL is being fetched; otherwise nothing is
    fetched. *)
Theorem addSubscription_refreshes_the_new_record (sub : Sub.t) (s : store) :
  let l := next_loc s in
  let r := addSubscription sub s in
  subscriptions (fst r) = l :: subscriptions s
  /\ subsCurrentPage (fst r) = 1
  /\ log (fst r) = log s ++ [MarkDirty]
  /\ (forall l', l' <> l -> heap (fst r) !! l' = heap s !! l')
  /\ if is_http (Sub.url sub)
     then heap (fst r) !! l = Some (Sub.set_isUpdating true sub)
          /\ exists s1 k, snd r = [AwaitFetch s1 (Sub.url sub) k]
     else heap (fst r) !! l = Some sub /\ exists s1, snd r = [Done Normal s1].
Proof.
  cbv zeta. unfold addSubscription, alloc.
  set (l := next_loc s).
  set (s2 := set_subsCurrentPage 1 (set_subscriptions _ _)).
  assert (Hheap2 : heap s2 = <[l := sub]> (heap s)) by reflexivity.
  assert (Hobj : heap s2 !! l = Some sub) by (rewrite Hheap2; apply lookup_insert_eq).
  assert (Hfind : find_sub (id_of s2 l) s2 = Some l).
  { unfold find_sub, s2. cbn [subscriptions set_subsCurrentPage set_subscriptions find].
    by rewrite String.eqb_refl. }
  assert (Hurl : url_of s2 l = Sub.url sub) by (unfold url_of, read; by rewrite Hobj).
  unfold handleUpdateNodeCount. rewrite Hfind, Hurl.
  destruct (is_http (Sub.url sub)) eqn:Hhttp; cbn [negb fst snd task_store].
  - assert (Hurl2 : url_of (modify l (Sub.set_isUpdating true) s2) l = Sub.url sub).
    { unfold url_of. rewrite read_modify_same by done. exact Hurl. }
    rewrite Hurl2.
    cbn [try_finally try_catch await_fetch task_store fst snd].
    split_and!; try reflexivity.
    + intros l' Hne. change (heap (markDirty ?x)) with (heap x).
      rewrite heap_modify, lookup_alter_ne by done. rewrite Hheap2.
      by rewrite lookup_insert_ne.
    + change (heap (markDirty ?x)) with (heap x).
      rewrite heap_modify, lookup_alter_eq, Hobj. done.
    + eexists _, _. reflexivity.
  - split_and!; try reflexivity.
    + intros l' Hne. change (heap (markDirty ?x)) with (heap x). rewrite Hheap2.
      by rewrite lookup_insert_ne.
    + done.
    + eexists. reflexivity.
Qed.

Lemma alloc_all_objects (rs : list Sub.t) (s : store) :
  let ls := fst (alloc_all rs s) in
  let s' := snd (alloc_all rs s) in
  ls = seq (next_loc s) (length rs)
  /\ Forall2 (fun l r => heap s' !! l = Some r) ls rs
  /\ (forall l, (l < next_loc s)%nat -> heap s' !! l = heap s !! l)
  /\ next_loc s' = (next_loc s + length rs)%nat
  /\ subscriptions s' = subscriptions s
  /\ log s' = log s.
Proof.
  revert s. induction rs as [|r rs IH]; intros s; cbn [alloc_all].
  - cbn [fst snd length seq]. split_and!; try done; first [constructor|lia].
  - destruct (alloc r s) as [l s1] eqn:Ea.
    assert (Hl : l = next_loc s) by (by injection Ea as <- _).
    assert (Hs1 : s1 = snd (alloc r s)) by (by rewrite Ea).
    assert (Hn1 : next_loc s1 = S (next_loc s)) by (by rewrite Hs1).
    assert (Hh1 : heap s1 = <[next_loc s := r]> (heap s)) by (by rewrite Hs1).
    destruct (IH s1) as (I1 & I2 & I3 & I4 & I5 & I6).
    destruct (alloc_all rs s1) as [ls s2]. cbn [fst snd length seq] in *.
    split_and!.
    + rewrite I1, Hn1, Hl. done.
    + constructor; [|done]. rewrite I3 by lia. rewrite Hh1, Hl. apply lookup_insert_eq.
    + intros l' Hl'. rewrite I3 by lia. rewrite Hh1. by rewrite lookup_insert_ne by lia.
    + lia.
    + rewrite I5, Hs1. done.
    + rewrite I6, Hs1. done.
Qed.

Lemma http_records_of_locs (s : store) (ls : list loc) (rs : list Sub.t) :
  Forall2 (fun l r => heap s !! l = Some r) ls rs ->
  map (id_of s)
      (List.filter (fun l => negb (String.eqb (url_of s l) "") && is_http (url_of s l)) ls)
  = map Sub.id (http_records rs)
  /\ length (List.filter (fun l => negb (String.eqb (url_of s l) "")
                                   && is_http (url_of s l)) ls)
     = length (http_records rs).
Proof.
  induction 1 as [|l r ls rs Hlr Hall [IH1 IH2]]; [done|].
  unfold http_records in *. cbn [List.filter].
  assert (Hu : url_of s l = Sub.url r) by (unfold url_of, read; by rewrite Hlr).
  assert (Hi : id_of s l = Sub.id r) by (unfold id_of, read; by rewrite Hlr).
  rewrite Hu. destruct (negb (String.eqb (Sub.url r) "") && is_http (Sub.url r)).
  - cbn [map length]. by rewrite Hi, IH1, IH2.
  - done.
Qed.

(** X5. [addSubscriptionsFromBulk subs] puts the new records, in their
    order, in front of the others and marks dirty. It submits to
    [batchUpdateNodes] the ids of exactly those new records whose URL starts
    with [http], in order, after announcing their number; when there is no
    such record it calls nothing and reports the import as done. *)
Theorem bulk_import_submits_the_http_records (subs : list Sub.t) (s : store) :
  let t := addSubscriptionsFromBulk subs s in
  let s' := task_store t in
  let new := seq (next_loc s) (length subs) in
  subscriptions s' = new ++ subscriptions s
  /\ Forall2 (fun l r => heap s' !! l = Some r) new subs
  /\ (forall l, (l < next_loc s)%nat -> heap s' !! l = heap s !! l)
  /\ match http_records subs with
     | [] => t = Done Normal s'
             /\ log s' = log s ++ [MarkDirty; Toast MsgBulkImportDone success]
     | _ :: _ =>
         (exists k, t = AwaitBatch s' (map Sub.id (http_records subs)) k)
         /\ log s' = log s ++ [MarkDirty;
                               Toast (MsgBulkUpdating (length (http_records subs))) success]
     end.
Proof.
  cbv zeta. unfold addSubscriptionsFromBulk.
  destruct (alloc_all_objects subs s) as (A1 & A2 & A3 & A4 & A5 & A6).
  destruct (alloc_all subs s) as [ls s1]. cbn [fst snd] in *. subst ls.
  set (new := seq (next_loc s) (length subs)) in *.
  set (s2 := markDirty (set_subscriptions (new ++ subscriptions s1) s1)).
  assert (A2' : Forall2 (fun l r => heap s2 !! l = Some r) new subs) by exact A2.
  destruct (http_records_of_locs s2 new subs A2') as [Hids Hlen].
  clear A2'. subst s2.
  match goal with
  | |- context [List.filter ?f new] => set (subsToUpdate := List.filter f new) in *
  end.
  assert (Hlen' : length subsToUpdate = length (http_records subs)) by exact Hlen.
  assert (Hids' : forall m lvl,
            map (id_of (showToast m lvl
                          (markDirty (set_subscriptions (new ++ subscriptions s1) s1))))
                subsToUpdate
            = map Sub.id (http_records subs)) by (intros; exact Hids).
  clear Hlen Hids.
  destruct (http_records subs) as [|r0 rest] eqn:Hhttp.
  - assert (Hnone : (0 <? length subsToUpdate)%nat = false).
    { apply Nat.ltb_ge. rewrite Hlen'. simpl. lia. }
    rewrite Hnone. cbn [task_store]. split_and!; try done.
    + cbn [subscriptions showToast markDirty emit set_subscriptions]. by rewrite A5.
    + cbn [log showToast markDirty emit set_subscriptions].
      rewrite A6, <- app_assoc. done.
  - assert (Hsome : (0 <? length subsToUpdate)%nat = true).
    { apply Nat.ltb_lt. rewrite Hlen'. simpl. lia. }
    rewrite Hsome. cbn [try_catch await_batch task_store]. split_and!; try done.
    + cbn [subscriptions showToast markDirty emit set_subscriptions]. by rewrite A5.
    + eexists. f_equal. apply Hids'.
    + cbn [log showToast markDirty emit set_subscriptions].
      rewrite A6, <- app_assoc, Hlen'. done.
Qed.

(** ** Updating a record *)

Lemma findIndex_from_ext (s s' : store) (subId : string) (ls : list loc) (k : nat) :
  Forall (fun l => id_of s' l = id_of s l) ls ->
  findIndex_from s' subId ls k = findIndex_from s subId ls k.
Proof.
  intros Hall. revert k. induction Hall as [|l ls Hl Hall IH]; intros k; [done|].
  cbn [findIndex_from]. by rewrite Hl, IH.
Qed.

(** X6. [updateSubscription updatedSub], on a collection of allocated
    objects. When no record has the id of [updatedSub], the collection and
    every object in it stay as they are, nothing is marked dirty and no
    refresh starts. Otherwise the first record with that id is replaced, at
    its position, by the object handed in, whose [nodeCount] is set to 0
    when its URL differs from the stored one; the identifiers in the
    collection and their order do not change, dirty is marked once, and
    with an unchanged URL no refresh starts. *)
Theorem updateSubscription_replaces_in_place (updatedSub : Sub.t) (s : store) :
  allocated s ->
  let u := next_loc s in
  let r := updateSubscription updatedSub s in
  match findIndex (Sub.id updatedSub) s with
  | None =>
      subscriptions (fst r) = subscriptions s
      /\ (forall l, l <> u -> heap (fst r) !! l = heap s !! l)
      /\ log (fst r) = log s
      /\ snd r = []
  | Some index =>
      exists stored,
        subscriptions s !! index = Some stored
        /\ id_of s stored = Sub.id updatedSub
        /\ subscriptions (fst r) = <[index := u]> (subscriptions s)
        /\ ids (fst r) = ids s
        /\ log (fst r) = log s ++ [MarkDirty]
        /\ (if String.eqb (url_of s stored) (Sub.url updatedSub)
            then heap (fst r) !! u = Some updatedSub /\ snd r = []
            else heap (fst r) !! u = Some (Sub.set_nodeCount 0 updatedSub))
  end.
Proof.
  intros Ha. unfold allocated in Ha. cbv zeta. unfold updateSubscription.
  pose proof (id_of_alloc updatedSub s) as Hid.
  assert (Hold : Forall (fun l => id_of (snd (alloc updatedSub s)) l = id_of s l)
                        (subscriptions s)).
  { eapply Forall_impl; [exact Ha|]. cbn beta. intros l Hl.
    rewrite Hid. by rewrite decide_False by lia. }
  assert (Hurl_old : forall l, (l < next_loc s)%nat ->
                               url_of (snd (alloc updatedSub s)) l = url_of s l).
  { intros l Hl. unfold url_of, read, alloc. cbn [snd heap].
    by rewrite lookup_insert_ne by lia. }
  unfold alloc in *. cbn [fst snd] in *.
  set (u := next_loc s) in *.
  set (s1 := {| heap := <[u := updatedSub]> (heap s); next_loc := S u;
                subscriptions := subscriptions s;
                subsCurrentPage := subsCurrentPage s;
                updateInterval := updateInterval s; updateTimer := updateTimer s;
                timers := timers s; next_handle := next_handle s;
                uuids_drawn := uuids_drawn s; log := log s |}) in *.
  assert (Hobj : heap s1 !! u = Some updatedSub) by apply lookup_insert_eq.
  assert (Hidu : id_of s1 u = Sub.id updatedSub).
  { rewrite Hid. by rewrite decide_True. }
  assert (Hurlu : url_of s1 u = Sub.url updatedSub).
  { unfold url_of, read. by rewrite Hobj. }
  assert (Hfi : findIndex (id_of s1 u) s1 = findIndex (Sub.id updatedSub) s).
  { rewrite Hidu. unfold findIndex. by apply findIndex_from_ext. }
  rewrite Hfi. destruct (findIndex (Sub.id updatedSub) s) as [index|] eqn:Hfind.
  - apply findIndex_spec in Hfind as (stored & Hstored & Hsid).
    exists stored. split; [done|]. split; [done|].
    assert (Hst : default u (subscriptions s1 !! index) = stored).
    { change (subscriptions s1) with (subscriptions s). by rewrite Hstored. }
    rewrite Hst.
    assert (Hlt : (stored < u)%nat).
    { rewrite Forall_forall in Ha. apply Ha. by eapply list_elem_of_lookup_2. }
    rewrite (Hurl_old stored Hlt), Hurlu.
    assert (Hgen : forall s2, keeps s1 s2 ->
      ids (markDirty (set_subscriptions (<[index := u]> (subscriptions s2)) s2)) = ids s).
    { intros s2 K.
      transitivity (ids s2).
      - unfold ids. cbn [subscriptions markDirty emit set_subscriptions].
        change (map (id_of _) ?x) with (map (id_of s2) x).
        rewrite list_fmap_insert. apply list_insert_id.
        rewrite list_lookup_fmap, (keeps_subscriptions _ _ K).
        change (subscriptions s1) with (subscriptions s). rewrite Hstored. simpl.
        rewrite !(keeps_id _ _ K), Hidu, (Hid stored).
        rewrite decide_False by lia. by rewrite Hsid.
      - rewrite (ids_keeps s1 s2 K). unfold ids.
        change (subscriptions s1) with (subscriptions s).
        apply Forall_fmap_ext_1. exact Hold. }
    destruct (String.eqb (url_of s stored) (Sub.url updatedSub)); cbn [negb fst snd].
    + split_and!; try done. apply (Hgen s1), keeps_refl.
    + set (s1' := modify u (Sub.set_nodeCount 0) s1).
      pose proof (refresh_shape (id_of s1' u) false s1') as Hshape.
      assert (K1 : keeps s1 s1') by (by apply keeps_modify).
      assert (Hobj' : heap s1' !! u = Some (Sub.set_nodeCount 0 updatedSub)).
      { unfold s1'. by rewrite heap_modify, lookup_alter_eq, Hobj. }
      assert (Hnot : find_sub (id_of s1' u) s1' <> Some u).
      { intros Hc. apply find_sub_In in Hc as [Hin _].
        change (subscriptions s1') with (subscriptions s) in Hin.
        rewrite Forall_forall in Ha. apply list_elem_of_In, Ha in Hin. lia. }
      destruct (refresh_target s1' (id_of s1' u)) as [url|] eqn:Ht.
      * destruct Hshape as (s2 & k & Heq & K2 & _).
        unfold refresh_target in Ht.
        destruct (find_sub (id_of s1' u) s1') as [l|] eqn:Hf; [|done].
        destruct (is_http (url_of s1' l)) eqn:Hh; [|done].
        assert (Hs2 : s2 = modify l (Sub.set_isUpdating true) s1').
        { unfold handleUpdateNodeCount in Heq. rewrite Hf, Hh in Heq.
          cbn [negb try_finally try_catch await_fetch] in Heq. by injection Heq as <- _ _. }
        rewrite Heq. cbn [task_store]. split_and!.
        -- by rewrite (keeps_subscriptions _ _ K2).
        -- apply Hgen. eapply keeps_trans; eauto.
        -- by rewrite Hs2.
        -- change (heap (markDirty ?x)) with (heap x). cbn [heap set_subscriptions].
           rewrite Hs2, heap_modify, lookup_alter_ne by congruence. exact Hobj'.
      * rewrite Hshape. cbn [task_store]. split_and!; try done.
        apply Hgen. exact K1.
  - split_and!; try done. intros l Hne.
    change (heap (s1, @nil task).1) with (<[u := updatedSub]> (heap s)).
    by rewrite lookup_insert_ne.
Qed.

(** ** What a refresh writes *)

(** The store a refresh of the object at [l] leaves when its fetch settles
    with [o] in [s']. *)
Lemma refresh_runs (subId : string) (isInitialLoad : bool) (s : store) (l : loc) :
  find_sub subId s = Some l -> is_http (url_of s l) = true ->
  exists k,
    handleUpdateNodeCount subId isInitialLoad s
    = AwaitFetch (if isInitialLoad then s else modify l (Sub.set_isUpdating true) s)
                 (url_of s l) k
    /\ forall o s',
         k o s'
         = Done Normal
             (modify l (Sub.set_isUpdating false)
                match o with
                | FetchResolved data =>
                    let s1 := modify l (Sub.set_userInfo (fetched_userInfo data))
                                (modify l (Sub.set_nodeCount (default 0 (count data))) s') in
                    if isInitialLoad then s1
                    else markDirty (showToast (MsgUpdateOk (name_of s1 l)) success s1)
                | FetchRejected _ =>
                    console_error "Failed to fetch node count"
                      (if isInitialLoad then s'
                       else showToast (MsgUpdateFailed (name_of s' l)) error s')
                end).
Proof.
  intros Hfind Hhttp. unfold handleUpdateNodeCount. rewrite Hfind, Hhttp.
  cbn [negb].
  assert (Hurl : url_of (if negb isInitialLoad
                         then modify l (Sub.set_isUpdating true) s else s) l
                 = url_of s l).
  { destruct isInitialLoad; simpl; [done|]. by apply read_modify_same. }
  rewrite Hurl. cbn [try_finally try_catch await_fetch].
  eexists. split; [by destruct isInitialLoad|].
  intros [d|e] s'; by destruct isInitialLoad.
Qed.

Lemma name_of_record (s : store) (l : loc) (r : Sub.t) :
  heap s !! l = Some r -> name_of s l = Sub.name r.
Proof. intros H. unfold name_of, read. by rewrite H. Qed.

(** X7. A refresh whose fetch resolves writes the fetched values on the
    record it was started for: [nodeCount] becomes the fetched count, or 0
    when the count is missing or 0; [userInfo] becomes the fetched quota, or
    null; [isUpdating] becomes false. A user refresh then shows one success
    toast and marks dirty; an initial load does neither: it is silent. *)
Theorem refresh_success_writes_the_record
    (subId : string) (isInitialLoad : bool) (s : store) (l : loc) :
  find_sub subId s = Some l -> is_http (url_of s l) = true ->
  exists s1 k,
    handleUpdateNodeCount subId isInitialLoad s = AwaitFetch s1 (url_of s l) k
    /\ forall data s' r, heap s' !! l = Some r ->
         exists s'',
           k (FetchResolved data) s' = Done Normal s''
           /\ heap s'' !! l
              = Some (Sub.set_isUpdating false
                        (Sub.set_userInfo (fetched_userInfo data)
                           (Sub.set_nodeCount (default 0 (count data)) r)))
           /\ log s''
              = log s' ++ (if isInitialLoad then []
                           else [Toast (MsgUpdateOk (Sub.name r)) success; MarkDirty]).
Proof.
  intros Hfind Hhttp.
  destruct (refresh_runs subId isInitialLoad s l Hfind Hhttp) as (k & Hk & Hrun).
  eexists _, k. split; [exact Hk|]. intros data s' r Hr.
  eexists. split; [apply Hrun|]. cbv zeta.
  destruct isInitialLoad; cbv beta iota.
  - split; [by rewrite !heap_modify, !lookup_alter_eq, Hr|].
    cbn [log modify set_heap]. by rewrite app_nil_r.
  - assert (Hname : forall u c, name_of (modify l (Sub.set_userInfo u)
                                          (modify l (Sub.set_nodeCount c) s')) l
                                = Sub.name r).
    { intros u c. unfold name_of. rewrite !read_modify_same by done.
      by apply name_of_record. }
    rewrite Hname. split.
    + rewrite heap_modify. change (heap (markDirty (showToast ?m ?v ?x))) with (heap x).
      by rewrite !heap_modify, !lookup_alter_eq, Hr.
    + cbn [log modify set_heap markDirty showToast emit]. by rewrite <- app_assoc.
Qed.

(** X8. Whatever the fetch of a refresh settles with, and in whatever
    store, the refresh touches one object only, and on it only [nodeCount],
    [userInfo] and [isUpdating]: every other object, the collection, the
    page, the timers and both interval settings are as they were. An
    initial load shows no toast and marks nothing dirty whatever the
    outcome; its only trace after a failed fetch is one console error. *)
Theorem refresh_touches_one_record
    (subId : string) (isInitialLoad : bool) (s : store) (l : loc) :
  find_sub subId s = Some l -> is_http (url_of s l) = true ->
  exists s1 k,
    handleUpdateNodeCount subId isInitialLoad s = AwaitFetch s1 (url_of s l) k
    /\ forall o s', exists s'',
         k o s' = Done Normal s''
         /\ (forall l', l' <> l -> heap s'' !! l' = heap s' !! l')
         /\ (forall r, heap s' !! l = Some r ->
               exists r', heap s'' !! l = Some r' /\ blank_metrics r' = blank_metrics r)
         /\ subscriptions s'' = subscriptions s'
         /\ subsCurrentPage s'' = subsCurrentPage s'
         /\ timers s'' = timers s'
         /\ updateInterval s'' = updateInterval s'
         /\ updateTimer s'' = updateTimer s'
         /\ (isInitialLoad = true ->
               log s'' = log s' ++ (if o is FetchRejected _
                                    then [ConsoleError "Failed to fetch node count"]
                                    else [])).
Proof.
  intros Hfind Hhttp.
  destruct (refresh_runs subId isInitialLoad s l Hfind Hhttp) as (k & Hk & Hrun).
  eexists _, k. split; [exact Hk|]. intros o s'.
  eexists. split; [apply Hrun|].
  destruct o as [data|e]; destruct isInitialLoad; cbv zeta; split_and!;
    try reflexivity; try discriminate.
  all: try (intros l' Hne;
            repeat first [ rewrite heap_modify, lookup_alter_ne by done
                         | progress change (heap (emit ?e ?x)) with (heap x)
                         | progress unfold markDirty, showToast, console_error ];
            reflexivity).
  all: try (intros r Hr; eexists; split;
            [ repeat first [ rewrite heap_modify, lookup_alter_eq
                           | progress change (heap (emit ?e ?x)) with (heap x)
                           | progress unfold markDirty, showToast, console_error ];
              rewrite Hr; reflexivity
            | reflexivity ]).
  all: intros _; cbn [log modify set_heap console_error emit]; by rewrite ?app_nil_r.
Qed.

(** ** The global timer *)

Lemma setupAutoUpdate_spec (s : store) :
  global_timers_tracked s ->
  let s' := setupAutoUpdate s in
  global_timer_ok s'
  /\ updateInterval s' = updateInterval s
  /\ (0 < updateInterval s ->
        exists h, updateTimer s' = Some h
                  /\ timers s' !! h
                     = Some {| period := updateInterval s * 60 * 1000; fires := GlobalTick |})
  /\ (updateInterval s <= 0 -> updateTimer s' = None)
  /\ (forall h tm, timers s' !! h = Some tm -> fires tm <> GlobalTick ->
        timers s !! h = Some tm)
  /\ (forall h, updateTimer s <> Some h -> (h < next_handle s)%nat ->
        timers s' !! h = timers s !! h)
  /\ heap s' = heap s /\ subscriptions s' = subscriptions s
  /\ subsCurrentPage s' = subsCurrentPage s /\ next_loc s' = next_loc s
  /\ log s' = log s.
Proof.
  intros Htr. unfold setupAutoUpdate.
  set (s0 := match updateTimer s with
             | Some h => set_updateTimer None (clearInterval h s)
             | None => s
             end).
  assert (H0 : updateTimer s0 = None /\ updateInterval s0 = updateInterval s
               /\ next_handle s0 = next_handle s
               /\ (forall h tm, timers s0 !! h = Some tm ->
                     timers s !! h = Some tm /\ updateTimer s <> Some h)
               /\ (forall h, updateTimer s <> Some h -> timers s0 !! h = timers s !! h)
               /\ heap s0 = heap s /\ subscriptions s0 = subscriptions s
               /\ subsCurrentPage s0 = subsCurrentPage s /\ next_loc s0 = next_loc s
               /\ log s0 = log s).
  { unfold s0. destruct (updateTimer s) as [h0|] eqn:Hu.
    - cbn [updateTimer updateInterval next_handle timers set_updateTimer clearInterval
           heap subscriptions subsCurrentPage next_loc log].
      split_and!; try done.
      + intros h tm Hh. apply lookup_delete_Some in Hh as [Hne Hh]. split; [done|congruence].
      + intros h Hne. apply lookup_delete_ne. congruence.
    - split_and!; try done; intros h tm Hh; split; done. }
  destruct H0 as (U0 & I0 & N0 & T0 & T0' & Hh0 & Hs0 & Hp0 & Hl0 & Hg0).
  assert (Hnone : forall h tm, timers s0 !! h = Some tm -> fires tm <> GlobalTick).
  { intros h tm Hh Hg. destruct (T0 h tm Hh) as [Hs Hne]. apply Hne. by apply (Htr h tm). }
  clearbody s0. rewrite I0.
  destruct (0 <? updateInterval s) eqn:Hpos; cbv zeta.
  - apply Z.ltb_lt in Hpos. unfold global_timer_ok, setInterval, set_updateTimer. simpl.
    split_and!; try done.
    + intros h tm Hh Hg. destruct (decide (h = next_handle s0)) as [->|Hne].
      * rewrite lookup_insert_eq in Hh. injection Hh as <-. cbn [period]. by rewrite ?I0.
      * rewrite lookup_insert_ne in Hh by done. by destruct (Hnone h tm Hh).
    + intros _. eexists. split; [done|]. by rewrite lookup_insert_eq, ?I0.
    + lia.
    + intros h tm Hh Hg. destruct (decide (h = next_handle s0)) as [->|Hne].
      * rewrite lookup_insert_eq in Hh. injection Hh as <-. done.
      * rewrite lookup_insert_ne in Hh by done. by destruct (T0 h tm Hh).
    + intros h Hne Hlt. rewrite lookup_insert_ne by lia. by apply T0'.
  - apply Z.ltb_ge in Hpos. unfold global_timer_ok. split_and!; try done.
    + intros h tm Hh Hg. by destruct (Hnone h tm Hh).
    + lia.
    + intros h tm Hh _. by destruct (T0 h tm Hh).
    + intros h Hne _. by apply T0'.
Qed.

(** X9. [handleUpdateIntervalChange newInterval], when every live global
    timer is the tracked one: afterwards the interval is [newInterval]; for
    [newInterval <= 0] no global timer is live and none is tracked, so no
    further batch tick occurs; for [newInterval > 0] exactly the tracked
    timer is global, ticking every [newInterval * 60 * 1000]; the timer
    tracked before is cancelled in both cases, no other timer is created and
    no untracked timer with an earlier handle is touched. *)
Theorem interval_change_rearms_the_global_timer (newInterval : Z) (s : store) :
  global_timers_tracked s ->
  let s' := handleUpdateIntervalChange newInterval s in
  updateInterval s' = newInterval
  /\ global_timer_ok s'
  /\ (newInterval <= 0 ->
        updateTimer s' = None
        /\ forall h tm, timers s' !! h = Some tm -> fires tm <> GlobalTick)
  /\ (0 < newInterval ->
        exists h, updateTimer s' = Some h
                  /\ timers s' !! h
                     = Some {| period := newInterval * 60 * 1000; fires := GlobalTick |})
  /\ (forall h tm, timers s' !! h = Some tm -> fires tm <> GlobalTick ->
        timers s !! h = Some tm)
  /\ (forall h, updateTimer s <> Some h -> (h < next_handle s)%nat ->
        timers s' !! h = timers s !! h).
Proof.
  intros Htr. unfold handleUpdateIntervalChange.
  destruct (setupAutoUpdate_spec (set_updateInterval newInterval s) Htr)
    as (Hok & Hi & Hpos & Hneg & Hitem & Hother & _).
  cbv zeta. cbn [updateInterval set_updateInterval] in Hi, Hpos, Hneg.
  split_and!; try done.
  intros Hle. split; [by apply Hneg|].
  intros h tm Hh Hg. destruct (Hok h tm Hh Hg) as (_ & Hp & _). rewrite Hi in Hp. lia.
Qed.

(** X10. The start-up configuration: [initializeUpdateInterval] asks for the
    settings. When the call fails, the interval, the tracked timer and
    the timers stay as they are and one console error is written. When it
    resolves, the outcome is that of [handleUpdateIntervalChange] with the
    settings' interval, a missing interval counting as 0; so with a missing
    or non-positive interval no global timer is live afterwards. *)
Theorem settings_configure_the_global_timer (s : store) :
  exists k,
    initializeUpdateInterval s = AwaitSettings s k
    /\ (forall e s', exists s'',
          k (SettingsRejected e) s' = Done Normal s''
          /\ timers s'' = timers s' /\ updateInterval s'' = updateInterval s'
          /\ updateTimer s'' = updateTimer s'
          /\ log s'' = log s' ++ [ConsoleError "Failed to fetch settings"])
    /\ (forall st s',
          k (SettingsResolved st) s'
          = Done Normal (handleUpdateIntervalChange
                           (default 0 (settings_updateInterval st)) s'))
    /\ (forall st s', global_timers_tracked s' ->
          default 0 (settings_updateInterval st) <= 0 ->
          exists s'', k (SettingsResolved st) s' = Done Normal s''
                      /\ updateTimer s'' = None
                      /\ forall h tm, timers s'' !! h = Some tm -> fires tm <> GlobalTick).
Proof.
  eexists. split; [reflexivity|]. split_and!.
  - intros e s'. eexists. split; [reflexivity|]. done.
  - reflexivity.
  - intros st s' Htr Hle. eexists. split; [reflexivity|].
    destruct (setupAutoUpdate_spec
                (set_updateInterval (default 0 (settings_updateInterval st)) s') Htr)
      as (Hok & Hi & _ & Hneg & _).
    cbn [updateInterval set_updateInterval] in Hi, Hneg.
    split; [by apply Hneg|].
    intros h tm Hh Hg. destruct (Hok h tm Hh Hg) as (_ & Hp & _).
    rewrite Hi in Hp. lia.
Qed.

(** ** Tearing down and re-arming *)

Lemma tracked_in_ext (s s' : store) (ls : list loc) :
  (forall l, read Sub.updateTimers None s' l = read Sub.updateTimers None s l) ->
  tracked_in s' ls = tracked_in s ls.
Proof.
  intros H. unfold tracked_in. induction ls as [|l ls IH]; [done|].
  cbn [flat_map]. rewrite IH. f_equal. unfold tracked_of. by rewrite H.
Qed.

Lemma tracked_of_in (s : store) (ls : list loc) (l : loc) (h : handle) :
  l ∈ ls -> h ∈ tracked_of s l -> h ∈ tracked_in s ls.
Proof.
  intros Hl Hh. unfold tracked_in. induction Hl as [l ls|l l0 ls Hl IH]; cbn [flat_map].
  - apply elem_of_app. by left.
  - apply elem_of_app. right. by apply IH.
Qed.

Lemma updateTimer_clearTimersOf (s : store) (l : loc) :
  updateTimer (clearTimersOf s l) = updateTimer s.
Proof.
  unfold clearTimersOf.
  destruct (read Sub.updateTimers None s l) as [[|h hs]|]; try done.
  cbn [updateTimer modify set_heap]. generalize (h :: hs). intros hs'. revert s.
  induction hs' as [|h' hs' IH]; intros s; [done|]. cbn [fold_left]. by rewrite IH.
Qed.

Lemma updateTimer_clear_fold (ls : list loc) (s : store) :
  updateTimer (fold_left clearTimersOf ls s) = updateTimer s.
Proof.
  revert s. induction ls as [|l ls IH]; intros s; [done|]. cbn [fold_left].
  by rewrite IH, updateTimer_clearTimersOf.
Qed.

(** X11. [onUnmounted], on a collection without repeated references: no
    global timer is tracked any more and the one that was is cancelled;
    every handle tracked by a record of the collection is cancelled and
    every such record tracks none; no timer is created, and a timer that
    was tracked by nothing in the collection stays live. *)
Theorem unmount_cancels_the_tracked_timers (s : store) :
  NoDup (subscriptions s) ->
  let s' := onUnmounted s in
  updateTimer s' = None
  /\ (forall h, updateTimer s = Some h -> timers s' !! h = None)
  /\ (forall l h, l ∈ subscriptions s -> h ∈ tracked_of s l -> timers s' !! h = None)
  /\ (forall l, l ∈ subscriptions s -> tracked_of s' l = [])
  /\ (forall h tm, timers s' !! h = Some tm -> timers s !! h = Some tm)
  /\ (forall h, updateTimer s <> Some h -> h ∉ tracked_in s (subscriptions s) ->
        timers s' !! h = timers s !! h)
  /\ subscriptions s' = subscriptions s.
Proof.
  intros Hnd. unfold onUnmounted, clearIndividualUpdateTimers.
  set (s0 := match updateTimer s with
             | Some h => set_updateTimer None (clearInterval h s)
             | None => s
             end).
  assert (H0 : updateTimer s0 = None /\ heap s0 = heap s
               /\ subscriptions s0 = subscriptions s
               /\ (forall h, timers s0 !! h
                             = if decide (updateTimer s = Some h) then None
                               else timers s !! h)).
  { unfold s0. destruct (updateTimer s) as [h0|] eqn:Hu.
    - split_and!; try done. intros h. cbn [timers set_updateTimer clearInterval].
      destruct (decide (Some h0 = Some h)) as [[= ->]|Hne].
      + apply lookup_delete_eq.
      + apply lookup_delete_ne. congruence.
    - split_and!; try done. }
  destruct H0 as (U0 & Hh0 & Hs0 & T0). clearbody s0.
  assert (Hnd0 : NoDup (subscriptions s0)) by (by rewrite Hs0).
  destruct (clear_fold_spec (subscriptions s0) s0 Hnd0) as (C1 & C2 & C3 & C4).
  assert (Htr : tracked_in s0 (subscriptions s0) = tracked_in s (subscriptions s)).
  { rewrite Hs0. apply tracked_in_ext. intros l. unfold read. by rewrite Hh0. }
  pose proof (updateTimer_clear_fold (subscriptions s0) s0) as Hkeep.
  cbv zeta. rewrite Htr in C4. rewrite Hs0 in *. split_and!.
  - by rewrite Hkeep.
  - intros h Hh. rewrite C4, T0. rewrite (decide_True _ _ Hh). by destruct (decide _).
  - intros l h Hl Hh. rewrite C4.
    rewrite decide_True; [done|]. by eapply tracked_of_in.
  - intros l Hl. unfold tracked_of, read. rewrite C3, decide_True by done.
    rewrite Hh0. destruct (heap s !! l) as [r|]; [|done]. cbn [fmap option_fmap option_map].
    unfold cleared. destruct (Sub.updateTimers r) as [[|t ts]|] eqn:E; cbn; by rewrite ?E.
  - intros h tm Hh. rewrite C4, T0 in Hh.
    destruct (decide (h ∈ tracked_in s (subscriptions s))); [done|].
    by destruct (decide (updateTimer s = Some h)).
  - intros h Hne Hnin. rewrite C4, T0. by rewrite !decide_False.
  - done.
Qed.

(** X12. [handleSubscriptionUpdateIntervalChange subId newInterval] does
    nothing when no record has the id. Otherwise, on a collection without
    repeated references, it stores the interval on the first record with
    that id and re-arms: that record then tracks exactly one handle, of a
    live timer with its period, when it is enabled with an [http] URL and
    the new interval is positive, and tracks none otherwise; and every
    per-item timer that any record of the collection tracked before is
    cancelled, not only those of the changed record. *)
Theorem item_interval_change_rearms_all
    (subId : string) (newInterval : option Z) (s : store) :
  (find_sub subId s = None ->
     handleSubscriptionUpdateIntervalChange subId newInterval s = s)
  /\ (forall l r,
        find_sub subId s = Some l -> heap s !! l = Some r ->
        NoDup (subscriptions s) ->
        let r' := Sub.set_updateInterval newInterval r in
        let s' := handleSubscriptionUpdateIntervalChange subId newInterval s in
        (if wants_timer r'
         then exists h, heap s' !! l = Some (Sub.set_updateTimers (Some [h]) r')
                        /\ timers s' !! h = Some (item_timer l r')
         else heap s' !! l = Some (cleared r') /\ tracked_of s' l = [])
        /\ (forall h, h ∈ tracked_in s (subscriptions s) -> (h < next_handle s)%nat ->
              timers s' !! h = None)
        /\ subscriptions s' = subscriptions s).
Proof.
  unfold handleSubscriptionUpdateIntervalChange. split; [intros Hn; by rewrite Hn|].
  intros l r Hfind Hr Hnd. rewrite Hfind. cbv zeta.
  apply find_sub_In in Hfind as [Hin _]. apply list_elem_of_In in Hin.
  set (s0 := modify l (Sub.set_updateInterval newInterval) s).
  assert (Hr0 : heap s0 !! l = Some (Sub.set_updateInterval newInterval r)).
  { unfold s0. by rewrite heap_modify, lookup_alter_eq, Hr. }
  assert (Htr0 : tracked_in s0 (subscriptions s) = tracked_in s (subscriptions s)).
  { apply tracked_in_ext. intros l'. by apply read_modify_same. }
  set (r' := Sub.set_updateInterval newInterval r) in *. clearbody r'.
  unfold setupIndividualUpdateTimers, clearIndividualUpdateTimers.
  change (subscriptions s0) with (subscriptions s).
  destruct (clear_fold_spec (subscriptions s) s0 Hnd) as (C1 & C2 & C3 & C4).
  set (s1 := fold_left clearTimersOf (subscriptions s) s0) in *.
  change (subscriptions s0) with (subscriptions s) in C1.
  change (next_handle s0) with (next_handle s) in C2.
  rewrite C1. rewrite Htr0 in C4.
  destruct (arm_fold_spec (subscriptions s) s1 Hnd) as (A1 & A2 & A3 & A4 & A5 & A6).
  set (s' := fold_left armTimerOf (subscriptions s) s1) in *.
  assert (Hr1 : heap s1 !! l = Some (cleared r')).
  { rewrite C3, decide_True by done. by rewrite Hr0. }
  specialize (A4 l (cleared r') Hin Hr1).
  destruct (cleared_facts r' l 0%nat) as (F1 & _). rewrite F1 in A4.
  split_and!.
  - destruct (wants_timer r').
    + destruct A4 as (h & _ & Hheap & Htm). exists h.
      destruct (cleared_facts r' l h) as (_ & F2 & F3). by rewrite <- F3, <- F2.
    + split; [done|]. unfold tracked_of, read. rewrite A4. unfold cleared.
      destruct (Sub.updateTimers r') as [[|t ts]|] eqn:E; simpl; by rewrite ?E.
  - intros h Hh Hlt. rewrite A5 by lia. rewrite C4. by rewrite decide_True.
  - congruence.
Qed.

(** ** The global tick *)

(** X13. The global tick never throws. It submits the ids of exactly the
    records of the collection that are enabled with a URL starting with
    [http], in the collection's order, and calls nothing when there is
    none. When the batch call reports overall success it shows one toast
    with the number of successful entries out of the number of records
    submitted and marks dirty, also when no entry was successful. *)
Theorem global_tick_submits_the_enabled_records (s : store) :
  never_throws (globalTick s)
  /\ (forall l, l ∈ chosen_by_global_tick s <->
        l ∈ subscriptions s /\ read Sub.enabled false s l = true
        /\ is_http (url_of s l) = true)
  /\ match chosen_by_global_tick s with
     | [] => globalTick s = Done Normal s
     | _ :: _ =>
         exists k,
           globalTick s = AwaitBatch s (map (id_of s) (chosen_by_global_tick s)) k
           /\ forall result s', batch_success result = true ->
                exists s'',
                  k (BatchResolved result) s' = Done Normal s''
                  /\ log s''
                     = log s' ++ [Toast (MsgAutoUpdateDone
                                           (successCount (results result))
                                           (length (chosen_by_global_tick s))) success;
                                  MarkDirty]
     end.
Proof.
  split_and!.
  - unfold globalTick. destruct (0 <? length _)%nat; [|done].
    cbn [try_catch await_batch never_throws].
    intros [r|e] s'; [|done]. by destruct (batch_success r).
  - intros l. unfold chosen_by_global_tick.
    rewrite list_elem_of_In, filter_In, <- list_elem_of_In, andb_true_iff. done.
  - unfold globalTick. fold (chosen_by_global_tick s).
    destruct (chosen_by_global_tick s) as [|l0 ls] eqn:Hc; [done|].
    cbn [length Nat.ltb Nat.leb try_catch await_batch].
    eexists. split; [reflexivity|]. intros result s' Hok. cbn beta iota. rewrite Hok.
    eexists. split; [reflexivity|].
    cbn [log markDirty showToast emit].
    destruct (applyBatchResults_frame (results result) s') as (_ & _ & _ & Hlog).
    rewrite Hlog, <- app_assoc. done.
Qed.

(** ** Batch results, caller by caller *)

Lemma globalTick_submits (s : store) :
  match chosen_by_global_tick s with
  | [] => globalTick s = Done Normal s
  | _ :: _ =>
      exists k, globalTick s = AwaitBatch s (map (id_of s) (chosen_by_global_tick s)) k
                /\ applies_results k
  end.
Proof.
  destruct (chosen_by_global_tick s) as [|l0 ls] eqn:Hc.
  - unfold globalTick. fold (chosen_by_global_tick s). by rewrite Hc.
  - assert (Hk : exists k, globalTick s = AwaitBatch s (map (id_of s) (l0 :: ls)) k).
    { unfold globalTick. fold (chosen_by_global_tick s). rewrite Hc.
      cbn [length Nat.ltb Nat.leb try_catch await_batch]. eexists. reflexivity. }
    destruct Hk as [k Hk]. exists k. split; [exact Hk|].
    by apply (globalTick_applies s s (map (id_of s) (l0 :: ls))).
Qed.

Lemma bulk_submits (subs : list Sub.t) (s : store) :
  match http_records subs with
  | [] => exists s0, addSubscriptionsFromBulk subs s = Done Normal s0
  | _ :: _ =>
      exists s0 k,
        addSubscriptionsFromBulk subs s = AwaitBatch s0 (map Sub.id (http_records subs)) k
        /\ applies_results k
  end.
Proof.
  assert (Hshape : match http_records subs with
                   | [] => exists s0, addSubscriptionsFromBulk subs s = Done Normal s0
                   | _ :: _ =>
                       exists s0 k, addSubscriptionsFromBulk subs s
                                    = AwaitBatch s0 (map Sub.id (http_records subs)) k
                   end).
  { unfold addSubscriptionsFromBulk.
    destruct (alloc_all_objects subs s) as (A1 & A2 & _).
    destruct (alloc_all subs s) as [ls s1]. cbn [fst snd] in *.
    set (s2 := markDirty (set_subscriptions (ls ++ subscriptions s1) s1)).
    assert (A2' : Forall2 (fun l r => heap s2 !! l = Some r) ls subs) by exact A2.
    destruct (http_records_of_locs s2 ls subs A2') as [Hids Hlen].
    clear A2'. subst s2.
    match goal with
    | |- context [List.filter ?f ls] => set (subsToUpdate := List.filter f ls) in *
    end.
    assert (Hlen' : length subsToUpdate = length (http_records subs)) by exact Hlen.
    assert (Hids' : forall m lvl,
              map (id_of (showToast m lvl
                            (markDirty (set_subscriptions (ls ++ subscriptions s1) s1))))
                  subsToUpdate
              = map Sub.id (http_records subs)) by (intros; exact Hids).
    clear Hlen Hids.
    destruct (http_records subs) as [|r0 rest] eqn:Hhttp.
    - assert (Hnone : (0 <? length subsToUpdate)%nat = false).
      { apply Nat.ltb_ge. rewrite Hlen'. simpl. lia. }
      rewrite Hnone. eexists. reflexivity.
    - assert (Hsome : (0 <? length subsToUpdate)%nat = true).
      { apply Nat.ltb_lt. rewrite Hlen'. simpl. lia. }
      rewrite Hsome. cbn [try_catch await_batch]. eexists _, _. f_equal. apply Hids'. }
  destruct (http_records subs) as [|r0 rest]; [exact Hshape|].
  destruct Hshape as (s0 & k & Hk). exists s0, k. split; [exact Hk|].
  by apply (bulk_applies subs s s0 (map Sub.id (r0 :: rest))).
Qed.

(** C3. Every caller of [batchUpdateNodes] does submit and does apply. The
    global tick submits the ids of the enabled [http] records whenever
    there is one, the bulk import those of the imported [http] records
    whenever there is one, the per-item tick the id of its record; without
    such a record the first two call nothing. When the call resolves with
    overall success, each of them applies the per-id results to the store
    it resumes in and finishes: it waits for no further call, so no
    single-item refresh follows, whatever the per-id flags. Applying the
    results overwrites [nodeCount] on the record found for each id that has
    a successful entry (with the value of the last such entry) and writes
    nothing else: [userInfo] and every other property of every record stay
    as they were, and an object whose id has no successful entry (failed or
    unlisted) is unchanged. *)
Theorem batch_partial_success :
  (forall s,
     match chosen_by_global_tick s with
     | [] => globalTick s = Done Normal s
     | _ :: _ =>
         exists k, globalTick s = AwaitBatch s (map (id_of s) (chosen_by_global_tick s)) k
                   /\ applies_results k
     end)
  /\ (forall subs s,
        match http_records subs with
        | [] => exists s0, addSubscriptionsFromBulk subs s = Done Normal s0
        | _ :: _ =>
            exists s0 k,
              addSubscriptionsFromBulk subs s
              = AwaitBatch s0 (map Sub.id (http_records subs)) k
              /\ applies_results k
        end)
  /\ (forall sub s, exists k,
        itemTick sub s = AwaitBatch s [id_of s sub] k /\ applies_results k)
  /\ (forall rs s i l r,
        successful_id rs i -> find_sub i s = Some l -> heap s !! l = Some r ->
        exists v, last_success rs i = Some v
                  /\ heap (applyBatchResults rs s) !! l = Some (Sub.set_nodeCount v r))
  /\ (forall rs s l,
        (forall e, In e rs -> entry_success e = true -> entry_id e <> id_of s l) ->
        heap (applyBatchResults rs s) !! l = heap s !! l)
  /\ (forall rs s l r, heap s !! l = Some r ->
        exists v, heap (applyBatchResults rs s) !! l = Some (overwrite v r)
                  /\ Sub.userInfo (overwrite v r) = Sub.userInfo r
                  /\ Sub.set_nodeCount 0 (overwrite v r) = Sub.set_nodeCount 0 r).
Proof.
  split; [exact globalTick_submits|]. split; [exact bulk_submits|].
  split; [|split; [|split]].
  - intros sub s. eexists. split; [reflexivity|].
    eapply (itemTick_applies sub s). reflexivity.
  - intros rs s i l r Hsucc Hfind Hr.
    destruct (last_success_Some rs i Hsucc) as [v Hv]. exists v. split; [done|].
    rewrite applyBatchResults_heap, Hr. unfold written_by.
    apply find_sub_In in Hfind as Hl. destruct Hl as [_ Hid].
    rewrite Hid, Hfind, Hv. by destruct (decide (l = l)).
  - intros rs s l Hnone. rewrite applyBatchResults_heap. unfold written_by.
    rewrite (last_success_None rs (id_of s l) Hnone).
    destruct (find_sub (id_of s l) s) as [l'|]; [destruct (decide (l' = l))|];
      by destruct (heap s !! l).
  - intros rs s l r Hr. exists (written_by rs s l).
    rewrite applyBatchResults_heap, Hr. split; [done|].
    by destruct (written_by rs s l).
Qed.

(** ** What every reachable state satisfies *)

Section Frames.

Variable R : store -> store -> Prop.
Hypothesis R_refl : forall s, R s s.
Hypothesis R_trans : forall s1 s2 s3, R s1 s2 -> R s2 s3 -> R s1 s3.

Lemma follows_bind (s : store) (t : task) (f : store -> task) :
  R s (task_store t) -> follows R t ->
  (forall s1, R s1 (task_store (f s1)) /\ follows R (f s1)) ->
  R s (task_store (bind t f)) /\ follows R (bind t f).
Proof.
  intros K St Hf. revert s K St.
  induction t as [c s1|s1 u k IH|s1 ids0 k IH|s1 k IH]; intros s K St; simpl in *.
  - destruct c; [|by split]. destruct (Hf s1) as [K1 F1]. split; [|done].
    by apply (R_trans _ s1).
  - split; [done|]. intros o s'. destruct (St o s') as [K' St']. by apply IH.
  - split; [done|]. intros o s'. destruct (St o s') as [K' St']. by apply IH.
  - split; [done|]. intros o s'. destruct (St o s') as [K' St']. by apply IH.
Qed.

Lemma follows_try_catch (s : store) (t : task) (h : string -> store -> task) :
  R s (task_store t) -> follows R t ->
  (forall e s1, R s1 (task_store (h e s1)) /\ follows R (h e s1)) ->
  R s (task_store (try_catch t h)) /\ follows R (try_catch t h).
Proof.
  intros K St Hh. revert s K St.
  induction t as [c s1|s1 u k IH|s1 ids0 k IH|s1 k IH]; intros s K St; simpl in *.
  - destruct c; [by split|]. destruct (Hh err s1) as [K1 F1]. split; [|done].
    by apply (R_trans _ s1).
  - split; [done|]. intros o s'. destruct (St o s') as [K' St']. by apply IH.
  - split; [done|]. intros o s'. destruct (St o s') as [K' St']. by apply IH.
  - split; [done|]. intros o s'. destruct (St o s') as [K' St']. by apply IH.
Qed.

Lemma follows_try_finally (s : store) (t : task) (fin : store -> store) :
  R s (task_store t) -> follows R t -> (forall s1, R s1 (fin s1)) ->
  (match t with Done _ _ => False | _ => True end) ->
  R s (task_store (try_finally t fin)) /\ follows R (try_finally t fin).
Proof.
  intros K St Hfin Hsusp.
  assert (Hgen : forall t', follows R t' ->
            follows R (try_finally t' fin)
            /\ forall s0, R s0 (task_store t') ->
                 match t' with
                 | Done _ _ => R s0 (task_store (try_finally t' fin))
                 | _ => True
                 end).
  { induction t' as [c s1|s1 u k IH|s1 ids0 k IH|s1 k IH]; intros St'; simpl in *.
    - split; [done|]. intros s0 K0. by apply (R_trans _ s1).
    - split; [|done]. intros o s'. destruct (St' o s') as [K' St''].
      destruct (IH o s' St'') as [F G]. split; [|done].
      specialize (G s' K'). destruct (k o s'); simpl in *; done.
    - split; [|done]. intros o s'. destruct (St' o s') as [K' St''].
      destruct (IH o s' St'') as [F G]. split; [|done].
      specialize (G s' K'). destruct (k o s'); simpl in *; done.
    - split; [|done]. intros o s'. destruct (St' o s') as [K' St''].
      destruct (IH o s' St'') as [F G]. split; [|done].
      specialize (G s' K'). destruct (k o s'); simpl in *; done. }
  destruct (Hgen t St) as [F _]. split; [|done].
  destruct t; simpl in *; done.
Qed.

End Frames.

Lemma benign_refl (s : store) : benign s s.
Proof. by constructor. Qed.

Lemma benign_trans (s1 s2 s3 : store) : benign s1 s2 -> benign s2 s3 -> benign s1 s3.
Proof.
  intros [A1 A2 A3 A4 A5 A6] [B1 B2 B3 B4 B5 B6].
  constructor; try congruence. intros h tm Hh Hg. apply A6; [|done]. by apply B6.
Qed.

Lemma benign_emit (e : event) (s : store) : benign s (emit e s).
Proof. by constructor. Qed.

Lemma benign_modify (l : loc) (f : Sub.t -> Sub.t) (s : store) : benign s (modify l f s).
Proof. by constructor. Qed.

Lemma good_benign (s s' : store) : benign s s' -> good s -> good s'.
Proof.
  intros [B1 B2 B3 B4 B5 B6] (G1 & G2 & G3 & G4).
  unfold good, allocated in *. rewrite B1, B2, B3. split_and!; try done.
  intros h tm Hh Hg. rewrite B4, B5. apply G4; [|done]. by apply B6.
Qed.

Lemma follows_upholds (t : task) : follows benign t -> upholds good t.
Proof.
  induction t as [c s1|s1 u k IH|s1 ids0 k IH|s1 k IH]; simpl; [done|..].
  - intros H o s' G. destruct (H o s') as [B F]. split; [by apply (good_benign s')|by apply IH].
  - intros H o s' G. destruct (H o s') as [B F]. split; [by apply (good_benign s')|by apply IH].
  - intros H o s' G. destruct (H o s') as [B F]. split; [by apply (good_benign s')|by apply IH].
Qed.

(** A call whose every step is benign. *)
Lemma gentle_refresh (subId : string) (isInitialLoad : bool) (s : store) :
  benign s (task_store (handleUpdateNodeCount subId isInitialLoad s))
  /\ follows benign (handleUpdateNodeCount subId isInitialLoad s).
Proof.
  unfold handleUpdateNodeCount.
  destruct (find_sub subId s) as [l|]; [|split; [apply benign_refl|done]].
  destruct (is_http (url_of s l)); cbn [negb]; [|split; [apply benign_refl|done]].
  cbn [try_finally try_catch await_fetch task_store follows]. split.
  - destruct isInitialLoad; [apply benign_refl|apply benign_modify].
  - intros o s'. split; [|by destruct o, isInitialLoad].
    destruct o as [d|e]; destruct isInitialLoad; cbn [negb try_catch try_finally task_store];
      repeat first [ apply benign_refl
                   | eapply benign_trans; [|apply benign_modify]
                   | eapply benign_trans; [|apply benign_emit] ].
Qed.

Lemma gentle_refresh_each (ls : list loc) (s : store) :
  benign s (task_store (refresh_each ls s)) /\ follows benign (refresh_each ls s).
Proof.
  revert s. induction ls as [|l ls IH]; intros s; cbn [refresh_each].
  - split; [apply benign_refl|done].
  - destruct (gentle_refresh (id_of s l) false s) as [B F].
    apply follows_bind; [apply benign_trans|done|done|apply IH].
Qed.

Lemma benign_applyBatchResults (rs : list batch_entry) (s : store) :
  benign s (applyBatchResults rs s).
Proof.
  unfold applyBatchResults. revert s. induction rs as [|e rs IH]; intros s; simpl.
  - apply benign_refl.
  - eapply benign_trans; [|apply IH]. unfold applyBatchResult.
    destruct (entry_success e); [|apply benign_refl].
    destruct (find_sub (entry_id e) s); [apply benign_modify|apply benign_refl].
Qed.

Lemma gentle_batch_done (m : message) (rs : list batch_entry) (s : store) :
  benign s (markDirty (showToast m success (applyBatchResults rs s))).
Proof.
  eapply benign_trans; [apply benign_applyBatchResults|].
  eapply benign_trans; apply benign_emit.
Qed.

Lemma gentle_globalTick (s : store) :
  benign s (task_store (globalTick s)) /\ follows benign (globalTick s).
Proof.
  unfold globalTick. destruct (0 <? length _)%nat; [|split; [apply benign_refl|done]].
  cbn [try_catch await_batch task_store follows]. split; [apply benign_refl|].
  intros [r|e] s'; cbn [try_catch]; [destruct (batch_success r)|];
    cbn [try_catch task_store follows]; split; try done;
    first [apply gentle_batch_done | apply benign_emit].
Qed.

Lemma gentle_itemTick (sub : loc) (s : store) :
  benign s (task_store (itemTick sub s)) /\ follows benign (itemTick sub s).
Proof.
  unfold itemTick.
  cbn [try_catch await_batch task_store follows]. split; [apply benign_refl|].
  intros [r|e] s'; cbn [try_catch]; [destruct (batch_success r)|];
    cbn [try_catch task_store follows]; split; try done;
    first [apply gentle_batch_done | apply benign_emit].
Qed.

Lemma benign_clear_fold (ls : list loc) (s : store) :
  benign s (fold_left clearTimersOf ls s).
Proof.
  revert s. induction ls as [|l ls IH]; intros s; simpl; [apply benign_refl|].
  eapply benign_trans; [|apply IH]. unfold clearTimersOf.
  destruct (read Sub.updateTimers None s l) as [[|h hs]|]; try apply benign_refl.
  eapply benign_trans; [|apply benign_modify].
  generalize (h :: hs). intros hs'. clear. revert s.
  induction hs' as [|h hs IH]; intros s; simpl; [apply benign_refl|].
  eapply benign_trans; [|apply IH]. constructor; try done.
  intros h' tm Hh _. cbn [timers clearInterval] in Hh.
  by apply lookup_delete_Some in Hh as [_ Hh].
Qed.

Lemma benign_arm_fold (ls : list loc) (s : store) :
  benign s (fold_left armTimerOf ls s).
Proof.
  revert s. induction ls as [|l ls IH]; intros s; simpl; [apply benign_refl|].
  eapply benign_trans; [|apply IH]. unfold armTimerOf.
  destruct (heap s !! l) as [r|]; [|apply benign_refl].
  destruct (wants_timer r); [|apply benign_refl]. cbn [setInterval].
  eapply benign_trans; [|apply benign_modify].
  assert (B : benign s (snd (setInterval (ItemTick l)
                               (default 0 (Sub.updateInterval r) * 60 * 1000) s))).
  { constructor; try done. intros h tm Hh Hg. cbn [snd setInterval timers] in Hh.
    destruct (decide (h = next_handle s)) as [->|Hne].
    - rewrite lookup_insert_eq in Hh. injection Hh as <-. discriminate.
    - by rewrite lookup_insert_ne in Hh. }
  cbn [snd setInterval] in B.
  match goal with |- benign _ (match ?x with _ => _ end) => destruct x end.
  - exact B.
  - eapply benign_trans; [exact B|apply benign_modify].
Qed.

Lemma benign_setupIndividualUpdateTimers (s : store) :
  benign s (setupIndividualUpdateTimers s).
Proof.
  unfold setupIndividualUpdateTimers, clearIndividualUpdateTimers.
  eapply benign_trans; [apply benign_clear_fold|].
  rewrite (benign_subscriptions _ _ (benign_clear_fold (subscriptions s) s)).
  apply benign_arm_fold.
Qed.

Lemma global_timer_ok_same (s s' : store) :
  timers s' = timers s -> updateTimer s' = updateTimer s ->
  updateInterval s' = updateInterval s ->
  global_timer_ok s -> global_timer_ok s'.
Proof. intros Ht Hu Hi G h tm. rewrite Ht, Hu, Hi. apply G. Qed.

Lemma normalize_all_control (raws : list Raw.t) (s : store) :
  let ls := fst (normalize_all raws s) in
  let s' := snd (normalize_all raws s) in
  ls = seq (next_loc s) (length raws)
  /\ next_loc s' = (next_loc s + length raws)%nat
  /\ timers s' = timers s /\ updateTimer s' = updateTimer s
  /\ updateInterval s' = updateInterval s
  /\ subsCurrentPage s' = subsCurrentPage s.
Proof.
  revert s. induction raws as [|raw rest IH]; intros s.
  - simpl. split_and!; try done; lia.
  - rewrite normalize_all_cons. cbv zeta.
    assert (Hn : let s1 := snd (normalize raw s) in
                 next_loc s1 = next_loc s /\ timers s1 = timers s
                 /\ updateTimer s1 = updateTimer s
                 /\ updateInterval s1 = updateInterval s
                 /\ subsCurrentPage s1 = subsCurrentPage s).
    { unfold normalize. destruct (Raw.id raw) as [i|]; [destruct (String.eqb i "")|];
        by cbn. }
    destruct (normalize raw s) as [r s1]. cbn [fst snd] in *.
    destruct Hn as (N1 & N2 & N3 & N4 & N5).
    destruct (IH (snd (alloc r s1))) as (I1 & I2 & I3 & I4 & I5 & I6).
    destruct (normalize_all rest (snd (alloc r s1))) as [ls s3].
    unfold alloc in *. cbn [fst snd next_loc timers updateTimer updateInterval
                            subsCurrentPage length seq] in *.
    rewrite N1 in *. split_and!; [by rewrite I1|lia|congruence..].
Qed.

Lemma initializeSubscriptions_good (subsData : option (list Raw.t)) (s : store) :
  good s -> good (initializeSubscriptions subsData s).
Proof.
  intros (G1 & G2 & G3 & G4). unfold initializeSubscriptions.
  destruct (normalize_all_control (default [] subsData) s) as (N1 & N2 & N3 & N4 & N5 & N6).
  destruct (normalize_all (default [] subsData) s) as [ls s1]. cbn [fst snd] in *.
  unfold good, allocated. cbn [subscriptions next_loc subsCurrentPage set_subscriptions].
  split_and!.
  - rewrite N1. apply NoDup_seq.
  - rewrite N1, N2. apply Forall_forall. intros l Hl. apply elem_of_seq in Hl. lia.
  - by rewrite N6.
  - by apply (global_timer_ok_same s).
Qed.

Lemma NoDup_insert_fresh {A} (l : list A) (i : nat) (x : A) :
  NoDup l -> x ∉ l -> NoDup (<[i := x]> l).
Proof.
  intros Hnd. revert i. induction Hnd as [|a l Ha Hnd IH]; intros i Hx;
    [simpl; constructor|].
  apply not_elem_of_cons in Hx as [Hxa Hxl]. destruct i as [|i]; simpl.
  - apply NoDup_cons. split; [done|done].
  - apply NoDup_cons. split; [|by apply IH].
    intros Hc. apply list_elem_of_lookup in Hc as [j Hj].
    destruct (decide (i = j)) as [->|Hne].
    + destruct (decide (j < length l)%nat) as [Hlt|Hge].
      * rewrite list_lookup_insert_eq in Hj by done. congruence.
      * rewrite list_insert_ge in Hj by lia. apply Ha. by eapply list_elem_of_lookup_2.
    + rewrite list_lookup_insert_ne in Hj by done. apply Ha.
      by eapply list_elem_of_lookup_2.
Qed.

Lemma fresh_not_allocated (s : store) (n : nat) :
  allocated s -> (next_loc s <= n)%nat -> n ∉ subscriptions s.
Proof.
  unfold allocated. intros Ha Hn Hin. rewrite Forall_forall in Ha.
  specialize (Ha _ Hin). lia.
Qed.

Lemma addSubscription_good (sub : Sub.t) (s : store) :
  good s ->
  good (fst (addSubscription sub s)) /\ Forall (upholds good) (snd (addSubscription sub s)).
Proof.
  intros (G1 & G2 & G3 & G4). unfold addSubscription, alloc.
  set (s2 := set_subsCurrentPage 1 (set_subscriptions _ _)).
  destruct (gentle_refresh (id_of s2 (next_loc s)) false s2) as [B F].
  cbn [fst snd]. split; [|constructor; [by apply follows_upholds|constructor]].
  apply (good_benign s2); [eapply benign_trans; [exact B|apply benign_emit]|].
  unfold good, allocated, s2.
  cbn [subscriptions next_loc subsCurrentPage set_subsCurrentPage set_subscriptions].
  split_and!.
  - apply NoDup_cons. split; [by apply fresh_not_allocated|done].
  - constructor; [lia|]. eapply Forall_impl; [exact G2|]. cbn beta. intros; lia.
  - lia.
  - by apply (global_timer_ok_same s).
Qed.

Lemma updateSubscription_good (updatedSub : Sub.t) (s : store) :
  good s ->
  good (fst (updateSubscription updatedSub s))
  /\ Forall (upholds good) (snd (updateSubscription updatedSub s)).
Proof.
  intros (G1 & G2 & G3 & G4). unfold updateSubscription, alloc.
  set (u := next_loc s).
  set (s1 := {| heap := <[u := updatedSub]> (heap s); next_loc := S u;
                subscriptions := subscriptions s;
                subsCurrentPage := subsCurrentPage s;
                updateInterval := updateInterval s; updateTimer := updateTimer s;
                timers := timers s; next_handle := next_handle s;
                uuids_drawn := uuids_drawn s; log := log s |}).
  assert (Hg1 : good s1).
  { unfold good, allocated, s1. cbn. split_and!; try done.
    eapply Forall_impl; [exact G2|]. cbn beta. intros; lia. }
  destruct (findIndex (id_of s1 u) s1) as [index|]; [|by split].
  set (stored := default u (subscriptions s1 !! index)).
  assert (Hgen : forall s2 spawned, benign s1 s2 -> Forall (upholds good) spawned ->
    good (fst (markDirty (set_subscriptions (<[index := u]> (subscriptions s2)) s2),
               spawned))
    /\ Forall (upholds good) (snd (markDirty (set_subscriptions
                                      (<[index := u]> (subscriptions s2)) s2), spawned))).
  { intros s2 spawned B Hsp. cbn [fst snd]. split; [|done].
    destruct (good_benign s1 s2 B Hg1) as (H1 & H2 & H3 & H4).
    unfold good, allocated in H2 |- *.
    cbn [subscriptions next_loc subsCurrentPage markDirty emit set_subscriptions].
    split_and!; try done.
    - apply NoDup_insert_fresh; [done|].
      rewrite (benign_subscriptions _ _ B).
      apply (fresh_not_allocated s); [exact G2|unfold u; lia].
    - apply Forall_insert; [done|]. rewrite (benign_next_loc _ _ B). cbn. lia. }
  destruct (negb (String.eqb (url_of s1 stored) (url_of s1 u))).
  - set (s1' := modify u (Sub.set_nodeCount 0) s1).
    destruct (gentle_refresh (id_of s1' u) false s1') as [B F].
    apply Hgen; [|constructor; [by apply follows_upholds|constructor]].
    eapply benign_trans; [apply benign_modify|exact B].
  - apply Hgen; [apply benign_refl|constructor].
Qed.

Lemma filter_NoDup {A} (p : A -> bool) (l : list A) :
  NoDup l -> NoDup (List.filter p l).
Proof.
  intros H. rewrite <- (map_id (List.filter p l)). apply filter_map_NoDup.
  by rewrite map_id.
Qed.

Lemma deleteSubscription_good (subId : string) (s : store) :
  good s -> good (deleteSubscription subId s).
Proof.
  intros (G1 & G2 & G3 & G4). unfold deleteSubscription.
  set (s1 := set_subscriptions _ s).
  assert (H1 : NoDup (subscriptions s1) /\ allocated s1).
  { unfold allocated, s1. cbn [subscriptions next_loc set_subscriptions].
    split; [by apply filter_NoDup|by apply filter_Forall]. }
  destruct H1 as [H1 H2].
  destruct ((length (paginatedSubscriptions s1) =? 0)%nat && (1 <? subsCurrentPage s1))
    eqn:Hc.
  - apply andb_true_iff in Hc as [_ Hgt]. apply Z.ltb_lt in Hgt.
    unfold good, allocated in *.
    cbn [subscriptions next_loc subsCurrentPage markDirty emit set_subsCurrentPage].
    split_and!; try done; try lia; by apply (global_timer_ok_same s).
  - unfold good. split_and!; try done; by apply (global_timer_ok_same s).
Qed.

Lemma no_global_after_clear (s : store) :
  global_timer_ok s ->
  let s0 := match updateTimer s with
            | Some h => set_updateTimer None (clearInterval h s)
            | None => s
            end in
  global_timer_ok s0 /\ subscriptions s0 = subscriptions s
  /\ next_loc s0 = next_loc s /\ subsCurrentPage s0 = subsCurrentPage s.
Proof.
  intros G. destruct (updateTimer s) as [h0|] eqn:Hu; cbv zeta; [|by split_and!].
  split_and!; try done. intros h tm Hh Hg. cbn [timers set_updateTimer clearInterval] in Hh.
  apply lookup_delete_Some in Hh as [Hne Hh].
  destruct (G h tm Hh Hg) as (Hu' & _). congruence.
Qed.

Lemma configure_good (n : Z) (s : store) :
  good s -> good (setupAutoUpdate (set_updateInterval n s)).
Proof.
  intros (G1 & G2 & G3 & G4).
  assert (Htr : global_timers_tracked (set_updateInterval n s)).
  { intros h tm Hh Hg. by destruct (G4 h tm Hh Hg). }
  destruct (setupAutoUpdate_spec _ Htr) as (Hok & _ & _ & _ & _ & _ & _ & Hs & Hp & Hl & _).
  unfold good, allocated. rewrite Hs, Hp, Hl. by split_and!.
Qed.

Lemma alloc_all_control (subs : list Sub.t) (s : store) :
  let s1 := snd (alloc_all subs s) in
  timers s1 = timers s /\ updateTimer s1 = updateTimer s
  /\ updateInterval s1 = updateInterval s /\ subsCurrentPage s1 = subsCurrentPage s.
Proof.
  revert s. induction subs as [|r rs IH]; intros s; [done|].
  cbn [alloc_all]. destruct (alloc r s) as [l s1] eqn:Ea.
  assert (Hs1 : s1 = snd (alloc r s)) by (by rewrite Ea).
  specialize (IH s1). destruct (alloc_all rs s1) as [ls s2]. cbn [snd] in *.
  rewrite Hs1 in IH. exact IH.
Qed.

Lemma gentle_bulk (subs : list Sub.t) (s : store) :
  benign (bulk_unshift subs s) (task_store (addSubscriptionsFromBulk subs s))
  /\ follows benign (addSubscriptionsFromBulk subs s).
Proof.
  unfold addSubscriptionsFromBulk, bulk_unshift.
  destruct (alloc_all subs s) as [ls s1].
  set (s2 := markDirty (set_subscriptions (ls ++ subscriptions s1) s1)).
  set (subsToUpdate := List.filter _ ls).
  assert (Hdeg : forall m1 m2 s0,
            benign s0 (task_store (refresh_each subsToUpdate (emit m2 (emit m1 s0))))
            /\ follows benign (refresh_each subsToUpdate (emit m2 (emit m1 s0)))).
  { intros m1 m2 s0.
    destruct (gentle_refresh_each subsToUpdate (emit m2 (emit m1 s0))) as [B F].
    split; [|exact F]. eapply benign_trans; [|exact B].
    eapply benign_trans; apply benign_emit. }
  destruct (0 <? length subsToUpdate)%nat; [|split; [apply benign_emit|done]].
  apply follows_try_catch.
  - apply benign_trans.
  - apply benign_emit.
  - cbn [await_batch follows]. intros [r|e] s'; [|by split; [apply benign_refl|]].
    destruct (batch_success r).
    + split; [apply gentle_batch_done|done].
    + apply Hdeg.
  - intros e s0. apply Hdeg.
Qed.

Lemma bulk_unshift_good (subs : list Sub.t) (s : store) :
  good s -> good (bulk_unshift subs s).
Proof.
  intros (G1 & G2 & G3 & G4). unfold bulk_unshift.
  destruct (alloc_all_objects subs s) as (A1 & _ & _ & A4 & A5 & _).
  pose proof (alloc_all_spec subs s) as (_ & _ & B3 & _).
  destruct (alloc_all_control subs s) as (C1 & C2 & C3 & C4).
  destruct (alloc_all subs s) as [ls s1]. cbn [fst snd] in *.
  unfold good, allocated.
  cbn [subscriptions next_loc subsCurrentPage markDirty emit set_subscriptions].
  rewrite A5, C4. split_and!; try done.
  - apply NoDup_app. split; [rewrite A1; apply NoDup_seq|]. split; [|done].
    intros l Hl Hc. rewrite A1 in Hl. apply elem_of_seq in Hl.
    unfold allocated in G2. rewrite Forall_forall in G2. specialize (G2 _ Hc). lia.
  - apply Forall_app. split.
    + eapply Forall_impl; [exact B3|]. cbn beta. intros; lia.
    + rewrite A4. eapply Forall_impl; [exact G2|]. cbn beta. intros; lia.
  - by apply (global_timer_ok_same s).
Qed.

Lemma step_good (sys : system) (a : action) : sys_good sys -> sys_good (step sys a).
Proof.
  intros [Hg Hpend]. unfold sys_good.
  assert (Hsync : forall s', benign (current sys) s' -> sys_good (sync sys s')).
  { intros s' B. split; [by apply (good_benign (current sys))|done]. }
  assert (Hstart : forall t, benign (current sys) (task_store t) -> follows benign t ->
                             sys_good (start sys t)).
  { intros t B F. split; [by apply (good_benign (current sys))|].
    apply Forall_app. split; [done|]. constructor; [by apply follows_upholds|constructor]. }
  assert (Hresume : forall i t', good (task_store t') -> upholds good t' ->
                                 sys_good (resume sys i t')).
  { intros i t' G U. split; [done|]. by apply Forall_insert. }
  destruct a; cbn [step].
  - split; [|done]. by apply initializeSubscriptions_good.
  - destruct (addSubscription_good sub (current sys) Hg) as [H1 H2].
    split; [done|]. apply Forall_app. by split.
  - destruct (gentle_bulk subs (current sys)) as [B F].
    pose proof (bulk_unshift_good subs (current sys) Hg) as Hg2.
    split; [by apply (good_benign (bulk_unshift subs (current sys)))|].
    apply Forall_app. split; [done|]. constructor; [by apply follows_upholds|constructor].
  - destruct (updateSubscription_good updatedSub (current sys) Hg) as [H1 H2].
    split; [done|]. apply Forall_app. by split.
  - split; [|done]. by apply deleteSubscription_good.
  - split; [|done]. destruct Hg as (G1 & G2 & G3 & G4). unfold good, allocated.
    split_and!; try done; constructor.
  - apply Hstart; apply gentle_refresh.
  - split; [|done]. destruct Hg as (G1 & G2 & G3 & G4). unfold changeSubsPage.
    destruct ((page <? 1) || (subsTotalPages (current sys) <? page)) eqn:Hc;
      [by split_and!|].
    apply orb_false_iff in Hc as [Hlo _]. apply Z.ltb_ge in Hlo.
    unfold good. by split_and!.
  - split; [|done]. by apply configure_good.
  - apply Hsync. unfold handleSubscriptionUpdateIntervalChange.
    destruct (find_sub subId (current sys)); [|apply benign_refl].
    eapply benign_trans; [apply benign_modify|apply benign_setupIndividualUpdateTimers].
  - cbn [onMounted spawn fst snd]. split.
    + apply (good_benign (current sys)); [|done].
      apply benign_setupIndividualUpdateTimers.
    + apply Forall_app. split; [done|]. constructor; [|constructor].
      cbn [initializeUpdateInterval try_catch await_settings upholds].
      intros [st|e] s' G; cbn [try_catch task_store upholds]; split; try done.
      by apply configure_good.
  - split; [|done]. unfold onUnmounted, clearIndividualUpdateTimers.
    destruct Hg as (G1 & G2 & G3 & G4).
    destruct (no_global_after_clear (current sys) G4) as (H0 & Hs0 & Hn0 & Hp0).
    set (s0 := match updateTimer (current sys) with
               | Some h => set_updateTimer None (clearInterval h (current sys))
               | None => current sys
               end) in *.
    apply (good_benign s0); [apply benign_clear_fold|].
    unfold good, allocated. rewrite Hs0, Hn0, Hp0. by split_and!.
  - destruct (timers (current sys) !! h) as [tm|]; [|by split].
    destruct (fires tm); apply Hstart; first [apply gentle_globalTick|apply gentle_itemTick].
  - destruct (pending sys !! i) as [[c s0|s0 u k|s0 ids0 k|s0 k]|] eqn:Hi; try by split.
    rewrite Forall_lookup in Hpend. pose proof (Hpend i _ Hi) as U. simpl in U.
    destruct (U o (current sys) Hg) as [G' U']. by apply Hresume.
  - destruct (pending sys !! i) as [[c s0|s0 u k|s0 ids0 k|s0 k]|] eqn:Hi; try by split.
    rewrite Forall_lookup in Hpend. pose proof (Hpend i _ Hi) as U. simpl in U.
    destruct (U o (current sys) Hg) as [G' U']. by apply Hresume.
  - destruct (pending sys !! i) as [[c s0|s0 u k|s0 ids0 k|s0 k]|] eqn:Hi; try by split.
    rewrite Forall_lookup in Hpend. pose proof (Hpend i _ Hi) as U. simpl in U.
    destruct (U o (current sys) Hg) as [G' U']. by apply Hresume.
Qed.

Lemma boot_good : sys_good boot.
Proof.
  split; [|constructor]. unfold good, allocated. cbn. split_and!; try done; constructor.
Qed.

Lemma run_good (acts : list action) (sys : system) : sys_good sys -> sys_good (run acts sys).
Proof.
  unfold run. revert sys. induction acts as [|a acts IH]; intros sys H; [done|].
  simpl. apply IH. by apply step_good.
Qed.

(** X14. Whatever the component has been through by way of its own
    functions (any sequence of initialisations, adds, bulk imports,
    updates, deletes, page and interval changes, mounts, unmounts, timer
    ticks and settled remote calls, starting from the fresh composable),
    the collection holds no record object twice, provided each add, bulk
    import and update is handed objects of its own, as the actions of the
    event loop do. *)
Theorem reachable_collection_has_no_alias (acts : list action) :
  let s := current (run acts boot) in
  NoDup (subscriptions s) /\ allocated s.
Proof.
  destruct (run_good acts boot boot_good) as [(G1 & G2 & _) _]. by split.
Qed.

(** X15. Whatever the component has been through by way of its own
    functions, the current page number is at least 1: [changeSubsPage]
    refuses a page below 1, a delete steps back only from a page above 1,
    and nothing else lowers it. *)
Theorem reachable_page_is_positive (acts : list action) :
  1 <= subsCurrentPage (current (run acts boot)).
Proof.
  by destruct (run_good acts boot boot_good) as [(_ & _ & G3 & _) _].
Qed.

(** X16. Whatever the component has been through by way of its own
    functions, at most one timer running the global tick is live: any such
    timer is the one whose handle [updateTimer] holds, the global interval
    is then positive, and the timer's period is that interval in
    milliseconds. *)
Theorem reachable_global_timer_is_unique (acts : list action) :
  let s := current (run acts boot) in
  (forall h tm, timers s !! h = Some tm -> fires tm = GlobalTick ->
     updateTimer s = Some h /\ 0 < updateInterval s
     /\ period tm = updateInterval s * 60 * 1000)
  /\ (forall h1 h2 tm1 tm2,
        timers s !! h1 = Some tm1 -> fires tm1 = GlobalTick ->
        timers s !! h2 = Some tm2 -> fires tm2 = GlobalTick -> h1 = h2).
Proof.
  destruct (run_good acts boot boot_good) as [(_ & _ & _ & G4) _].
  cbv zeta. split; [exact G4|].
  intros h1 h2 tm1 tm2 H1 F1 H2 F2.
  destruct (G4 h1 tm1 H1 F1) as [U1 _]. destruct (G4 h2 tm2 H2 F2) as [U2 _]. congruence.
Qed.

(** X17. [initializeSubscriptions] replaces the collection but leaves the
    current page as it is: when the new collection has fewer pages than
    the current page number, the page shown afterwards is empty. *)
Theorem initialize_keeps_the_page_number (subsData : option (list Raw.t)) (s : store) :
  let s' := initializeSubscriptions subsData s in
  subsCurrentPage s' = subsCurrentPage s
  /\ length (subscriptions s') = length (default [] subsData)
  /\ (subsTotalPages s' < subsCurrentPage s -> paginatedSubscriptions s' = []).
Proof.
  unfold initializeSubscriptions.
  destruct (normalize_all_control (default [] subsData) s) as (N1 & N2 & N3 & N4 & N5 & N6).
  destruct (normalize_all (default [] subsData) s) as [ls s1]. cbn [fst snd] in *.
  cbv zeta. cbn [subsCurrentPage subscriptions set_subscriptions]. split_and!.
  - exact N6.
  - rewrite N1. apply length_seq.
  - intros Hlt. unfold paginatedSubscriptions, subsTotalPages, subsItemsPerPage in *.
    cbn [subsCurrentPage subscriptions set_subscriptions] in *.
    pose proof (ceil_div_bounds (Z.of_nat (length ls)) 6) as Hb.
    apply js_slice_past_end. lia.
Qed.

(** X18. A settings reply that arrives after the component was unmounted
    still configures the scheduler: when the component, in any state it
    can be in, is mounted and then unmounted before [fetchSettings]
    resolves, and the settings then arrive with a positive interval, a
    global timer with that interval is armed and tracked. *)
Theorem late_settings_arm_after_unmount (acts : list action) (st : settings) (n : Z) :
  settings_updateInterval st = Some n -> 0 < n ->
  let sys := run acts boot in
  let i := length (pending sys) in
  let sys' := run [Mount; Unmount; SettleSettings i (SettingsResolved st)] sys in
  updateTimer (current (run [Mount; Unmount] sys)) = None
  /\ exists h, updateTimer (current sys') = Some h
               /\ timers (current sys') !! h
                  = Some {| period := n * 60 * 1000; fires := GlobalTick |}.
Proof.
  intros Hst Hn sys i sys'.
  pose proof (run_good acts boot boot_good) as Hsys. fold sys in Hsys.
  pose proof (step_good _ Unmount (step_good _ Mount Hsys)) as [(_ & _ & _ & G) _].
  set (s2 := current (step (step sys Mount) Unmount)) in *.
  assert (Htr : global_timers_tracked (set_updateInterval n s2)).
  { intros h tm Hh Hg. by destruct (G h tm Hh Hg). }
  destruct (setupAutoUpdate_spec _ Htr) as (_ & _ & Harm & _).
  split.
  { unfold run. cbn [fold_left step sync spawn current onUnmounted].
    generalize (fst (onMounted (current sys))). intros s1.
    unfold onUnmounted, clearIndividualUpdateTimers.
    rewrite updateTimer_clear_fold. by destruct (updateTimer s1) eqn:E. }
  assert (Hsys' : current sys' = setupAutoUpdate (set_updateInterval n s2)).
  { unfold sys', run. cbn [fold_left]. 
    change (step (step sys Mount) Unmount)
      with (sync (spawn sys (onMounted (current sys)))
                 (onUnmounted (current (spawn sys (onMounted (current sys)))))).
    unfold step at 1. cbn [pending sync spawn onMounted snd].
    unfold i. rewrite lookup_app_r by lia. rewrite Nat.sub_diag.
    cbn [lookup list_lookup initializeUpdateInterval try_catch await_settings resume
         current task_store]. by rewrite Hst. }
  rewrite Hsys'. apply Harm. cbn. lia.
Qed.

Lemma overwrite_views (v : option Z) (r : Sub.t) :
  Sub.enabled (overwrite v r) = Sub.enabled r
  /\ Sub.userInfo (overwrite v r) = Sub.userInfo r.
Proof. destruct v; by destruct r. Qed.

Lemma quota_views_ext (s s' : store) :
  subscriptions s' = subscriptions s ->
  (forall l, exists v, heap s' !! l = overwrite v <$> heap s !! l) ->
  totalRemainingTraffic s' = totalRemainingTraffic s
  /\ enabledSubscriptions s' = enabledSubscriptions s.
Proof.
  intros Hs Hh. unfold totalRemainingTraffic, enabledSubscriptions. rewrite Hs. clear Hs.
  split.
  - generalize 0. induction (subscriptions s) as [|l ls IH]; intros acc; [done|].
    simpl. rewrite IH. f_equal. unfold remaining_step.
    destruct (Hh l) as [v ->]. destruct (heap s !! l) as [r|]; [|done]. simpl.
    destruct (overwrite_views v r) as [-> ->]. done.
  - induction (subscriptions s) as [|l ls IH]; [done|]. simpl. rewrite IH.
    assert (Hr : read Sub.enabled false s' l = read Sub.enabled false s l).
    { unfold read. destruct (Hh l) as [v ->]. destruct (heap s !! l) as [r|]; [|done].
      simpl. by destruct (overwrite_views v r) as [-> _]. }
    by rewrite Hr.
Qed.

(** X19. A batch update refreshes node counts only. When the batch call of
    the global tick, of a per-item tick or of the bulk import reports
    overall success, the results are applied and the call finishes with
    the collection, the enabled records and the total remaining traffic
    exactly as they were in the store it resumed in: the quota figures are
    not refreshed by a batch update. *)
Theorem batch_success_leaves_the_quota_views
    (s : store) (sub : loc) (subs : list Sub.t)
    (t : task) (s0 : store) (ids0 : list string) (k : batch_outcome -> store -> task) :
  t = globalTick s \/ t = itemTick sub s \/ t = addSubscriptionsFromBulk subs s ->
  t = AwaitBatch s0 ids0 k ->
  forall result s', batch_success result = true ->
    exists s'',
      k (BatchResolved result) s' = Done Normal s''
      /\ subscriptions s'' = subscriptions s'
      /\ enabledSubscriptions s'' = enabledSubscriptions s'
      /\ totalRemainingTraffic s'' = totalRemainingTraffic s'.
Proof.
  intros Ht Hk result s' Hok.
  assert (Ha : applies_results k).
  { destruct Ht as [->|[->| ->]].
    - by apply (globalTick_applies s s0 ids0).
    - by apply (itemTick_applies sub s s0 ids0).
    - by apply (bulk_applies subs s s0 ids0). }
  destruct (Ha result s' Hok) as (s'' & Hd & Hh & Hs).
  exists s''. split; [done|]. split; [done|].
  destruct (quota_views_ext s' s'' Hs) as [H1 H2]; [|by split].
  intros l. exists (written_by (results result) s' l). rewrite Hh.
  apply applyBatchResults_heap.
Qed.

End Composable.

(** ** Concrete runs *)

Lemma demo_uuid_nonempty (n : nat) : demo_uuid n <> "".
Proof. by destruct n. Qed.

Lemma demo_uuid_inj (m n : nat) : demo_uuid m = demo_uuid n -> m = n.
Proof.
  revert n. induction m as [|m IH]; intros [|n]; simpl; try done.
  intros [= H]. f_equal. by apply IH.
Qed.

(** C1, counterexample. With one eligible record, the timer armed for it
    is live, and when it fires it does not fetch the record's URL: it
    suspends on [batchUpdateNodes]. *)
Lemma per_item_tick_is_a_batch_call :
  ~ ticks_refresh_single (setupIndividualUpdateTimers timed_record).
Proof.
  intros H.
  destruct (H 1%nat {| period := 300000; fires := ItemTick 0%nat |} 0%nat
              eq_refl eq_refl) as (s & k & Hk).
  discriminate Hk.
Qed.

(** C1, witness: the one eligible record, re-armed while its timer of the
    previous arming is live. *)
Lemma per_item_timers_witness :
  let s := setupIndividualUpdateTimers timed_record in
  let s' := setupIndividualUpdateTimers s in
  NoDup (subscriptions s)
  /\ item_timers_tracked s
  /\ timers s !! 1%nat = Some {| period := 300000; fires := ItemTick 0%nat |}
  /\ exists h,
       heap s' !! 0%nat
       = Some (Sub.set_updateTimers (Some [h])
                 (Sub.set_updateInterval (Some 5)
                    (demo_sub "id1" "http://one.example/sub")))
       /\ timers s' !! h = Some {| period := 300000; fires := ItemTick 0%nat |}
       /\ forall h' tm, timers s' !! h' = Some tm -> fires tm = ItemTick 0%nat -> h' = h.
Proof.
  intros s s'.
  assert (Hs : subscriptions s = [0%nat]) by reflexivity.
  assert (Hnd : NoDup (subscriptions s)) by (rewrite Hs; apply NoDup_singleton).
  assert (Htr : item_timers_tracked s).
  { intros h tm l Hh _.
    change (tracked_in s (subscriptions s)) with [1%nat].
    destruct (decide (h = 1%nat)) as [->|Hne]; [apply list_elem_of_here|].
    exfalso.
    change (timers s)
      with (<[1%nat := {| period := 300000; fires := ItemTick 0%nat |}]>
              (∅ : gmap handle timer)) in Hh.
    rewrite lookup_insert_ne in Hh by (intros Heq; apply Hne; symmetry; exact Heq).
    rewrite lookup_empty in Hh. discriminate Hh. }
  split; [exact Hnd|]. split; [exact Htr|]. split; [reflexivity|].
  destruct (per_item_timers s Hnd Htr) as (_ & H & _).
  assert (Hin : 0%nat ∈ subscriptions s) by (rewrite Hs; apply list_elem_of_here).
  exact (H 0%nat _ Hin eq_refl).
Defined.

(** C2, counterexample. A global tick over one enabled record whose batch
    call raises refreshes nothing afterwards. *)
Lemma global_tick_does_not_degrade : ~ degrades_on_failure (globalTick one_record).
Proof.
  intros H.
  assert (Hg : exists k, globalTick one_record = AwaitBatch one_record ["id1"] k
               /\ forall e s', k (BatchRejected e) s'
                               = Done Normal (console_error "Auto update error" s')).
  { eexists. split; reflexivity. }
  destruct Hg as (k & Hk & Hrej). rewrite Hk in H. cbn [degrades_on_failure] in H.
  destruct (H (BatchRejected "down") one_record [FetchRejected "down"] I
              (fun _ => eq_refl)) as [s'' Hs].
  - vm_compute. lia.
  - rewrite Hrej in Hs. vm_compute in Hs. discriminate.
Qed.

(** C2, witness: a bulk import of two records whose batch call raises goes
    on to fetch the two URLs, one after the other. *)
Lemma degradation_only_in_bulk_witness :
  exists s0 k,
    addSubscriptionsFromBulk
      [demo_sub "id1" "http://one.example/sub"; demo_sub "id2" "http://two.example/sub"]
      empty_store
    = AwaitBatch s0 ["id1"; "id2"] k
    /\ exists s'',
         drive (k (BatchRejected "down") s0)
               [FetchRejected "down"; FetchRejected "down"]
         = (["http://one.example/sub"; "http://two.example/sub"], Done Normal s'').
Proof.
  pose proof (proj1 degradation_only_in_bulk
                [demo_sub "id1" "http://one.example/sub";
                 demo_sub "id2" "http://two.example/sub"] empty_store) as H.
  eexists _, _. split; [reflexivity|].
  apply (H (BatchRejected "down") _
           [FetchRejected "down"; FetchRejected "down"] I (fun _ => eq_refl)).
  vm_compute. lia.
Defined.

(** C3, witness: the global tick over two enabled records; the call
    succeeds overall, ["id1"] with 7 nodes, ["id2"] fails. *)
Lemma batch_partial_success_witness :
  let result := {| batch_success := true; batch_message := None;
                   results := [ {| entry_id := "id1"; entry_success := true;
                                   entry_nodeCount := 7 |};
                                {| entry_id := "id2"; entry_success := false;
                                   entry_nodeCount := 3 |} ] |} in
  exists k s'',
    globalTick two_records = AwaitBatch two_records ["id1"; "id2"] k
    /\ k (BatchResolved result) two_records = Done Normal s''
    /\ heap s'' !! 0%nat
       = Some (Sub.set_nodeCount 7 (demo_sub "id1" "http://one.example/sub"))
    /\ heap s'' !! 1%nat = heap two_records !! 1%nat.
Proof.
  intros result.
  destruct batch_partial_success as (Htick & _ & _ & Hok & Hfail & _).
  pose proof (Htick two_records) as Ht.
  change (chosen_by_global_tick two_records) with [0%nat; 1%nat] in Ht. cbv beta iota in Ht.
  destruct Ht as (k & Hk & Ha).
  destruct (Ha result two_records eq_refl) as (s'' & Hd & Hh & _).
  exists k, s''. split; [exact Hk|]. split; [exact Hd|]. rewrite Hh. split.
  - destruct (Hok (results result) two_records "id1" 0%nat
                (demo_sub "id1" "http://one.example/sub"))
      as (v & Hv & Hheap).
    + eexists. split; [apply list_elem_of_In, list_elem_of_here|]. split; reflexivity.
    + reflexivity.
    + reflexivity.
    + injection Hv as <-. exact Hheap.
  - apply Hfail. intros e [<-|[<-|[]]] He; vm_compute; discriminate.
Defined.

(** C4, witness: a user refresh of the record ["id1"]. *)
Lemma refresh_is_scoped_witness :
  find_sub "id1" one_record = Some 0%nat
  /\ is_http (url_of one_record 0%nat) = true
  /\ exists k,
       handleUpdateNodeCount "id1" false one_record
       = AwaitFetch (modify 0%nat (Sub.set_isUpdating true) one_record)
                    "http://one.example/sub" k.
Proof.
  split; [reflexivity|]. split; [reflexivity|].
  destruct (refresh_is_scoped "id1" false one_record) as (_ & _ & _ & H).
  destruct (H 0%nat eq_refl eq_refl) as (k & Hk & _).
  exists k. exact Hk.
Defined.

(** C5, witness: a seed without identifier nor optional properties. *)
Lemma initialize_normalizes_witness :
  Raw.enabled bare_seed = None
  /\ Sub.enabled (with_defaults bare_seed (demo_uuid 0)) = true.
Proof.
  split; [reflexivity|].
  destruct (initialize_normalizes demo_uuid (Some [bare_seed]) empty_store)
    as (_ & _ & _ & H & _).
  destruct (H bare_seed (demo_uuid 0)) as (He & _). exact (He eq_refl).
Defined.

(** C6, at the failing input: the stored record ["id1"] is updated with a
    copy that has a new URL. The refresh left behind fetches the old URL;
    when it resolves with 42 nodes, the record in the collection still has
    [nodeCount = 0] and the 42 is on the object that was replaced. *)
Theorem update_refreshes_the_replaced_object :
  let r := updateSubscription edited old_store in
  records (fst r) = [Sub.set_nodeCount 0 edited]
  /\ exists s k,
       snd r = [AwaitFetch s "http://old.example/sub" k]
       /\ exists s2,
            k (FetchResolved {| count := Some 42; fetched_userInfo := None |}) (fst r)
            = Done Normal s2
            /\ records s2 = [Sub.set_nodeCount 0 edited]
            /\ heap s2 !! 0%nat
               = Some (Sub.set_nodeCount 42 (demo_sub "id1" "http://old.example/sub")).
Proof.
  split; [reflexivity|]. eexists _, _. split; [reflexivity|].
  eexists. split; [reflexivity|]. split; reflexivity.
Qed.

(** C7, witness: two records seen from page 2. *)
Lemma derived_views_witness :
  let s := set_subsCurrentPage 2 two_records in
  subsTotalPages s < subsCurrentPage s /\ paginatedSubscriptions s = [].
Proof.
  intros s. assert (Hp : subsTotalPages s < subsCurrentPage s) by (vm_compute; reflexivity).
  split; [exact Hp|].
  destruct (derived_views s) as (_ & H & _). exact (H Hp).
Defined.

(** C8, at the failing input: a record with a five-minute interval is
    initialised, the component is mounted, the record is deleted. The
    collection is empty and the record's timer is still live; unmounting
    does not cancel it either; when it fires it submits the deleted
    record's id. The same holds after [deleteAllSubscriptions]. *)
Theorem delete_leaves_the_timer_live :
  let mounted := run demo_uuid [Initialize (Some [timed_seed]); Mount] boot in
  timers (current mounted) !! 1%nat
  = Some {| period := 300000; fires := ItemTick 0%nat |}
  /\ timer_outlives_record (current (step demo_uuid mounted (Delete "id1")))
  /\ timer_outlives_record (current (step demo_uuid mounted DeleteAll)).
Proof.
  assert (Hgen : forall s,
            subscriptions s = [] ->
            timers s !! 1%nat = Some {| period := 300000; fires := ItemTick 0%nat |} ->
            timers (onUnmounted s) !! 1%nat
            = Some {| period := 300000; fires := ItemTick 0%nat |} ->
            id_of s 0%nat = "id1" ->
            timer_outlives_record s).
  { intros s H1 H2 H3 H4. split_and!; [done..|].
    destruct (itemTick_shape 0%nat s) as [k Hk]. exists k. by rewrite <- H4. }
  split; [vm_compute; reflexivity|].
  split; apply Hgen; vm_compute; reflexivity.
Qed.

(** C9, counterexample. Adding two records with the same identifier leaves
    both in the collection. *)
Lemma add_accepts_a_duplicate :
  ~ unique_ids (current (run demo_uuid
                           [Add (demo_sub "id1" "http://one.example/sub");
                            Add (demo_sub "id1" "http://two.example/sub")] boot)).
Proof.
  intros [Hnd _]. vm_compute in Hnd. apply NoDup_cons in Hnd as [Hnotin _].
  apply Hnotin. apply list_elem_of_here.
Qed.

(** C9, witness: a seed without identifier is initialised, then a record
    with a new identifier is added. *)
Lemma identifiers_stay_unique_witness :
  let acts := [Initialize (Some [bare_seed]);
               Add (demo_sub "id1" "http://one.example/sub")] in
  admissible_run demo_uuid acts boot
  /\ unique_ids (current (run demo_uuid acts boot)).
Proof.
  intros acts.
  assert (Hadm : admissible_run demo_uuid acts boot).
  { split; [split|split; [split|exact I]].
    - vm_compute. constructor.
    - intros i n Hi. vm_compute in Hi. by apply elem_of_nil in Hi.
    - discriminate.
    - vm_compute. intros Hc. apply elem_of_cons in Hc as [Hc|Hc]; [discriminate|].
      by apply elem_of_nil in Hc. }
  split; [exact Hadm|].
  exact (identifiers_stay_unique demo_uuid demo_uuid_nonempty demo_uuid_inj acts Hadm).
Defined.

(** C10, witness: results for ["gone"] reach a collection without it. *)
Lemma late_results_are_skipped_witness :
  let e := {| entry_id := "gone"; entry_success := true; entry_nodeCount := 9 |} in
  find_sub (entry_id e) two_records = None
  /\ applyBatchResult two_records e = two_records.
Proof.
  intros e. split; [reflexivity|].
  destruct late_results_are_skipped as (_ & _ & H & _).
  exact (H e two_records eq_refl).
Defined.

(** X1, witness: page 1 of two records. *)
Lemma changeSubsPage_lands_on_a_page_witness :
  1 <= 1 <= subsTotalPages two_records
  /\ paginatedSubscriptions (changeSubsPage 1 two_records) = [0%nat; 1%nat].
Proof.
  assert (Hp : 1 <= 1 <= subsTotalPages two_records) by (vm_compute; split; discriminate).
  split; [exact Hp|].
  destruct (changeSubsPage_lands_on_a_page 1 two_records) as [_ H].
  destruct (H Hp) as (_ & Hs & _). rewrite Hs. reflexivity.
Defined.

(** X3, witness: the second of two records is deleted. *)
Lemma deleteSubscription_keeps_the_page_valid_witness :
  NoDup (ids two_records)
  /\ 1 <= subsCurrentPage two_records <= Z.max 1 (subsTotalPages two_records)
  /\ subscriptions (deleteSubscription "id2" two_records) = [0%nat]
  /\ 1 <= subsCurrentPage (deleteSubscription "id2" two_records)
     <= Z.max 1 (subsTotalPages (deleteSubscription "id2" two_records)).
Proof.
  assert (Hnd : NoDup (ids two_records)).
  { vm_compute. apply NoDup_cons. split; [|apply NoDup_singleton].
    intros Hc. apply elem_of_cons in Hc as [Hc|Hc]; [discriminate|].
    by apply elem_of_nil in Hc. }
  assert (Hp : 1 <= subsCurrentPage two_records <= Z.max 1 (subsTotalPages two_records))
    by (vm_compute; split; discriminate).
  split; [exact Hnd|]. split; [exact Hp|].
  destruct (deleteSubscription_keeps_the_page_valid "id2" two_records Hnd Hp)
    as (Hs & _ & _ & Hv & _).
  split; [rewrite Hs; reflexivity|exact Hv].
Defined.

(** X4, witness: a record is added in front of another with the same id. *)
Lemma addSubscription_refreshes_the_new_record_witness :
  let sub := demo_sub "id1" "http://dup.example/sub" in
  0%nat <> next_loc one_record
  /\ heap (fst (addSubscription sub one_record)) !! 0%nat = heap one_record !! 0%nat
  /\ exists s1 k, snd (addSubscription sub one_record)
                  = [AwaitFetch s1 "http://dup.example/sub" k].
Proof.
  intros sub. assert (Hne : 0%nat <> next_loc one_record) by discriminate.
  destruct (addSubscription_refreshes_the_new_record sub one_record)
    as (_ & _ & _ & Hframe & Hnew).
  split; [exact Hne|]. split; [exact (Hframe 0%nat Hne)|].
  exact (proj2 Hnew).
Defined.

(** X5, witness: one of the two imported records has an [http] URL. *)
Lemma bulk_import_submits_the_http_records_witness :
  let subs := [demo_sub "a" "ss://node"; demo_sub "b" "http://b.example/sub"] in
  (0 < next_loc one_record)%nat
  /\ heap (task_store (addSubscriptionsFromBulk subs one_record)) !! 0%nat
     = heap one_record !! 0%nat
  /\ exists k, addSubscriptionsFromBulk subs one_record
               = AwaitBatch (task_store (addSubscriptionsFromBulk subs one_record)) ["b"] k.
Proof.
  intros subs. assert (Hlt : (0 < next_loc one_record)%nat) by (vm_compute; lia).
  destruct (bulk_import_submits_the_http_records subs one_record)
    as (_ & _ & Hframe & Hsub).
  split; [exact Hlt|]. split; [exact (Hframe 0%nat Hlt)|].
  exact (proj1 Hsub).
Defined.

(** X6, witness: the stored record is replaced by its edited copy. *)
Lemma updateSubscription_replaces_in_place_witness :
  allocated old_store
  /\ subscriptions (fst (updateSubscription edited old_store)) = [1%nat]
  /\ ids (fst (updateSubscription edited old_store)) = ["id1"]
  /\ heap (fst (updateSubscription edited old_store)) !! 1%nat
     = Some (Sub.set_nodeCount 0 edited).
Proof.
  assert (Ha : allocated old_store).
  { apply Forall_cons. split; [vm_compute; lia|apply Forall_nil_2]. }
  split; [exact Ha|].
  pose proof (updateSubscription_replaces_in_place edited old_store Ha) as H.
  destruct H as (stored & _ & _ & Hs & Hi & _ & Hh).
  split; [rewrite Hs; reflexivity|]. split; [rewrite Hi; reflexivity|].
  vm_compute. reflexivity.
Defined.

(** X7, witness: the refresh of ["id1"] resolves with 42 nodes. *)
Lemma refresh_success_writes_the_record_witness :
  find_sub "id1" one_record = Some 0%nat
  /\ is_http (url_of one_record 0%nat) = true
  /\ exists s1 k,
       handleUpdateNodeCount "id1" false one_record
       = AwaitFetch s1 "http://one.example/sub" k
       /\ exists s'',
            k (FetchResolved {| count := Some 42; fetched_userInfo := None |}) one_record
            = Done Normal s''
            /\ heap s'' !! 0%nat
               = Some (Sub.set_nodeCount 42 (demo_sub "id1" "http://one.example/sub")).
Proof.
  split; [reflexivity|]. split; [reflexivity|].
  destruct (refresh_success_writes_the_record "id1" false one_record 0%nat eq_refl eq_refl)
    as (s1 & k & Hk & Hres).
  exists s1, k. split; [exact Hk|].
  destruct (Hres {| count := Some 42; fetched_userInfo := None |} one_record
                 (demo_sub "id1" "http://one.example/sub") eq_refl)
    as (s'' & Hd & Hh & _).
  exists s''. split; [exact Hd|exact Hh].
Defined.

(** X8, witness: the initial load of ["id2"] fails; ["id1"] is untouched. *)
Lemma refresh_touches_one_record_witness :
  find_sub "id2" two_records = Some 1%nat
  /\ is_http (url_of two_records 1%nat) = true
  /\ exists s1 k,
       handleUpdateNodeCount "id2" true two_records
       = AwaitFetch s1 "http://two.example/sub" k
       /\ exists s'',
            k (FetchRejected "down") two_records = Done Normal s''
            /\ heap s'' !! 0%nat = heap two_records !! 0%nat
            /\ log s'' = [ConsoleError "Failed to fetch node count"].
Proof.
  split; [reflexivity|]. split; [reflexivity|].
  destruct (refresh_touches_one_record "id2" true two_records 1%nat eq_refl eq_refl)
    as (s1 & k & Hk & Hres).
  exists s1, k. split; [exact Hk|].
  destruct (Hres (FetchRejected "down") two_records)
    as (s'' & Hd & Hframe & _ & _ & _ & _ & _ & _ & Hlog).
  exists s''. split; [exact Hd|]. split.
  - apply Hframe. discriminate.
  - exact (Hlog eq_refl).
Defined.

(** X9, witness: a ten-minute interval is set where no timer is live. *)
Lemma interval_change_rearms_the_global_timer_witness :
  global_timers_tracked one_record
  /\ 0 < 10
  /\ exists h, updateTimer (handleUpdateIntervalChange 10 one_record) = Some h
               /\ timers (handleUpdateIntervalChange 10 one_record) !! h
                  = Some {| period := 600000; fires := GlobalTick |}.
Proof.
  assert (Htr : global_timers_tracked one_record).
  { intros h tm Hh. change (timers one_record) with (∅ : gmap handle timer) in Hh.
    rewrite lookup_empty in Hh. discriminate Hh. }
  assert (Hpos : 0 < 10) by lia.
  split; [exact Htr|]. split; [exact Hpos|].
  destruct (interval_change_rearms_the_global_timer 10 one_record Htr)
    as (_ & _ & _ & Harm & _).
  exact (Harm Hpos).
Defined.

(** X10, witness: the settings carry no interval. *)
Lemma settings_configure_the_global_timer_witness :
  let st := {| settings_updateInterval := None |} in
  global_timers_tracked one_record
  /\ default 0 (settings_updateInterval st) <= 0
  /\ exists k,
       initializeUpdateInterval one_record = AwaitSettings one_record k
       /\ exists s'', k (SettingsResolved st) one_record = Done Normal s''
                      /\ updateTimer s'' = None.
Proof.
  intros st.
  assert (Htr : global_timers_tracked one_record).
  { intros h tm Hh. change (timers one_record) with (∅ : gmap handle timer) in Hh.
    rewrite lookup_empty in Hh. discriminate Hh. }
  assert (Hle : default 0 (settings_updateInterval st) <= 0) by (simpl; lia).
  split; [exact Htr|]. split; [exact Hle|].
  destruct (settings_configure_the_global_timer one_record) as (k & Hk & _ & _ & Hoff).
  exists k. split; [exact Hk|].
  destruct (Hoff st one_record Htr Hle) as (s'' & Hd & Hu & _).
  exists s''. split; [exact Hd|exact Hu].
Defined.

(** X11, witness: the record's own timer is cancelled by the unmount. *)
Lemma unmount_cancels_the_tracked_timers_witness :
  let s := setupIndividualUpdateTimers timed_record in
  NoDup (subscriptions s)
  /\ timers s !! 1%nat = Some {| period := 300000; fires := ItemTick 0%nat |}
  /\ timers (onUnmounted s) !! 1%nat = None.
Proof.
  intros s.
  assert (Hs : subscriptions s = [0%nat]) by reflexivity.
  assert (Ht : tracked_of s 0%nat = [1%nat]) by reflexivity.
  assert (Hnd : NoDup (subscriptions s)) by (rewrite Hs; apply NoDup_singleton).
  split; [exact Hnd|]. split; [reflexivity|].
  destruct (unmount_cancels_the_tracked_timers s Hnd) as (_ & _ & Hc & _).
  apply (Hc 0%nat 1%nat).
  - rewrite Hs. apply list_elem_of_here.
  - rewrite Ht. apply list_elem_of_here.
Defined.

(** X12, witness: the record gets a five-minute interval. *)
Lemma item_interval_change_rearms_all_witness :
  let r := demo_sub "id1" "http://one.example/sub" in
  let s' := handleSubscriptionUpdateIntervalChange "id1" (Some 5) one_record in
  find_sub "id1" one_record = Some 0%nat
  /\ heap one_record !! 0%nat = Some r
  /\ NoDup (subscriptions one_record)
  /\ exists h, heap s' !! 0%nat
               = Some (Sub.set_updateTimers (Some [h]) (Sub.set_updateInterval (Some 5) r))
               /\ timers s' !! h = Some {| period := 300000; fires := ItemTick 0%nat |}.
Proof.
  intros r s'.
  assert (Hnd : NoDup (subscriptions one_record)) by apply NoDup_singleton.
  split; [reflexivity|]. split; [reflexivity|]. split; [exact Hnd|].
  destruct (item_interval_change_rearms_all "id1" (Some 5) one_record) as [_ H].
  destruct (H 0%nat r eq_refl eq_refl Hnd) as (Harm & _).
  exact Harm.
Defined.

(** X13, witness: the tick over one enabled record; the batch call succeeds
    with no entry. *)
Lemma global_tick_submits_the_enabled_records_witness :
  let result := {| batch_success := true; batch_message := None; results := [] |} in
  batch_success result = true
  /\ exists k,
       globalTick one_record = AwaitBatch one_record ["id1"] k
       /\ exists s'',
            k (BatchResolved result) one_record = Done Normal s''
            /\ log s'' = [Toast (MsgAutoUpdateDone 0 1) success; MarkDirty].
Proof.
  intros result. split; [reflexivity|].
  pose proof (proj2 (proj2 (global_tick_submits_the_enabled_records one_record))) as H.
  change (chosen_by_global_tick one_record) with [0%nat] in H. cbv beta iota in H.
  destruct H as (k & Hk & Hok). exists k. split; [exact Hk|].
  destruct (Hok result one_record eq_refl) as (s'' & Hd & Hl).
  exists s''. split; [exact Hd|exact Hl].
Defined.

(** X16, witness: the timer armed by a ten-minute interval is the tracked
    one. *)
Lemma reachable_global_timer_is_unique_witness :
  let s := current (run demo_uuid [SetInterval 10] boot) in
  timers s !! 1%nat = Some {| period := 600000; fires := GlobalTick |}
  /\ updateTimer s = Some 1%nat /\ 0 < updateInterval s.
Proof.
  intros s.
  assert (Ht : timers s !! 1%nat = Some {| period := 600000; fires := GlobalTick |})
    by reflexivity.
  split; [exact Ht|].
  destruct (reachable_global_timer_is_unique demo_uuid [SetInterval 10]) as [H _].
  destruct (H 1%nat _ Ht eq_refl) as (Hu & Hpos & _).
  split; [exact Hu|exact Hpos].
Defined.

(** X17, witness: one seed replaces two records while page 2 is shown. *)
Lemma initialize_keeps_the_page_number_witness :
  let s := set_subsCurrentPage 2 two_records in
  let s' := initializeSubscriptions demo_uuid (Some [bare_seed]) s in
  subsTotalPages s' < subsCurrentPage s /\ paginatedSubscriptions s' = [].
Proof.
  intros s s'.
  assert (Hlt : subsTotalPages s' < subsCurrentPage s) by (vm_compute; reflexivity).
  split; [exact Hlt|].
  destruct (initialize_keeps_the_page_number demo_uuid (Some [bare_seed]) s)
    as (_ & _ & H).
  exact (H Hlt).
Defined.

(** X18, witness: the fresh component is mounted and unmounted, then the
    settings arrive with a ten-minute interval. *)
Lemma late_settings_arm_after_unmount_witness :
  let st := {| settings_updateInterval := Some 10 |} in
  settings_updateInterval st = Some 10 /\ 0 < 10
  /\ exists h,
       updateTimer (current (run demo_uuid
                      [Mount; Unmount; SettleSettings 0 (SettingsResolved st)] boot))
       = Some h.
Proof.
  intros st. assert (Hpos : 0 < 10) by lia.
  split; [reflexivity|]. split; [exact Hpos|].
  destruct (late_settings_arm_after_unmount demo_uuid [] st 10 eq_refl Hpos)
    as (_ & h & Hu & _).
  exists h. exact Hu.
Defined.

(** X19, witness: the per-item tick of a record with 70 units of quota
    left; the batch call succeeds with 7 nodes. *)
Lemma batch_success_leaves_the_quota_views_witness :
  let s := modify 0%nat (Sub.set_userInfo
                           (Some (UserInfo.mk (Some 10) (Some 20) (Some 100))))
                  one_record in
  let result := {| batch_success := true; batch_message := None;
                   results := [ {| entry_id := "id1"; entry_success := true;
                                   entry_nodeCount := 7 |} ] |} in
  batch_success result = true
  /\ match itemTick 0%nat s with
     | AwaitBatch _ _ k =>
         exists s'', k (BatchResolved result) s = Done Normal s''
                     /\ totalRemainingTraffic s'' = 70
     | _ => False
     end.
Proof.
  intros s result. split; [reflexivity|].
  destruct (batch_success_leaves_the_quota_views s 0%nat [] (itemTick 0%nat s) _ _ _
              (or_intror (or_introl eq_refl)) eq_refl result s eq_refl)
    as (s'' & Hk & _ & _ & Ht).
  exists s''. split; [exact Hk|]. rewrite Ht. reflexivity.
Defined.
